(** * ScanNet preprocessing: a shallow embedding of [scripts/preprocess_scannet.py]

    The development follows the script function by function.  Python
    exceptions are values of an error monad, dictionaries are association
    lists in insertion order (the order Python iterates them in), numpy
    arrays are lists, and the numeric kernel of numpy (float32 and float64
    arithmetic, [float()] parsing) is an interface with two instances: exact
    rationals and IEEE 754 binary floating point. *)

From Stdlib Require Import ZArith String Ascii Bool Lia.
From Stdlib Require Import QArith Qminmax Lqa.
From Stdlib Require Import SpecFloat.
From Stdlib Require Import List.
Import ListNotations.

Local Open Scope Z_scope.
Set Implicit Arguments.

(* ===================================================================== *)
(** * Part I: the program *)
(* ===================================================================== *)

(** ** Python exceptions *)

Inductive exn : Type :=
| AssertionError
| FileNotFoundError
| KeyError
| IndexError
| ValueError
| TypeError
| UnboundLocalError.

Inductive result (A : Type) : Type :=
| Ok (a : A)
| Raise (e : exn).

Arguments Ok {A} a.
Arguments Raise {A} e.

Definition bind {A B : Type} (c : result A) (k : A -> result B) : result B :=
  match c with
  | Ok a => k a
  | Raise e => Raise e
  end.

Notation "x <- c ;; k" := (bind c (fun x => k))
  (at level 61, c at next level, right associativity).
Notation "' pat <- c ;; k" := (bind c (fun x => match x with pat => k end))
  (at level 61, pat pattern, c at next level, right associativity).

(** A missing dictionary key. *)
Definition subscript {A : Type} (o : option A) : result A :=
  match o with
  | Some a => Ok a
  | None => Raise KeyError
  end.

(** A [for] loop whose body may raise: the state is threaded through the
    items in order and the first exception aborts the loop. *)
Fixpoint for_each {A S : Type} (body : S -> A -> result S) (items : list A)
    (s : S) : result S :=
  match items with
  | [] => Ok s
  | x :: rest => s' <- body s x ;; for_each body rest s'
  end.

(** ** Dictionaries

    A Python [dict] keeps its keys in insertion order; assigning to a key
    that is present keeps its position. *)

Class Key (K : Type) : Type := {
  keqb : K -> K -> bool;
  keqb_eq : forall a b, keqb a b = true <-> a = b
}.

#[export] Program Instance Key_Z : Key Z := { keqb := Z.eqb }.
Next Obligation. apply Z.eqb_eq. Qed.

#[export] Program Instance Key_string : Key string := { keqb := String.eqb }.
Next Obligation. apply String.eqb_eq. Qed.

Definition option_eqb {A : Type} (f : A -> A -> bool) (a b : option A) : bool :=
  match a, b with
  | Some x, Some y => f x y
  | None, None => true
  | _, _ => false
  end.

#[export] Program Instance Key_option (K : Type) (HK : Key K) : Key (option K) :=
  { keqb := option_eqb keqb }.
Next Obligation.
  destruct a as [x|], b as [y|]; simpl; split; intro H;
    try discriminate; try reflexivity.
  - apply keqb_eq in H. now subst.
  - apply keqb_eq. now inversion H.
Qed.

Definition dict (K V : Type) : Type := list (K * V).

Section Dict.
Context {K V : Type} `{Key K}.

Fixpoint dict_get (k : K) (d : dict K V) : option V :=
  match d with
  | [] => None
  | (k', v) :: d' => if keqb k k' then Some v else dict_get k d'
  end.

Fixpoint dict_set (k : K) (v : V) (d : dict K V) : dict K V :=
  match d with
  | [] => [(k, v)]
  | (k', v') :: d' =>
      if keqb k k' then (k', v) :: d' else (k', v') :: dict_set k v d'
  end.

Definition dict_mem (k : K) (d : dict K V) : bool :=
  match dict_get k d with Some _ => true | None => false end.

Definition keys (d : dict K V) : list K := map fst d.
End Dict.

(** ** Strings: the [str] methods the script calls *)

Module PyStr.

(** [str.isspace] on ASCII. *)
Definition is_space (c : ascii) : bool :=
  let n := nat_of_ascii c in
  ((9 <=? n) && (n <=? 13) || (28 <=? n) && (n <=? 32))%nat.

Definition is_empty (s : string) : bool :=
  match s with EmptyString => true | String _ _ => false end.

Fixpoint lstrip_by (p : ascii -> bool) (s : string) : string :=
  match s with
  | EmptyString => EmptyString
  | String c r => if p c then lstrip_by p r else s
  end.

Fixpoint rstrip_by (p : ascii -> bool) (s : string) : string :=
  match s with
  | EmptyString => EmptyString
  | String c r =>
      let r' := rstrip_by p r in
      if p c && is_empty r' then EmptyString else String c r'
  end.

Definition strip_by (p : ascii -> bool) (s : string) : string :=
  rstrip_by p (lstrip_by p s).

(** [s.rstrip()] and [s.strip()]. *)
Definition rstrip : string -> string := rstrip_by is_space.
Definition strip : string -> string := strip_by is_space.

Fixpoint mem_char (c : ascii) (chars : string) : bool :=
  match chars with
  | EmptyString => false
  | String c' r => Ascii.eqb c c' || mem_char c r
  end.

(** [s.strip(chars)]: strips every leading and trailing character that
    occurs in [chars]. *)
Definition strip_chars (chars : string) : string -> string :=
  strip_by (fun c => mem_char c chars).

(** [sub in s]. *)
Fixpoint contains (sub s : string) : bool :=
  String.prefix sub s ||
  match s with
  | EmptyString => false
  | String _ r => contains sub r
  end.

(** [s.split(sep)] for a one-character separator. *)
Fixpoint split (sep : ascii) (s : string) : list string :=
  match s with
  | EmptyString => [EmptyString]
  | String c r =>
      if Ascii.eqb c sep then EmptyString :: split sep r
      else match split sep r with
           | p :: ps => String c p :: ps
           | [] => [String c EmptyString]
           end
  end.

Definition digit_of (c : ascii) : option Z :=
  let n := nat_of_ascii c in
  if ((48 <=? n) && (n <=? 57))%nat then Some (Z.of_nat n - 48) else None.

(** Decimal digits with single underscores between them, as [int] and
    [float] accept them.  [prev] tells whether the previous character was
    a digit. *)
Fixpoint digits (acc : Z) (prev : bool) (s : string) : option Z :=
  match s with
  | EmptyString => if prev then Some acc else None
  | String c r =>
      match digit_of c with
      | Some d => digits (10 * acc + d) true r
      | None =>
          if Ascii.eqb c "_"%char && prev then digits acc false r else None
      end
  end.

(** [int(s)] for a string: surrounding whitespace, an optional sign, then
    decimal digits.  [None] stands for [ValueError].  (Strings are byte
    strings here; digits and spaces outside ASCII are not modelled.) *)
Definition int (s : string) : option Z :=
  match strip s with
  | String "+" r => digits 0 false r
  | String "-" r => option_map Z.opp (digits 0 false r)
  | r => digits 0 false r
  end.

End PyStr.

(** [represents_int(s)]: [int(s)] is tried and only [ValueError] is caught,
    so the [TypeError] of [int(None)] escapes. *)
Definition represents_int (s : option string) : result bool :=
  match s with
  | None => Raise TypeError
  | Some s => Ok (match PyStr.int s with Some _ => true | None => false end)
  end.

(** [int(x)] where [x] is a csv cell or a mapping key, [None] included. *)
Definition int_of (x : option string) : result Z :=
  match x with
  | None => Raise TypeError
  | Some s => match PyStr.int s with
              | Some z => Ok z
              | None => Raise ValueError
              end
  end.

(** ** Files

    A file that does not exist is [None]; its content is otherwise given
    parsed by the library that reads it. *)

Definition file (A : Type) : Type := option A.

(** [assert os.path.isfile(filename)] followed by reading the file. *)
Definition asserted {A : Type} (f : file A) : result A :=
  match f with
  | Some a => Ok a
  | None => Raise AssertionError
  end.

(** [open(filename)] on its own. *)
Definition opened {A : Type} (f : file A) : result A :=
  match f with
  | Some a => Ok a
  | None => Raise FileNotFoundError
  end.

(** ** [read_label_mapping] *)

(** What [csv.reader] yields for the table: one list of fields per record,
    the header first. *)
Definition csv_records : Type := list (list string).

(** The row dictionary [csv.DictReader] builds: the fields zipped with the
    header, and [None] under the header names a short row leaves out.
    (The surplus fields of a long row go under the key [None], which no
    column name reaches; they are left out.) *)
Fixpoint dict_row (fieldnames row : list string) (d : dict string (option string))
    : dict string (option string) :=
  match fieldnames, row with
  | [], _ => d
  | f :: fs, [] => dict_row fs [] (dict_set f None d)
  | f :: fs, x :: xs => dict_row fs xs (dict_set f (Some x) d)
  end.

(** The rows [csv.DictReader] iterates over: the first record gives the
    field names and empty records are skipped. *)
Definition dict_reader (recs : csv_records) : list (dict string (option string)) :=
  match recs with
  | [] => []
  | fieldnames :: rest =>
      map (fun row => dict_row fieldnames row [])
          (filter (fun row => match row with [] => false | _ => true end) rest)
  end.

Inductive label_mapping : Type :=
| StrKeyed (m : dict (option string) Z)
| IntKeyed (m : dict Z Z).

(** [mapping[row[label_from]] = int(row[label_to])]: the right-hand side is
    evaluated first. *)
Definition mapping_row (label_from label_to : string)
    (mapping : dict (option string) Z) (row : dict string (option string))
    : result (dict (option string) Z) :=
  cell <- subscript (dict_get label_to row) ;;
  v <- int_of cell ;;
  k <- subscript (dict_get label_from row) ;;
  Ok (dict_set k v mapping).

Definition build_mapping (recs : csv_records) (label_from label_to : string)
    : result (dict (option string) Z) :=
  for_each (mapping_row label_from label_to) (dict_reader recs) [].

(** [{int(k): v for k, v in mapping.items()}] *)
Definition rekey (mapping : dict (option string) Z) : result (dict Z Z) :=
  for_each (fun acc kv => k <- int_of (fst kv) ;; Ok (dict_set k (snd kv) acc))
           mapping [].

Definition read_label_mapping (filename : file csv_records)
    (label_from label_to : string) : result label_mapping :=
  recs <- asserted filename ;;
  mapping <- build_mapping recs label_from label_to ;;
  match keys mapping with
  | [] => Raise IndexError
  | k0 :: _ =>
      b <- represents_int k0 ;;
      if b then m <- rekey mapping ;; Ok (IntKeyed m)
      else Ok (StrKeyed mapping)
  end.

(** [label_map[label]] with a [str] label: an integer-keyed mapping holds no
    such key. *)
Definition label_map_get (label_map : label_mapping) (label : string) : result Z :=
  match label_map with
  | StrKeyed m => subscript (dict_get (Some label) m)
  | IntKeyed _ => Raise KeyError
  end.

(** ** Numbers

    The numeric kernel the script takes from Python and numpy.  A value of
    [num] is a floating-point number of either width (float32 embeds in
    float64 without change); the operations say which width they round to. *)

Class Numeric : Type := {
  num : Type;
  n_zero : num;                          (* an entry of [np.zeros] *)
  n_one : num;                           (* an entry of [np.ones] *)
  py_float : string -> option num;       (* [float(x)]; [None] is ValueError *)
  inner : list num -> list num -> num;   (* the float64 inner product of [np.dot] *)
  as_f32 : num -> num;                   (* conversion to float32 *)
  f32_min : num -> num -> num;           (* one step of [np.min] *)
  f32_max : num -> num -> num;           (* one step of [np.max] *)
  f32_add : num -> num -> num;
  f32_sub : num -> num -> num;
  f32_half : num -> num                  (* [x / 2] on a float32 scalar *)
}.

(** [np.random.choice(N, k, replace=False)] with the generator state made
    explicit. *)
Class Random : Type := {
  rng : Type;
  choice : nat -> nat -> rng -> list nat * rng
}.

(** ** Arrays *)

(** A Python integer stored into a uint32 array is reduced modulo 2^32
    (numpy before 2.0; later versions raise OverflowError out of range). *)
Definition wrap32 (z : Z) : Z := z mod 2 ^ 32.

Section Arrays.
Context {A : Type}.

(** [arr[i] = v] *)
Fixpoint put (i : nat) (v : A) (arr : list A) : result (list A) :=
  match arr, i with
  | [], _ => Raise IndexError
  | _ :: rest, O => Ok (v :: rest)
  | x :: rest, S j => rest' <- put j v rest ;; Ok (x :: rest')
  end.

(** [arr[idx] = v] for a list of indices. *)
Definition put_all (idx : list nat) (v : A) (arr : list A) : result (list A) :=
  for_each (fun a i => put i v a) idx arr.

(** [arr[idx]] for a list of indices. *)
Fixpoint take (idx : list nat) (arr : list A) : result (list A) :=
  match idx with
  | [] => Ok []
  | i :: rest =>
      match nth_error arr i with
      | Some x => xs <- take rest arr ;; Ok (x :: xs)
      | None => Raise IndexError
      end
  end.

(** [arr[0]] *)
Definition first (arr : list A) : result A :=
  match arr with
  | [] => Raise IndexError
  | x :: _ => Ok x
  end.

Fixpoint compress (mask : list bool) (arr : list A) : list A :=
  match mask, arr with
  | true :: m, x :: r => x :: compress m r
  | false :: m, _ :: r => compress m r
  | _, _ => []
  end.

(** [arr[mask]] for a boolean mask, which numpy requires to be as long as
    the array. *)
Definition select (mask : list bool) (arr : list A) : result (list A) :=
  if (length mask =? length arr)%nat then Ok (compress mask arr)
  else Raise IndexError.

(** [arr[i, :] = v] for a Python integer [i]: a negative index counts from
    the end. *)
Definition set_row (i : Z) (v : A) (arr : list A) : result (list A) :=
  let n := Z.of_nat (length arr) in
  if (0 <=? i) && (i <? n) then put (Z.to_nat i) v arr
  else if (- n <=? i) && (i <? 0) then put (Z.to_nat (i + n)) v arr
  else Raise IndexError.

(** [np.min] and [np.max] fold the array with a binary operation. *)
Definition reduce (f : A -> A -> A) (x : A) (rest : list A) : A :=
  fold_left f rest x.

Fixpoint map2 {B C : Type} (f : A -> B -> C) (l : list A) (l' : list B) : list C :=
  match l, l' with
  | x :: r, y :: r' => f x y :: map2 f r r'
  | _, _ => []
  end.
End Arrays.

(** [np.in1d(values, ids)] *)
Definition in1d (values ids : list Z) : list bool :=
  map (fun v => existsb (Z.eqb v) ids) values.

(** ** [read_aggregation] *)

Record seg_group : Type := {
  objectId : Z;
  label : string;
  segments : list Z
}.

(** The lists [json.load] allocates, one per group, are shared between the
    two dictionaries: a dictionary value is a reference into [heap], and
    [extend] changes the list every holder of the reference sees. *)
Record agg_state : Type := {
  heap : list (list Z);
  object_id_to_segs_ref : dict Z nat;
  label_to_segs_ref : dict string nat
}.

(** [lst.extend(other)] on the list at reference [r]. *)
Definition extend (r : nat) (other : list Z) (h : list (list Z)) : list (list Z) :=
  match nth_error h r with
  | Some l => firstn r h ++ (l ++ other) :: skipn (S r) h
  | None => h
  end.

(** One turn of the loop over [range(num_objects)]; [i] is also the
    reference of the group's own [segments] list. *)
Definition agg_step (st : agg_state) (ig : nat * seg_group) : agg_state :=
  let (i, g) := ig in
  let object_id := objectId g + 1 in
  let o2s := dict_set object_id i (object_id_to_segs_ref st) in
  match dict_get (label g) (label_to_segs_ref st) with
  | Some r =>
      {| heap := extend r (nth i (heap st) []) (heap st);
         object_id_to_segs_ref := o2s;
         label_to_segs_ref := label_to_segs_ref st |}
  | None =>
      {| heap := heap st;
         object_id_to_segs_ref := o2s;
         label_to_segs_ref := dict_set (label g) i (label_to_segs_ref st) |}
  end.

Definition deref {K : Type} (h : list (list Z)) (d : dict K nat) : dict K (list Z) :=
  map (fun kr => (fst kr, nth (snd kr) h [])) d.

Definition read_aggregation (filename : file (list seg_group))
    : result (dict Z (list Z) * dict string (list Z)) :=
  segGroups <- asserted filename ;;
  let st := fold_left agg_step
              (combine (seq 0 (length segGroups)) segGroups)
              {| heap := map segments segGroups;
                 object_id_to_segs_ref := [];
                 label_to_segs_ref := [] |} in
  Ok (deref (heap st) (object_id_to_segs_ref st),
      deref (heap st) (label_to_segs_ref st)).

(** ** [read_segmentation] *)

Definition seg_step (seg_to_verts : dict Z (list nat)) (iv : nat * Z)
    : dict Z (list nat) :=
  let (i, seg_id) := iv in
  match dict_get seg_id seg_to_verts with
  | Some verts => dict_set seg_id (verts ++ [i]) seg_to_verts
  | None => dict_set seg_id [i] seg_to_verts
  end.

Definition read_segmentation (filename : file (list Z))
    : result (dict Z (list nat) * nat) :=
  segIndices <- asserted filename ;;
  let num_verts := length segIndices in
  Ok (fold_left seg_step (combine (seq 0 num_verts) segIndices) [], num_verts).

(** A list comprehension whose element expression may raise. *)
Fixpoint traverse {A B : Type} (f : A -> result B) (l : list A) : result (list B) :=
  match l with
  | [] => Ok []
  | x :: rest => y <- f x ;; ys <- traverse f rest ;; Ok (y :: ys)
  end.

(** [os.path.join(a, b)] on POSIX paths. *)
Fixpoint ends_with_slash (s : string) : bool :=
  match s with
  | EmptyString => false
  | String c EmptyString => Ascii.eqb c "/"%char
  | String _ r => ends_with_slash r
  end.

Definition path_join (a b : string) : string :=
  if String.prefix "/" b then b
  else if PyStr.is_empty a || ends_with_slash a then (a ++ b)%string
  else (a ++ "/" ++ b)%string.

Section Pipeline.
Context {NUM : Numeric} {RND : Random}.

(** A two-dimensional array, row by row. *)
Definition matrix : Type := list (list num).

(** ** [read_mesh_vertices_rgb] *)

(** The point attributes Open3D reads from the mesh file. *)
Record point_cloud : Type := {
  points : list (num * num * num);
  colors : list (num * num * num)
}.

Definition row_f32 (p : num * num * num) : list num :=
  let '(a, b, c) := p in [as_f32 a; as_f32 b; as_f32 c].

(** [np.concatenate(..., axis=1)] needs as many points as colors. *)
Definition read_mesh_vertices_rgb (filename : file point_cloud) : result matrix :=
  data <- asserted filename ;;
  if (length (points data) =? length (colors data))%nat
  then Ok (map2 (fun p c => row_f32 p ++ row_f32 c) (points data) (colors data))
  else Raise ValueError.

(** ** The axis alignment of [export] *)

Definition to_float (x : string) : result num :=
  match py_float x with
  | Some v => Ok v
  | None => Raise ValueError
  end.

(** The loop over the lines of the metadata file: the first line that
    contains the key binds [axis_align_matrix] and ends the loop; with no
    such line the name stays unbound ([None]). *)
Fixpoint scan_lines (lines : list string) : result (option (list num)) :=
  match lines with
  | [] => Ok None
  | line :: rest =>
      if PyStr.contains "axisAlignment" line then
        m <- traverse to_float
               (PyStr.split " "
                  (PyStr.strip_chars "axisAlignment = " (PyStr.rstrip line))) ;;
        Ok (Some m)
      else scan_lines rest
  end.

(** [np.array(l).reshape((4, 4))] *)
Definition reshape_4_4 (l : list num) : result matrix :=
  if (length l =? 16)%nat
  then Ok [firstn 4 l; firstn 4 (skipn 4 l);
           firstn 4 (skipn 8 l); firstn 4 (skipn 12 l)]
  else Raise ValueError.

Definition read_axis_align_matrix (meta_file : file (list string)) : result matrix :=
  lines <- opened meta_file ;;
  bound <- scan_lines lines ;;
  match bound with
  | None => Raise UnboundLocalError
  | Some l => reshape_4_4 l
  end.

Definition ncols (m : matrix) : nat :=
  match m with
  | [] => O
  | row :: _ => length row
  end.

Definition column (j : nat) (m : matrix) : list num :=
  map (fun row => nth j row n_zero) m.

(** [m.transpose()] *)
Definition transpose (m : matrix) : matrix :=
  map (fun j => column j m) (seq 0 (ncols m)).

(** [np.dot(a, b)] for two-dimensional arrays. *)
Definition dot (a b : matrix) : matrix :=
  map (fun row => map (fun j => inner row (column j b)) (seq 0 (ncols b))) a.

(** [pts = np.ones((n, 4)); pts[:, 0:3] = mesh_vertices[:, 0:3]] *)
Definition homogeneous (mesh_vertices : matrix) : matrix :=
  map (fun row => firstn 3 row ++ [n_one]) mesh_vertices.

(** [mesh_vertices[:, 0:3] = pts[:, 0:3]], into the float32 array. *)
Definition set_positions (mesh_vertices pts : matrix) : matrix :=
  map2 (fun row p => map as_f32 (firstn 3 p) ++ skipn 3 row) mesh_vertices pts.

Definition apply_alignment (mesh_vertices axis_align_matrix : matrix) : matrix :=
  let pts := homogeneous mesh_vertices in
  let pts := dot pts (transpose axis_align_matrix) in
  set_positions mesh_vertices pts.

(** ** The label and instance loops of [export] *)

Definition label_body (label_map : label_mapping)
    (seg_to_verts : dict Z (list nat)) (label_ids : list Z)
    (item : string * list Z) : result (list Z) :=
  let (label, segs) := item in
  label_id <- label_map_get label_map label ;;
  for_each (fun ids seg =>
              verts <- subscript (dict_get seg seg_to_verts) ;;
              put_all verts (wrap32 label_id) ids)
           segs label_ids.

Definition instance_body (seg_to_verts : dict Z (list nat)) (label_ids : list Z)
    (st : list Z * dict Z Z) (item : Z * list Z) : result (list Z * dict Z Z) :=
  let (object_id, segs) := item in
  for_each (fun (st : list Z * dict Z Z) seg =>
              let (instance_ids, object_id_to_label_id) := st in
              verts <- subscript (dict_get seg seg_to_verts) ;;
              instance_ids <- put_all verts (wrap32 object_id) instance_ids ;;
              if dict_mem object_id object_id_to_label_id
              then Ok (instance_ids, object_id_to_label_id)
              else
                picked <- take verts label_ids ;;
                label_id <- first picked ;;
                Ok (instance_ids, dict_set object_id label_id object_id_to_label_id))
           segs st.

(** ** The bounding boxes of [export] *)

(** A row of [instance_bboxes]: centre, extent and the class label.  The
    label is a uint32 value, which the float64 row holds exactly. *)
Record bbox : Type := {
  cx : num; cy : num; cz : num;
  dx : num; dy : num; dz : num;
  cls : Z
}.

Definition zero_box : bbox :=
  {| cx := n_zero; cy := n_zero; cz := n_zero;
     dx := n_zero; dy := n_zero; dz := n_zero; cls := 0 |}.

Definition coord (j : nat) (row : list num) : num := nth j row n_zero.

(** The box of the non-empty point set [p :: obj_pc]. *)
Definition box_of (p : list num) (obj_pc : matrix) (label_id : Z) : bbox :=
  let xmin := reduce f32_min (coord 0 p) (map (coord 0) obj_pc) in
  let ymin := reduce f32_min (coord 1 p) (map (coord 1) obj_pc) in
  let zmin := reduce f32_min (coord 2 p) (map (coord 2) obj_pc) in
  let xmax := reduce f32_max (coord 0 p) (map (coord 0) obj_pc) in
  let ymax := reduce f32_max (coord 1 p) (map (coord 1) obj_pc) in
  let zmax := reduce f32_max (coord 2 p) (map (coord 2) obj_pc) in
  {| cx := f32_half (f32_add xmin xmax);
     cy := f32_half (f32_add ymin ymax);
     cz := f32_half (f32_add zmin zmax);
     dx := f32_sub xmax xmin;
     dy := f32_sub ymax ymin;
     dz := f32_sub zmax zmin;
     cls := label_id |}.

Definition bbox_body (mesh_vertices : matrix) (instance_ids : list Z)
    (object_id_to_label_id : dict Z Z) (instance_bboxes : list bbox)
    (obj_id : Z) : result (list bbox) :=
  label_id <- subscript (dict_get obj_id object_id_to_label_id) ;;
  obj_pc <- select (map (fun v => v =? obj_id) instance_ids) mesh_vertices ;;
  match obj_pc with
  | [] => Ok instance_bboxes
  | p :: rest => set_row (obj_id - 1) (box_of p rest label_id) instance_bboxes
  end.

(** ** [export] *)

Record scene : Type := {
  mesh_vertices : matrix;
  label_ids : list Z;
  instance_ids : list Z;
  instance_bboxes : list bbox;
  object_id_to_label_id : dict Z Z
}.

Definition export (mesh_file : file point_cloud)
    (agg_file : file (list seg_group)) (seg_file : file (list Z))
    (meta_file : file (list string)) (label_map_file : file csv_records)
    : result scene :=
  mesh_vertices <- read_mesh_vertices_rgb mesh_file ;;
  label_map <- read_label_mapping label_map_file "raw_category" "nyu40id" ;;
  axis_align_matrix <- read_axis_align_matrix meta_file ;;
  let mesh_vertices := apply_alignment mesh_vertices axis_align_matrix in
  ' (object_id_to_segs, label_to_segs) <- read_aggregation agg_file ;;
  ' (seg_to_verts, num_verts) <- read_segmentation seg_file ;;
  label_ids <- for_each (label_body label_map seg_to_verts) label_to_segs
                 (repeat 0 num_verts) ;;
  ' (instance_ids, object_id_to_label_id) <-
       for_each (instance_body seg_to_verts label_ids) object_id_to_segs
         (repeat 0 num_verts, []) ;;
  let num_instances := length (nodup Z.eq_dec (keys object_id_to_segs)) in
  instance_bboxes <-
    for_each (bbox_body mesh_vertices instance_ids object_id_to_label_id)
      (keys object_id_to_segs) (repeat zero_box num_instances) ;;
  Ok {| mesh_vertices := mesh_vertices;
        label_ids := label_ids;
        instance_ids := instance_ids;
        instance_bboxes := instance_bboxes;
        object_id_to_label_id := object_id_to_label_id |}.

(** ** [ScannetProcess] and [process_scene] *)

Record ScannetProcess : Type := {
  out_path : string;
  dataset_path : string;
  max_num_point : nat;
  DONOTCARE_IDS : list Z;
  OBJ_CLASS_IDS : list Z
}.

(** [__init__], without the directory listing. *)
Definition init (dataset_path out_path : string) (max_num_point : nat)
    : ScannetProcess :=
  {| out_path := out_path;
     dataset_path := dataset_path;
     max_num_point := max_num_point;
     DONOTCARE_IDS := [];
     OBJ_CLASS_IDS :=
       [3; 4; 5; 6; 7; 8; 9; 10; 11; 12; 14; 16; 24; 28; 33; 34; 36; 39] |}.

(** The input files of one scan, in the order [export] takes them. *)
Record scan_files : Type := {
  mesh_file : file point_cloud;
  agg_file : file (list seg_group);
  seg_file : file (list Z);
  meta_file : file (list string);
  label_map_file : file csv_records
}.

(** What [np.save] writes. *)
Inductive npy : Type :=
| Vertices (a : matrix)
| Labels (a : list Z)
| Boxes (a : list bbox).

(** The output directory: file name to content. *)
Definition disk : Type := dict string npy.

(** [f'{join(self.out_path, scan)}<suffix>'] *)
Definition out_file (self : ScannetProcess) (scan suffix : string) : string :=
  (path_join (out_path self) scan ++ suffix)%string.

Definition isfile (d : disk) (name : string) : bool := dict_mem name d.

(** Lines 124 to 138: the export, the don't-care mask and the box filter. *)
Definition filter_scene (self : ScannetProcess) (files : scan_files)
    : result (matrix * list Z * list Z * list bbox) :=
  sc <- export (mesh_file files) (agg_file files) (seg_file files)
          (meta_file files) (label_map_file files) ;;
  let semantic_labels := label_ids sc in
  let instance_labels := instance_ids sc in
  let mask := map negb (in1d semantic_labels (DONOTCARE_IDS self)) in
  mesh_vertices <- select mask (mesh_vertices sc) ;;
  semantic_labels <- select mask semantic_labels ;;
  instance_labels <- select mask instance_labels ;;
  let bbox_mask := in1d (map cls (instance_bboxes sc)) (OBJ_CLASS_IDS self) in
  instance_bboxes <- select bbox_mask (instance_bboxes sc) ;;
  Ok (mesh_vertices, semantic_labels, instance_labels, instance_bboxes).

(** Lines 140 to 145: the subsampling.  The indices drawn are returned
    with the arrays. *)
Definition subsample (self : ScannetProcess)
    (arrays : matrix * list Z * list Z) (g : rng)
    : result (matrix * list Z * list Z) * list nat * rng :=
  let '(mesh_vertices, semantic_labels, instance_labels) := arrays in
  let N := length mesh_vertices in
  if (max_num_point self <? N)%nat then
    let (choices, g') := choice N (max_num_point self) g in
    (mesh_vertices <- take choices mesh_vertices ;;
     semantic_labels <- take choices semantic_labels ;;
     instance_labels <- take choices instance_labels ;;
     Ok (mesh_vertices, semantic_labels, instance_labels),
     choices, g')
  else (Ok arrays, [], g).

Definition np_save (name : string) (a : npy) (d : disk) : disk :=
  dict_set name a d.

(** [process_scene] returns the outcome with the output directory and the
    generator state it leaves behind. *)
Definition process_scene (self : ScannetProcess) (scan : string)
    (files : scan_files) (d : disk) (g : rng) : result unit * disk * rng :=
  if isfile d (out_file self scan "_vert.npy")
     && isfile d (out_file self scan "_sem_label.npy")
     && isfile d (out_file self scan "_ins_label.npy")
     && isfile d (out_file self scan "_bbox.npy")
  then (Ok tt, d, g)
  else
    match filter_scene self files with
    | Raise e => (Raise e, d, g)
    | Ok (mesh_vertices, semantic_labels, instance_labels, instance_bboxes) =>
        match subsample self (mesh_vertices, semantic_labels, instance_labels) g with
        | (Raise e, _, g') => (Raise e, d, g')
        | (Ok (mesh_vertices, semantic_labels, instance_labels), _, g') =>
            let d := np_save (out_file self scan "_vert.npy")
                       (Vertices mesh_vertices) d in
            let d := np_save (out_file self scan "_sem_label.npy")
                       (Labels semantic_labels) d in
            let d := np_save (out_file self scan "_ins_label.npy")
                       (Labels instance_labels) d in
            let d := np_save (out_file self scan "_bbox.npy")
                       (Boxes instance_bboxes) d in
            (Ok tt, d, g')
        end
    end.

(** ** Shapes the alignment is stated with *)

(** A matrix with four rows of four columns. *)
Definition four_by_four (M : matrix) : Prop :=
  exists a0 a1 a2 a3 b0 b1 b2 b3 c0 c1 c2 c3 d0 d1 d2 d3,
    M = [[a0; a1; a2; a3]; [b0; b1; b2; b3]; [c0; c1; c2; c3]; [d0; d1; d2; d3]].

(** The new position of a vertex: its homogeneous coordinates against the
    first three rows of the matrix, rounded into the float32 array. *)
Definition aligned_row (M : matrix) (row : list num) : list num :=
  let h := firstn 3 row ++ [n_one] in
  [as_f32 (inner h (nth 0 M [])); as_f32 (inner h (nth 1 M []));
   as_f32 (inner h (nth 2 M []))] ++ skipn 3 row.

End Pipeline.

(** ** Decimal literals

    The text [float(x)] accepts, read as [m * 10 ^ e] with a sign. *)

Module Decimal.

Inductive literal : Type :=
| Finite (neg : bool) (m : Z) (e : Z)
| Infinity (neg : bool)
| NaN.

Definition is_digit_or_underscore (c : ascii) : bool :=
  match PyStr.digit_of c with
  | Some _ => true
  | None => Ascii.eqb c "_"%char
  end.

(** The longest prefix of digits and underscores, and what follows it. *)
Fixpoint span (s : string) : string * string :=
  match s with
  | EmptyString => (EmptyString, EmptyString)
  | String c r =>
      if is_digit_or_underscore c
      then let (p, q) := span r in (String c p, q)
      else (EmptyString, s)
  end.

Fixpoint count_digits (s : string) : Z :=
  match s with
  | EmptyString => 0
  | String c r =>
      match PyStr.digit_of c with
      | Some _ => 1 + count_digits r
      | None => count_digits r
      end
  end.

(** A possibly empty digit group. *)
Definition group (s : string) : option Z :=
  if PyStr.is_empty s then Some 0 else PyStr.digits 0 false s.

Definition lower (c : ascii) : ascii :=
  let n := nat_of_ascii c in
  if ((65 <=? n) && (n <=? 90))%nat then ascii_of_nat (n + 32) else c.

Fixpoint lowercase (s : string) : string :=
  match s with
  | EmptyString => EmptyString
  | String c r => String (lower c) (lowercase r)
  end.

(** The exponent part: nothing, or [e] with a signed integer. *)
Definition exponent (s : string) : option Z :=
  match s with
  | EmptyString => Some 0
  | String c r =>
      if Ascii.eqb (lower c) "e"%char then
        match r with
        | String "+" d => PyStr.digits 0 false d
        | String "-" d => option_map Z.opp (PyStr.digits 0 false d)
        | d => PyStr.digits 0 false d
        end
      else None
  end.

Definition unsigned (neg : bool) (s : string) : option literal :=
  let l := lowercase s in
  if String.eqb l "inf" || String.eqb l "infinity" then Some (Infinity neg)
  else if String.eqb l "nan" then Some NaN
  else
    let (ip, r1) := span s in
    let (fp, r2) :=
      match r1 with
      | String "." r => span r
      | _ => (EmptyString, r1)
      end in
    if PyStr.is_empty ip && PyStr.is_empty fp then None
    else
      match group ip, group fp, exponent r2 with
      | Some i, Some f, Some e =>
          let nd := count_digits fp in
          Some (Finite neg (i * 10 ^ nd + f) (e - nd))
      | _, _, _ => None
      end.

Definition parse (s : string) : option literal :=
  match PyStr.strip s with
  | String "+" r => unsigned false r
  | String "-" r => unsigned true r
  | r => unsigned false r
  end.

End Decimal.

(** ** Exact arithmetic: the numbers are rationals and nothing rounds *)

Module Exact.

Definition of_literal (l : Decimal.literal) : option Q :=
  match l with
  | Decimal.Finite neg m e =>
      let v := if 0 <=? e then inject_Z (m * 10 ^ e)
               else Qmake m (Z.to_pos (10 ^ (- e))) in
      Some (if neg then Qopp v else v)
  | _ => None
  end.

Definition float_of_string (s : string) : option Q :=
  match Decimal.parse s with
  | Some l => of_literal l
  | None => None
  end.

Definition inner_product (u v : list Q) : Q :=
  fold_left (fun acc ab => Qplus acc (Qmult (fst ab) (snd ab))) (combine u v) 0%Q.

#[export] Instance numeric : Numeric := {|
  num := Q;
  n_zero := 0%Q;
  n_one := 1%Q;
  py_float := float_of_string;
  inner := inner_product;
  as_f32 := fun x => x;
  f32_min := Qmin;
  f32_max := Qmax;
  f32_add := Qplus;
  f32_sub := Qminus;
  f32_half := fun x => Qdiv x 2
|}.

End Exact.

(** ** IEEE 754 arithmetic: binary32 and binary64, round to nearest even *)

Module IEEE.

(** A value rounded into the format of precision [prec]. *)
Definition round_to (prec emax : Z) (x : spec_float) : spec_float :=
  match x with
  | S754_finite s m e => binary_normalize prec emax (cond_Zopp s (Zpos m)) e s
  | _ => x
  end.

Definition f32 : spec_float -> spec_float := round_to 24 128.
Definition f64 : spec_float -> spec_float := round_to 53 1024.

Definition of_Z64 (neg : bool) (m : Z) : spec_float :=
  binary_normalize 53 1024 (cond_Zopp neg m) 0 neg.

Definition of_literal (l : Decimal.literal) : spec_float :=
  match l with
  | Decimal.Finite neg m e =>
      if 0 <=? e then of_Z64 neg (m * 10 ^ e)
      else
        match m with
        | Zpos p =>
            SFdiv 53 1024 (S754_finite neg p 0)
              (S754_finite false (Z.to_pos (10 ^ (- e))) 0)
        | _ => S754_zero neg
        end
  | Decimal.Infinity neg => S754_infinity neg
  | Decimal.NaN => S754_nan
  end.

Definition float_of_string (s : string) : option spec_float :=
  option_map of_literal (Decimal.parse s).

(** The products are accumulated from left to right in binary64. *)
Definition inner_product (u v : list spec_float) : spec_float :=
  fold_left (fun acc ab => SFadd 53 1024 acc (SFmul 53 1024 (f64 (fst ab)) (f64 (snd ab))))
            (combine u v) (S754_zero false).

Definition is_nan (x : spec_float) : bool :=
  match x with S754_nan => true | _ => false end.

(** [np.minimum] and [np.maximum] propagate NaN. *)
Definition minimum (a b : spec_float) : spec_float :=
  if is_nan a || is_nan b then S754_nan
  else if SFltb b a then b else a.

Definition maximum (a b : spec_float) : spec_float :=
  if is_nan a || is_nan b then S754_nan
  else if SFltb a b then b else a.

Definition two : spec_float := S754_finite false 8388608 (-22).

#[export] Instance numeric : Numeric := {|
  num := spec_float;
  n_zero := S754_zero false;
  n_one := S754_finite false 4503599627370496 (-52);
  py_float := float_of_string;
  inner := inner_product;
  as_f32 := f32;
  f32_min := minimum;
  f32_max := maximum;
  f32_add := SFadd 24 128;
  f32_sub := SFsub 24 128;
  f32_half := fun x => SFdiv 24 128 x two
|}.

(** The rational a finite float denotes. *)
Definition to_Q (x : spec_float) : Q :=
  match x with
  | S754_finite s m e =>
      let v := if 0 <=? e then inject_Z (Zpos m * 2 ^ e)
               else Qmake (Zpos m) (Z.to_pos (2 ^ (- e))) in
      if s then Qopp v else v
  | _ => 0%Q
  end.

End IEEE.

(** ** A sampler

    A generator for running [process_scene]: it draws the indices one by
    one from the pool of those not drawn yet, with a linear congruential
    state. *)

Module Sampler.

Definition next (g : Z) : Z := (1103515245 * g + 12345) mod 2147483648.

Definition remove_at (j : nat) (pool : list nat) : list nat :=
  firstn j pool ++ skipn (S j) pool.

Fixpoint draw (k : nat) (pool : list nat) (g : Z) : list nat * Z :=
  match k, pool with
  | S k', _ :: _ =>
      let g' := next g in
      let j := Z.to_nat (g' mod Z.of_nat (length pool)) in
      let (rest, g'') := draw k' (remove_at j pool) g' in
      (nth j pool O :: rest, g'')
  | _, _ => ([], g)
  end.

#[export] Instance lcg : Random := {|
  rng := Z;
  choice := fun N k g => draw k (seq 0 N) g
|}.

End Sampler.

(** ** Scenes to run the program on *)

Module Scenario.

Definition newline : string := String (ascii_of_nat 10) EmptyString.

(** The label table: one category, chair, of class 5. *)
Definition label_table : csv_records :=
  [["raw_category"; "nyu40id"]; ["chair"; "5"]]%string.

(** Metadata whose alignment is a translation by (2, 3, 4). *)
Definition metadata : list string :=
  [("axisAlignment = 1 0 0 2 0 1 0 3 0 0 1 4 0 0 0 1 " ++ newline)%string;
   ("colorHeight = 968" ++ newline)%string].

(** Metadata with no alignment line. *)
Definition metadata_without_alignment : list string :=
  [("colorHeight = 968" ++ newline)%string;
   ("colorWidth = 1296" ++ newline)%string].

(** Five vertices in two segments; the second segment is a chair. *)
Definition segIndices : list Z := [0; 0; 1; 1; 1].

Definition chair : seg_group :=
  {| objectId := 0; label := "chair"; segments := [1] |}.

Definition mesh : @point_cloud Exact.numeric :=
  @Build_point_cloud Exact.numeric
    [(0, 0, 0); (1, 0, 0); (2, 1, 0); (3, 2, 1); (4, 5, 6)]%Q
    [(10, 20, 30); (10, 20, 30); (200, 100, 0); (200, 100, 0); (200, 100, 0)]%Q.

Definition files : @scan_files Exact.numeric :=
  @Build_scan_files Exact.numeric
    (Some mesh) (Some [chair]) (Some segIndices) (Some metadata)
    (Some label_table).

Definition files_without_alignment : @scan_files Exact.numeric :=
  @Build_scan_files Exact.numeric
    (Some mesh) (Some [chair]) (Some segIndices)
    (Some metadata_without_alignment) (Some label_table).

(** A scene with no annotated object whose mesh has two vertices where
    the segmentation has one. *)
Definition unannotated : @scan_files Exact.numeric :=
  @Build_scan_files Exact.numeric
    (Some (@Build_point_cloud Exact.numeric
             [(0, 0, 0); (1, 1, 1)]%Q [(0, 0, 0); (0, 0, 0)]%Q))
    (Some []) (Some [7]) (Some metadata) (Some label_table).

Definition converter : ScannetProcess := init "scans" "out" 3.

(** Two float32 neighbours: 1 and the next number above it. *)
Definition one_f32 : spec_float := S754_finite false 8388608 (-23).
Definition above_one_f32 : spec_float := S754_finite false 8388609 (-23).
Definition zero_f32 : spec_float := S754_zero false.

(** Two vertices, at x = 1 and just above, that make up one chair; the
    alignment is the identity. *)
Definition neighbours : @scan_files IEEE.numeric :=
  @Build_scan_files IEEE.numeric
    (Some (@Build_point_cloud IEEE.numeric
             [(one_f32, zero_f32, zero_f32); (above_one_f32, zero_f32, zero_f32)]
             [(zero_f32, zero_f32, zero_f32); (zero_f32, zero_f32, zero_f32)]))
    (Some [{| objectId := 0; label := "chair"; segments := [0] |}])
    (Some [0; 0])
    (Some [("axisAlignment = 1 0 0 0 0 1 0 0 0 0 1 0 0 0 0 1 " ++ newline)%string])
    (Some label_table).



End Scenario.

(** ** The properties the theorems speak of *)

(** What numpy promises of [choice(N, k, replace=False)] when [k <= N]:
    [k] pairwise distinct indices below [N]. *)
Definition without_replacement (R : Random) : Prop :=
  forall (N k : nat) (g : rng), (k <= N)%nat ->
    length (fst (choice N k g)) = k /\
    NoDup (fst (choice N k g)) /\
    Forall (fun i => (i < N)%nat) (fst (choice N k g)).

(** What the dictionary holds once the first [k] entries of [segIndices]
    have been read. *)
Definition inverts (segIndices : list Z) (k : nat) (m : dict Z (list nat)) : Prop :=
  NoDup (keys m) /\
  (forall s verts, dict_get s m = Some verts ->
     NoDup verts /\
     forall i, In i verts <-> (i < k)%nat /\ nth_error segIndices i = Some s) /\
  (forall i s, (i < k)%nat -> nth_error segIndices i = Some s ->
     dict_get s m <> None).

(** A mapping key that [int] accepts. *)
Definition parses (k : option string) : bool :=
  match k with
  | Some s => match PyStr.int s with Some _ => true | None => false end
  | None => false
  end.

(** The three per-vertex arrays of a scene are equally long. *)
Definition row_aligned {NUM : Numeric} (sc : scene) : Prop :=
  length (label_ids sc) = length (instance_ids sc) /\
  length (instance_ids sc) = length (mesh_vertices sc).

(** A vertex lies in a box: on each axis the position is within half the
    extent of the centre.  [val] gives the rational a number denotes. *)
Definition within {NUM : Numeric} (val : num -> Q) (b : bbox) (row : list num)
    : Prop :=
  (val (cx b) - val (dx b) / 2 <= val (coord 0 row) /\
   val (coord 0 row) <= val (cx b) + val (dx b) / 2 /\
   val (cy b) - val (dy b) / 2 <= val (coord 1 row) /\
   val (coord 1 row) <= val (cy b) + val (dy b) / 2 /\
   val (cz b) - val (dz b) / 2 <= val (coord 2 row) /\
   val (coord 2 row) <= val (cz b) + val (dz b) / 2)%Q.

Definition extent_nonneg {NUM : Numeric} (val : num -> Q) (b : bbox) : Prop :=
  (0 <= val (dx b) /\ 0 <= val (dy b) /\ 0 <= val (dz b))%Q.

(** ** What the aggregation and the loops of [export] compute *)

(** The segments of all the groups labelled [l], in file order. *)
Definition label_segments (groups : list seg_group) (l : string) : list Z :=
  concat (map segments (filter (fun g => String.eqb (label g) l) groups)).

(** The state of [read_aggregation] once the first [k] groups of the file
    have been read. *)
Definition aggregated (G : list seg_group) (k : nat) (st : agg_state) : Prop :=
  length (heap st) = length G /\
  (forall j g, (k <= j)%nat -> nth_error G j = Some g ->
     nth j (heap st) [] = segments g) /\
  (forall l r, dict_get l (label_to_segs_ref st) = Some r ->
     (r < k)%nat /\
     (exists g, nth_error G r = Some g /\ label g = l) /\
     nth r (heap st) [] = label_segments (firstn k G) l /\
     forall j g, (j < r)%nat -> nth_error G j = Some g -> label g <> l) /\
  (forall l, dict_get l (label_to_segs_ref st) = None ->
     forall j g, (j < k)%nat -> nth_error G j = Some g -> label g <> l) /\
  (forall j g, (j < k)%nat -> nth_error G j = Some g ->
     dict_get (label g) (label_to_segs_ref st) <> Some j ->
     nth j (heap st) [] = segments g) /\
  (forall oid i, dict_get oid (object_id_to_segs_ref st) = Some i ->
     (i < k)%nat /\
     (exists g, nth_error G i = Some g /\ objectId g + 1 = oid) /\
     forall j g, (i < j < k)%nat -> nth_error G j = Some g ->
                 objectId g + 1 <> oid) /\
  (forall j g, (j < k)%nat -> nth_error G j = Some g ->
     dict_get (objectId g + 1) (object_id_to_segs_ref st) <> None).

(** The value a projection loop of [export] leaves at a vertex of segment
    [seg]: the value of the last item whose segment list holds [seg], and 0
    when no item does. *)
Definition last_write {K : Type} (value : K -> Z) (items : list (K * list Z))
    (seg : Z) : Z :=
  fold_left (fun acc item =>
               if existsb (Z.eqb seg) (snd item) then value (fst item) else acc)
            items 0.

(** The class id a label stands for in a label map, 0 for a label the map
    does not hold. *)
Definition label_value (label_map : label_mapping) (l : string) : Z :=
  match label_map_get label_map l with
  | Ok z => wrap32 z
  | Raise _ => 0
  end.

(** The references the dictionaries of [read_aggregation] hold when no key
    repeats: the group at position [off + j] under its [j]-th key. *)
Fixpoint refs {K : Type} (key : seg_group -> K) (off : nat)
    (groups : list seg_group) : dict K nat :=
  match groups with
  | [] => []
  | g :: rest => (key g, off) :: refs key (S off) rest
  end.

(** ** [convert] *)

Section Converting.
Context {NUM : Numeric} {RND : Random}.

(** [traceback.format_exc()] for the exception being handled. *)
Variable format_exc : exn -> string.

Definition line_feed : string := String (ascii_of_nat 10) EmptyString.

(** One turn of the loop: [process_scene] for the scan, and a line in
    [errors] when it raises.  [dataset] gives the input files the paths of
    a scan lead to. *)
Definition convert_scan (self : ScannetProcess) (dataset : string -> scan_files)
    (st : list string * disk * rng) (scan : string) : list string * disk * rng :=
  let '(errors, d, g) := st in
  match process_scene self scan (dataset scan) d g with
  | (Ok _, d', g') => (errors, d', g')
  | (Raise e, d', g') =>
      (errors ++ [(scan ++ ": " ++ format_exc e)%string], d', g')
  end.

(** [convert] over the scans of [self.scans], in an output directory that
    exists.  [d] holds the files of the directory other than [errors.txt],
    which is kept apart: [convert] writes it on every run, and the text it
    leaves there is returned beside the outcome, the other files and the
    generator state.  [open(..., 'w')] has created the file, empty, by the
    time [errmsg] is evaluated, and [errmsg] is bound only when some scan
    failed. *)
Definition convert (self : ScannetProcess) (scans : list string)
    (dataset : string -> scan_files) (d : disk) (g : rng)
    : result unit * disk * string * rng :=
  let '(errors, d, g) := fold_left (convert_scan self dataset) scans ([], d, g) in
  match errors with
  | [] => (Raise UnboundLocalError, d, EmptyString, g)
  | _ :: _ =>
      let errmsg :=
        ("Processing failed:" ++ line_feed ++ String.concat line_feed errors)%string in
      (Ok tt, d, errmsg, g)
  end.

End Converting.

(** ** The order of the floats *)








(* ===================================================================== *)
(** * Part II: the properties *)
(* ===================================================================== *)

(** ** The error monad and loops *)

Lemma bind_Ok {A B : Type} (c : result A) (k : A -> result B) (b : B) :
  bind c k = Ok b -> exists a, c = Ok a /\ k a = Ok b.
Proof.
  destruct c as [a|e]; simpl; intro H; [eauto | discriminate].
Qed.

(** [bind_inv H] splits a successful sequence into its steps. *)
Ltac bind_inv H :=
  let a := fresh "a" in
  let Ha := fresh "Ha" in
  apply bind_Ok in H; destruct H as (a & Ha & H).

Lemma for_each_app {A S : Type} (body : S -> A -> result S) (l1 l2 : list A) (s : S) :
  for_each body (l1 ++ l2) s = (s' <- for_each body l1 s ;; for_each body l2 s').
Proof.
  revert s; induction l1 as [|x l1 IH]; intro s; simpl; [reflexivity|].
  destruct (body s x) as [s'|e]; simpl; [apply IH | reflexivity].
Qed.

(** An invariant every successful turn of the body keeps holds after the
    loop. *)
Lemma for_each_invariant {A S : Type} (P : S -> Prop) (body : S -> A -> result S)
    (items : list A) :
  (forall s x s', In x items -> P s -> body s x = Ok s' -> P s') ->
  forall s s', P s -> for_each body items s = Ok s' -> P s'.
Proof.
  induction items as [|x items IH]; intros Hstep s s' Hs Hrun; simpl in Hrun.
  - now inversion Hrun; subst.
  - bind_inv Hrun.
    apply IH with (s := a); auto.
    + intros s1 y s2 Hy. apply Hstep. now right.
    + apply Hstep with (s := s) (x := x); auto. now left.
Qed.

(** In a loop that ran to its end every turn was taken, from a state that
    satisfied the invariant. *)
Lemma for_each_turn {A S : Type} (P : S -> Prop) (body : S -> A -> result S)
    (items : list A) :
  (forall s x s', In x items -> P s -> body s x = Ok s' -> P s') ->
  forall s s' x, P s -> for_each body items s = Ok s' -> In x items ->
    exists s1 s2, P s1 /\ body s1 x = Ok s2.
Proof.
  induction items as [|y items IH]; intros Hstep s s' x Hs Hrun Hin;
    simpl in Hrun; [contradiction|].
  bind_inv Hrun.
  destruct Hin as [->|Hin].
  - eauto.
  - apply IH with (s := a) (s' := s'); auto.
    + intros s1 z s2 Hz. apply Hstep. now right.
    + apply Hstep with (s := s) (x := y); auto. now left.
Qed.

(** ** Dictionaries *)

Section DictFacts.
Context {K V : Type} `{Key K}.

Lemma keqb_refl (k : K) : keqb k k = true.
Proof. now apply keqb_eq. Qed.

Lemma keqb_neq (a b : K) : a <> b -> keqb a b = false.
Proof.
  intro Hne. destruct (keqb a b) eqn:E; [|reflexivity].
  apply keqb_eq in E. contradiction.
Qed.

Lemma dict_get_set_same (k : K) (v : V) (d : dict K V) :
  dict_get k (dict_set k v d) = Some v.
Proof.
  induction d as [|[k' v'] d IH]; simpl.
  - now rewrite keqb_refl.
  - destruct (keqb k k') eqn:E; simpl; rewrite E; auto.
Qed.

Lemma dict_get_set_other (k k0 : K) (v : V) (d : dict K V) :
  k0 <> k -> dict_get k0 (dict_set k v d) = dict_get k0 d.
Proof.
  intro Hne. induction d as [|[k' v'] d IH]; simpl.
  - now rewrite keqb_neq.
  - destruct (keqb k k') eqn:E; simpl.
    + apply keqb_eq in E; subst k'. now rewrite keqb_neq.
    + now rewrite IH.
Qed.

Lemma dict_get_In (k : K) (v : V) (d : dict K V) :
  dict_get k d = Some v -> In (k, v) d.
Proof.
  induction d as [|[k' v'] d IH]; simpl; [discriminate|].
  destruct (keqb k k') eqn:E.
  - apply keqb_eq in E; subst. intro Hv; inversion Hv. now left.
  - intro Hv. right. auto.
Qed.

Lemma dict_get_None (k : K) (d : dict K V) :
  dict_get k d = None <-> ~ In k (keys d).
Proof.
  induction d as [|[k' v'] d IH]; simpl.
  - tauto.
  - destruct (keqb k k') eqn:E.
    + apply keqb_eq in E; subst. split; [discriminate | intro Hn; exfalso; auto].
    + rewrite IH. split.
      * intros Hn [->|Hin]; [now rewrite keqb_refl in E | auto].
      * intros Hn Hin. apply Hn. now right.
Qed.

Lemma In_dict_get (k : K) (v : V) (d : dict K V) :
  NoDup (keys d) -> In (k, v) d -> dict_get k d = Some v.
Proof.
  induction d as [|[k' v'] d IH]; simpl; intros Hnd Hin; [contradiction|].
  inversion Hnd as [|? ? Hnot Hnd']; subst.
  destruct Hin as [Heq|Hin].
  - inversion Heq; subst. now rewrite keqb_refl.
  - destruct (keqb k k') eqn:E.
    + apply keqb_eq in E; subst. exfalso. apply Hnot.
      change k' with (fst (k', v)). now apply in_map.
    + auto.
Qed.

Lemma keys_dict_set (k : K) (v : V) (d : dict K V) :
  keys (dict_set k v d) = if dict_mem k d then keys d else keys d ++ [k].
Proof.
  unfold dict_mem. induction d as [|[k' v'] d IH]; simpl; [reflexivity|].
  destruct (keqb k k') eqn:E; simpl; [reflexivity|].
  rewrite IH. now destruct (dict_get k d).
Qed.

Lemma In_keys_dict_set (k k0 : K) (v : V) (d : dict K V) :
  In k0 (keys (dict_set k v d)) <-> k0 = k \/ In k0 (keys d).
Proof.
  rewrite keys_dict_set. unfold dict_mem.
  destruct (dict_get k d) eqn:E.
  - split; [now right|]. intros [->|Hin]; [|assumption].
    apply dict_get_In in E. change k with (fst (k, v0)). now apply in_map.
  - rewrite in_app_iff. simpl. intuition.
Qed.

Lemma NoDup_keys_dict_set (k : K) (v : V) (d : dict K V) :
  NoDup (keys d) -> NoDup (keys (dict_set k v d)).
Proof.
  intro Hnd. rewrite keys_dict_set. unfold dict_mem.
  destruct (dict_get k d) eqn:E; [assumption|].
  apply dict_get_None in E.
  apply NoDup_rev in Hnd.
  rewrite <- (rev_involutive (keys d ++ [k])). apply NoDup_rev.
  rewrite rev_app_distr. simpl. constructor; [|assumption].
  now rewrite <- in_rev.
Qed.

Lemma length_keys_dict_set (k : K) (v : V) (d : dict K V) :
  (length (keys (dict_set k v d)) <= S (length (keys d)))%nat.
Proof.
  rewrite keys_dict_set. destruct (dict_mem k d); [lia|].
  rewrite length_app. simpl. lia.
Qed.
End DictFacts.

(** ** [read_label_mapping] *)

Lemma filter_blank_records (n : nat) :
  filter (fun row : list string => match row with [] => false | _ => true end)
         (repeat [] n) = [].
Proof. induction n; simpl; auto. Qed.

(** C10.  A label-mapping table that has a header row but no data rows
    (blank lines, which the reader skips, do not count) makes
    [read_label_mapping] raise IndexError when it probes the first key; no
    empty mapping is returned. *)
Theorem C10_header_only_raises (fieldnames : list string) (blank : nat)
    (label_from label_to : string) :
  read_label_mapping (Some (fieldnames :: repeat [] blank)) label_from label_to
  = Raise IndexError.
Proof.
  unfold read_label_mapping, build_mapping, dict_reader. simpl.
  rewrite filter_blank_records. reflexivity.
Qed.

Lemma rekey_keys (m : dict (option string) Z) :
  forallb parses (keys m) = true ->
  forall acc, exists m',
    for_each (fun acc kv => k <- int_of (fst kv) ;; Ok (dict_set k (snd kv) acc))
             m acc = Ok m' /\
    forall z, In z (keys m') <->
              In z (keys acc) \/ exists k, In k (keys m) /\ int_of k = Ok z.
Proof.
  induction m as [|[k v] m IH]; simpl; intros Hall acc.
  - exists acc. split; [reflexivity|]. intro z. split; [now left|].
    intros [Hz|(k & [] & _)]. assumption.
  - apply andb_true_iff in Hall. destruct Hall as [Hk Hall].
    destruct k as [s|]; [|discriminate]. simpl in Hk |- *.
    destruct (PyStr.int s) as [z0|] eqn:Es; [|discriminate]. simpl.
    destruct (IH Hall (dict_set z0 v acc)) as (m' & Hrun & Hkeys).
    exists m'. split; [assumption|]. intro z. rewrite Hkeys, In_keys_dict_set.
    split.
    + intros [[->|Hz]|(k & Hin & Hint)].
      * right. exists (Some s). split; [now left|]. simpl. now rewrite Es.
      * now left.
      * right. exists k. split; [now right | assumption].
    + intros [Hz|(k & [<-|Hin] & Hint)].
      * left. now right.
      * simpl in Hint. rewrite Es in Hint. inversion Hint. left. now left.
      * right. exists k. now split.
Qed.

(** The re-keyed mapping holds, under an integer, the value of the last
    entry whose key reads as that integer. *)
Lemma rekey_values (m : dict (option string) Z) :
  forall acc m',
    for_each (fun acc kv => k <- int_of (fst kv) ;; Ok (dict_set k (snd kv) acc))
             m acc = Ok m' ->
    forall z v,
      dict_get z m' = Some v <->
      (exists pre k post,
         m = pre ++ (k, v) :: post /\ int_of k = Ok z /\
         forall kv, In kv post -> int_of (fst kv) <> Ok z) \/
      (dict_get z acc = Some v /\
       forall kv, In kv m -> int_of (fst kv) <> Ok z).
Proof.
  induction m as [|[k0 v0] m IH]; intros acc m' Hrun z v.
  - simpl in Hrun. inversion Hrun; subst m'. split.
    + intro Hz. right. split; [assumption | intros ? []].
    + intros [(pre & k & post & Heq & _)|[Hz _]]; [|assumption].
      now destruct pre.
  - cbn [for_each] in Hrun. bind_inv Hrun. bind_inv Ha.
    inversion Ha; subst a. clear Ha. simpl in Ha0.
    rewrite (IH _ _ Hrun z v). split.
    + intros [(pre & k & post & Heq & Hk & Hpost)|[Hz Hnone]].
      * left. exists ((k0, v0) :: pre), k, post. subst m. auto.
      * destruct (Z.eq_dec z a0) as [->|Hne].
        -- rewrite dict_get_set_same in Hz. inversion Hz; subst v0.
           left. exists [], k0, m. auto.
        -- rewrite dict_get_set_other in Hz by assumption.
           right. split; [assumption|].
           intros kv [<-|Hin]; [simpl; congruence | now apply Hnone].
    + intros [(pre & k & post & Heq & Hk & Hpost)|[Hz Hnone]].
      * destruct pre as [|p pre]; simpl in Heq; inversion Heq; subst.
        -- right. rewrite Hk in Ha0. inversion Ha0; subst a0.
           split; [apply dict_get_set_same | assumption].
        -- left. exists pre, k, post. auto.
      * right. assert (Hne : z <> a0).
        { intros ->. now apply (Hnone (k0, v0) (or_introl eq_refl)). }
        rewrite dict_get_set_other by assumption.
        split; [assumption|]. intros kv Hin. apply Hnone. now right.
Qed.

(** The comprehension raises at the first key [int] rejects: TypeError for
    [None], ValueError for a string. *)
Lemma rekey_raises_at (pre post : dict (option string) Z) (k : option string)
    (v : Z) :
  forallb parses (keys pre) = true -> parses k = false ->
  forall acc,
    for_each (fun acc kv => k <- int_of (fst kv) ;; Ok (dict_set k (snd kv) acc))
             (pre ++ (k, v) :: post) acc
    = Raise (match k with None => TypeError | Some _ => ValueError end).
Proof.
  intros Hpre Hk acc. rewrite for_each_app.
  destruct (rekey_keys pre Hpre acc) as (m1 & -> & _). cbn [bind for_each].
  destruct k as [s|]; simpl in *; [|reflexivity].
  destruct (PyStr.int s); [discriminate | reflexivity].
Qed.

(** C4, as the code has it.  [read_label_mapping] probes the first key of
    the mapping only.  A first key [None] (the key of a row too short to
    have the [label_from] column) makes the probe raise TypeError.  When
    the first key is a string that does not parse as an integer, the
    string-keyed mapping is returned unchanged.  When it parses, every key
    is converted in order: if all of them parse, the mapping is re-keyed,
    an integer standing for the value of the last entry whose key reads as
    it; otherwise the call raises at the first key that does not parse,
    ValueError for a string and TypeError for [None]. *)
Theorem C4_first_key_decides (recs : csv_records) (label_from label_to : string)
    (m : dict (option string) Z) (k0 : option string)
    (rest : list (option string)) :
  build_mapping recs label_from label_to = Ok m ->
  keys m = k0 :: rest ->
  (k0 = None ->
     read_label_mapping (Some recs) label_from label_to = Raise TypeError) /\
  (forall s, k0 = Some s -> PyStr.int s = None ->
     read_label_mapping (Some recs) label_from label_to = Ok (StrKeyed m)) /\
  (forall s, k0 = Some s -> PyStr.int s <> None ->
     forallb parses (keys m) = true ->
     exists m',
       read_label_mapping (Some recs) label_from label_to = Ok (IntKeyed m') /\
       (forall z, In z (keys m') <-> exists k, In k (keys m) /\ int_of k = Ok z) /\
       (forall z v,
          dict_get z m' = Some v <->
          exists pre k post,
            m = pre ++ (k, v) :: post /\ int_of k = Ok z /\
            forall kv, In kv post -> int_of (fst kv) <> Ok z)) /\
  (forall s, k0 = Some s -> PyStr.int s <> None ->
     forall pre k v post,
       m = pre ++ (k, v) :: post ->
       forallb parses (keys pre) = true -> parses k = false ->
       read_label_mapping (Some recs) label_from label_to
       = Raise (match k with None => TypeError | Some _ => ValueError end)).
Proof.
  intros Hbuild Hkeys.
  assert (Hread : read_label_mapping (Some recs) label_from label_to
                  = (b <- represents_int k0 ;;
                     if b then m' <- rekey m ;; Ok (IntKeyed m')
                     else Ok (StrKeyed m))).
  { unfold read_label_mapping. simpl. rewrite Hbuild. simpl.
    now rewrite Hkeys. }
  rewrite Hread. clear Hread.
  split; [intros ->; reflexivity|].
  split; [intros s -> Hs; simpl; now rewrite Hs|].
  split.
  - intros s -> Hs Hall. simpl.
    destruct (PyStr.int s) as [z0|] eqn:Es; [|now contradiction Hs]. simpl.
    destruct (rekey_keys m Hall []) as (m' & Hrun & Hin).
    exists m'. unfold rekey. rewrite Hrun. split; [reflexivity|]. split.
    + intro z. rewrite Hin. simpl. tauto.
    + intros z v. rewrite (rekey_values m [] Hrun z v). simpl. split.
      * intros [H|[H _]]; [assumption | discriminate].
      * intro H. now left.
  - intros s -> Hs pre k v post Hm Hpre Hk. simpl.
    destruct (PyStr.int s) as [z0|] eqn:Es; [|now contradiction Hs]. simpl.
    unfold rekey. rewrite Hm.
    now rewrite (rekey_raises_at pre post k v Hpre Hk []).
Qed.

(** A table whose keys are all numerals is re-keyed. *)
Lemma C4_first_key_decides_witness :
  let recs := [["raw_category"; "nyu40id"]; ["1"; "5"]; ["2"; "6"]]%string in
  let m := [(Some "1"%string, 5); (Some "2"%string, 6)] in
  build_mapping recs "raw_category" "nyu40id" = Ok m /\
  keys m = [Some "1"%string; Some "2"%string] /\
  exists m',
    read_label_mapping (Some recs) "raw_category" "nyu40id" = Ok (IntKeyed m') /\
    (forall z, In z (keys m') <-> exists k, In k (keys m) /\ int_of k = Ok z) /\
    (forall z v,
       dict_get z m' = Some v <->
       exists pre k post,
         m = pre ++ (k, v) :: post /\ int_of k = Ok z /\
         forall kv, In kv post -> int_of (fst kv) <> Ok z).
Proof.
  intros recs m.
  split; [reflexivity|]. split; [reflexivity|].
  destruct (@C4_first_key_decides recs "raw_category" "nyu40id" m
              (Some "1"%string) [Some "2"%string] eq_refl eq_refl)
    as (_ & _ & Hint & _).
  apply (Hint "1"%string eq_refl); [discriminate | reflexivity].
Defined.

(** C4 as stated fails: the first key of this table is a numeral and the
    second is not; some key does not parse, yet the string-keyed mapping is
    not returned, the call raises ValueError. *)
Lemma C4_counterexample :
  let recs := [["raw_category"; "nyu40id"]; ["1"; "5"]; ["chair"; "6"]]%string in
  exists m,
    build_mapping recs "raw_category" "nyu40id" = Ok m /\
    forallb parses (keys m) = false /\
    read_label_mapping (Some recs) "raw_category" "nyu40id" = Raise ValueError /\
    read_label_mapping (Some recs) "raw_category" "nyu40id" <> Ok (StrKeyed m).
Proof.
  exists [(Some "1"%string, 5); (Some "chair"%string, 6)].
  repeat split; try reflexivity. discriminate.
Qed.

(** ** [read_aggregation] *)

(** C2, where it fails.  When two groups share a label, the list of the
    first group is the very list stored under the label, so extending the
    label's list with the segments of the second group extends the first
    group's entry of the object map as well: the first object comes back
    with the segments of both groups, not with its own list. *)
Theorem C2_shared_label_extends_first_group (g1 g2 : seg_group) :
  objectId g1 <> objectId g2 ->
  label g1 = label g2 ->
  read_aggregation (Some [g1; g2])
  = Ok ([(objectId g1 + 1, segments g1 ++ segments g2);
         (objectId g2 + 1, segments g2)],
        [(label g1, segments g1 ++ segments g2)]).
Proof.
  intros Hid Hlabel. unfold read_aggregation. simpl.
  rewrite <- Hlabel, String.eqb_refl.
  assert (E : (objectId g2 + 1 =? objectId g1 + 1) = false)
    by (apply Z.eqb_neq; lia).
  simpl. rewrite E. reflexivity.
Qed.

(** Two chairs: object 1 comes back with the segments [1; 2] where its own
    list in the file is [1]. *)
Lemma C2_shared_label_extends_first_group_witness :
  let g1 := {| objectId := 0; label := "chair"; segments := [1] |} in
  let g2 := {| objectId := 1; label := "chair"; segments := [2] |} in
  objectId g1 <> objectId g2 /\
  label g1 = label g2 /\
  read_aggregation (Some [g1; g2])
  = Ok ([(1, [1; 2]); (2, [2])], [("chair"%string, [1; 2])]).
Proof.
  intros g1 g2.
  assert (Hid : objectId g1 <> objectId g2) by discriminate.
  split; [exact Hid|]. split; [reflexivity|].
  exact (@C2_shared_label_extends_first_group g1 g2 Hid eq_refl).
Defined.

(** ** [read_segmentation] *)


Lemma inverts_step (l1 l2 : list Z) (x : Z) (m : dict Z (list nat)) :
  inverts (l1 ++ x :: l2) (length l1) m ->
  inverts (l1 ++ x :: l2) (S (length l1)) (seg_step m (length l1, x)).
Proof.
  set (L := l1 ++ x :: l2). set (k := length l1).
  assert (Hk : nth_error L k = Some x).
  { unfold L, k. rewrite nth_error_app2 by lia. now rewrite Nat.sub_diag. }
  intros (Hnd & Hent & Hex). unfold seg_step.
  assert (Hnew : forall verts0,
            (dict_get x m = Some verts0 \/ (dict_get x m = None /\ verts0 = [])) ->
            inverts L (S k) (dict_set x (verts0 ++ [k]) m)).
  { intros verts0 H0. split; [now apply NoDup_keys_dict_set|]. split.
    - intros s verts Hget.
      destruct (Z.eq_dec s x) as [->|Hne].
      + rewrite dict_get_set_same in Hget. inversion Hget; subst verts.
        assert (Hold : NoDup verts0 /\
                       forall i, In i verts0 <-> (i < k)%nat /\ nth_error L i = Some x).
        { destruct H0 as [H0|[H0 ->]]; [now apply Hent|].
          split; [constructor|]. intro i. simpl. split; [tauto|].
          intros [Hi Hnth]. now apply (Hex i x Hi Hnth). }
        destruct Hold as [Hnd0 Hin0]. split.
        * apply NoDup_rev in Hnd0.
          rewrite <- (rev_involutive (verts0 ++ [k])). apply NoDup_rev.
          rewrite rev_app_distr. simpl. constructor; [|assumption].
          rewrite <- in_rev. intro Hin. apply Hin0 in Hin. lia.
        * intro i. rewrite in_app_iff, Hin0. simpl. split.
          -- intros [[Hi Hnth]|[<-|[]]]; split; auto; lia.
          -- intros [Hi Hnth]. destruct (Nat.eq_dec i k) as [->|Hik]; [auto|].
             left. split; [lia | assumption].
      + rewrite dict_get_set_other in Hget by assumption.
        destruct (Hent s verts Hget) as [Hnd0 Hin0]. split; [assumption|].
        intro i. rewrite Hin0. split; intros [Hi Hnth]; split; auto; try lia.
        destruct (Nat.eq_dec i k) as [->|Hik]; [|lia].
        rewrite Hk in Hnth. congruence.
    - intros i s Hi Hnth. destruct (Z.eq_dec s x) as [->|Hne].
      + rewrite dict_get_set_same. discriminate.
      + rewrite dict_get_set_other by assumption.
        apply (Hex i s); [|assumption].
        destruct (Nat.eq_dec i k) as [->|Hik]; [|lia].
        rewrite Hk in Hnth. congruence. }
  destruct (dict_get x m) as [verts0|] eqn:E.
  - apply Hnew. now left.
  - apply (Hnew []). now right.
Qed.

Lemma inverts_fold (l2 l1 : list Z) (m : dict Z (list nat)) :
  inverts (l1 ++ l2) (length l1) m ->
  inverts (l1 ++ l2) (length (l1 ++ l2))
    (fold_left seg_step (combine (seq (length l1) (length l2)) l2) m).
Proof.
  revert l1 m. induction l2 as [|x l2 IH]; intros l1 m Hinv; simpl.
  - now rewrite app_nil_r in *.
  - apply inverts_step in Hinv.
    replace (l1 ++ x :: l2) with ((l1 ++ [x]) ++ l2) in *
      by (now rewrite <- app_assoc).
    replace (S (length l1)) with (length (l1 ++ [x])) in *
      by (rewrite length_app; simpl; lia).
    now apply IH.
Qed.

Lemma inverts_all (segIndices : list Z) :
  inverts segIndices (length segIndices)
    (fold_left seg_step (combine (seq 0 (length segIndices)) segIndices) []).
Proof.
  apply (@inverts_fold segIndices [] []).
  split; [constructor|]. split.
  - intros s verts Hget. discriminate.
  - intros i s Hi. simpl in Hi. lia.
Qed.

(** C8.  The segment-to-vertices map of [read_segmentation] inverts the
    per-vertex segment array: a vertex index [i] below the vertex count is
    in the vertex list of the segment id stored at position [i] of
    [segIndices], in no other list, and there once; the map has one entry
    per segment id and names no index beyond the vertex count. *)
Theorem C8_segmentation_inverts (segIndices : list Z) (i : nat) :
  (i < length segIndices)%nat ->
  exists seg_to_verts,
    read_segmentation (Some segIndices) = Ok (seg_to_verts, length segIndices) /\
    NoDup (keys seg_to_verts) /\
    (exists verts, In (nth i segIndices 0, verts) seg_to_verts /\ In i verts) /\
    (forall s verts, In (s, verts) seg_to_verts -> In i verts ->
       s = nth i segIndices 0) /\
    (forall s verts, In (s, verts) seg_to_verts ->
       NoDup verts /\ forall j, In j verts -> (j < length segIndices)%nat).
Proof.
  intro Hi. eexists. split; [reflexivity|].
  destruct (inverts_all segIndices) as (Hnd & Hent & Hex).
  set (m := fold_left seg_step (combine (seq 0 (length segIndices)) segIndices) []) in *.
  assert (Hnth : nth_error segIndices i = Some (nth i segIndices 0))
    by now apply nth_error_nth'.
  split; [assumption|]. split; [|split].
  - destruct (dict_get (nth i segIndices 0) m) as [verts|] eqn:E.
    + exists verts. split; [now apply dict_get_In|].
      apply (Hent _ _ E). now split.
    + exfalso. now apply (Hex i _ Hi Hnth).
  - intros s verts Hin Hiv. apply In_dict_get in Hin; [|assumption].
    apply (Hent _ _ Hin) in Hiv. destruct Hiv as [_ Hs].
    rewrite Hnth in Hs. now inversion Hs.
  - intros s verts Hin. apply In_dict_get in Hin; [|assumption].
    destruct (Hent _ _ Hin) as [Hndv Hiff]. split; [assumption|].
    intros j Hj. now apply Hiff in Hj.
Qed.

(** The scene of the specification's scenario: segment array [0,0,1,1,1]. *)
Lemma C8_segmentation_inverts_witness :
  (2 < length [0; 0; 1; 1; 1])%nat /\
  exists seg_to_verts,
    read_segmentation (Some [0; 0; 1; 1; 1]) = Ok (seg_to_verts, 5%nat) /\
    NoDup (keys seg_to_verts) /\
    (exists verts, In (1, verts) seg_to_verts /\ In 2%nat verts) /\
    (forall s verts, In (s, verts) seg_to_verts -> In 2%nat verts -> s = 1) /\
    (forall s verts, In (s, verts) seg_to_verts ->
       NoDup verts /\ forall j, In j verts -> (j < 5)%nat).
Proof.
  assert (H : (2 < length [0; 0; 1; 1; 1])%nat) by (simpl; lia).
  split; [exact H|].
  exact (@C8_segmentation_inverts [0; 0; 1; 1; 1] 2%nat H).
Defined.

(** ** Arrays *)

Section ArrayFacts.
Context {A : Type}.

Lemma put_length (i : nat) (v : A) (arr arr' : list A) :
  put i v arr = Ok arr' -> length arr' = length arr.
Proof.
  revert i arr'. induction arr as [|x arr IH]; intros [|i] arr' H; simpl in H;
    try discriminate.
  - now inversion H.
  - bind_inv H. inversion H; subst. simpl. f_equal. eauto.
Qed.

Lemma put_Forall (P : A -> Prop) (i : nat) (v : A) (arr arr' : list A) :
  P v -> Forall P arr -> put i v arr = Ok arr' -> Forall P arr'.
Proof.
  intro Hv. revert i arr'.
  induction arr as [|x arr IH]; intros [|i] arr' Hall H; simpl in H;
    try discriminate; inversion Hall; subst.
  - inversion H. now constructor.
  - bind_inv H. inversion H; subst. constructor; eauto.
Qed.

(** Writing at [i] leaves the other rows as they were. *)
Lemma put_nth_error (i j : nat) (v : A) (arr arr' : list A) :
  put i v arr = Ok arr' ->
  nth_error arr' j = if Nat.eqb j i then Some v else nth_error arr j.
Proof.
  revert i j arr'. induction arr as [|x arr IH]; intros [|i] [|j] arr' H;
    simpl in H; try discriminate.
  - now inversion H.
  - now inversion H.
  - bind_inv H. now inversion H.
  - bind_inv H. inversion H; subst. simpl. eauto.
Qed.

Lemma put_in_range (i : nat) (v : A) (arr arr' : list A) :
  put i v arr = Ok arr' -> (i < length arr)%nat.
Proof.
  revert i arr'. induction arr as [|x arr IH]; intros [|i] arr' H; simpl in H;
    try discriminate; simpl; [lia|].
  bind_inv H. apply IH in Ha. lia.
Qed.

Lemma put_all_length (idx : list nat) (v : A) (arr arr' : list A) :
  put_all idx v arr = Ok arr' -> length arr' = length arr.
Proof.
  unfold put_all. intro H.
  apply (for_each_invariant (fun a => length a = length arr)
           (fun a i => put i v a) idx) with (s := arr); auto.
  intros s x s' _ Hs Hput. apply put_length in Hput. congruence.
Qed.

Lemma put_all_Forall (P : A -> Prop) (idx : list nat) (v : A) (arr arr' : list A) :
  P v -> Forall P arr -> put_all idx v arr = Ok arr' -> Forall P arr'.
Proof.
  unfold put_all. intros Hv Hall H.
  apply (for_each_invariant (Forall P) (fun a i => put i v a) idx)
    with (s := arr); auto.
  intros s x s' _ Hs Hput. eapply put_Forall; eauto.
Qed.

Lemma take_Forall2 (idx : list nat) (arr l : list A) :
  take idx arr = Ok l -> Forall2 (fun i x => nth_error arr i = Some x) idx l.
Proof.
  revert l. induction idx as [|i idx IH]; intros l H; simpl in H.
  - inversion H. constructor.
  - destruct (nth_error arr i) as [x|] eqn:E; [|discriminate].
    bind_inv H. inversion H; subst. constructor; auto.
Qed.

Lemma take_length (idx : list nat) (arr l : list A) :
  take idx arr = Ok l -> length l = length idx.
Proof.
  intro H. apply take_Forall2 in H. symmetry. eapply Forall2_length; eauto.
Qed.

Lemma take_total (idx : list nat) (arr : list A) :
  Forall (fun i => (i < length arr)%nat) idx -> exists l, take idx arr = Ok l.
Proof.
  induction 1 as [|i idx Hi _ IH]; simpl; [eauto|].
  destruct (nth_error arr i) as [x|] eqn:E.
  - destruct IH as (l & ->). simpl. eauto.
  - apply nth_error_None in E. lia.
Qed.

Lemma select_Ok (mask : list bool) (arr l : list A) :
  select mask arr = Ok l -> length mask = length arr /\ l = compress mask arr.
Proof.
  unfold select. destruct (Nat.eqb_spec (length mask) (length arr)); intro H;
    [|discriminate]. now inversion H.
Qed.

Lemma compress_In (mask : list bool) (arr : list A) (i : nat) (x : A) :
  nth_error mask i = Some true -> nth_error arr i = Some x ->
  In x (compress mask arr).
Proof.
  revert arr i. induction mask as [|b mask IH]; intros [|y arr] [|i] Hm Ha;
    simpl in *; try discriminate.
  - inversion Hm; inversion Ha; subst. now left.
  - destruct b; [right|]; eauto.
Qed.

Lemma In_compress (mask : list bool) (arr : list A) (x : A) :
  In x (compress mask arr) ->
  exists i, nth_error mask i = Some true /\ nth_error arr i = Some x.
Proof.
  revert arr. induction mask as [|b mask IH]; intros [|y arr] Hin;
    simpl in Hin; try contradiction.
  - destruct b; contradiction.
  - destruct b.
    + destruct Hin as [->|Hin]; [now exists O|].
      destruct (IH _ Hin) as (i & Hm & Ha). now exists (S i).
    + destruct (IH _ Hin) as (i & Hm & Ha). now exists (S i).
Qed.

Lemma compress_length {B : Type} (mask : list bool) (arr : list A) (arr' : list B) :
  length arr = length arr' ->
  length (compress mask arr) = length (compress mask arr').
Proof.
  revert arr arr'. induction mask as [|b mask IH]; intros [|x arr] [|y arr'] H;
    simpl in *; try discriminate; try reflexivity.
  - now destruct b.
  - destruct b; simpl; auto.
Qed.

Lemma compress_length_le (mask : list bool) (arr : list A) :
  (length (compress mask arr) <= length arr)%nat.
Proof.
  revert arr. induction mask as [|b mask IH]; intros [|x arr]; simpl; try lia.
  - destruct b; simpl; lia.
  - specialize (IH arr). destruct b; simpl; lia.
Qed.

Lemma map2_map {B C : Type} (f : A -> B -> C) (g : A -> B) (l : list A) :
  map2 f l (map g l) = map (fun x => f x (g x)) l.
Proof. induction l; simpl; congruence. Qed.

Lemma set_row_Ok (i : Z) (v : A) (arr arr' : list A) :
  set_row i v arr = Ok arr' ->
  - Z.of_nat (length arr) <= i < Z.of_nat (length arr) /\
  length arr' = length arr /\
  forall j, (0 <= i -> nth_error arr' j
                       = if Nat.eqb j (Z.to_nat i) then Some v else nth_error arr j).
Proof.
  unfold set_row. intro H.
  destruct ((0 <=? i) && (i <? Z.of_nat (length arr))) eqn:E1.
  - apply andb_true_iff in E1. destruct E1 as [E1 E2].
    apply Z.leb_le in E1. apply Z.ltb_lt in E2.
    split; [lia|]. split; [now apply put_length in H|].
    intros j _. now apply put_nth_error.
  - destruct ((- Z.of_nat (length arr) <=? i) && (i <? 0)) eqn:E2; [|discriminate].
    apply andb_true_iff in E2. destruct E2 as [E2 E3].
    apply Z.leb_le in E2. apply Z.ltb_lt in E3.
    split; [lia|]. split; [now apply put_length in H|].
    intros j Hi. lia.
Qed.
End ArrayFacts.

(** ** The axis alignment *)

Section Alignment.
Context {NUM : Numeric}.

Lemma scan_lines_without_key (lines : list string) :
  (forall line, In line lines -> PyStr.contains "axisAlignment" line = false) ->
  scan_lines lines = Ok None.
Proof.
  induction lines as [|line lines IH]; intro Hno; simpl; [reflexivity|].
  rewrite (Hno line) by now left.
  apply IH. intros l Hl. apply Hno. now right.
Qed.

(** The rows the mesh reader returns have six columns. *)
Lemma read_mesh_vertices_rgb_columns (filename : file point_cloud) (V : matrix) :
  read_mesh_vertices_rgb filename = Ok V ->
  Forall (fun row => length row = 6%nat) V /\
  exists data, filename = Some data /\ length V = length (points data).
Proof.
  unfold read_mesh_vertices_rgb. intro H. bind_inv H.
  destruct filename as [data|]; [|discriminate]. inversion Ha; subst a.
  destruct (Nat.eqb_spec (length (points data)) (length (colors data))) as [E|];
    [|discriminate].
  inversion H; subst V. clear H Ha. split.
  - revert E. generalize (colors data). generalize (points data).
    induction l as [|[[a b] c] l IH]; intros [|[[r g'] b'] l'] E; simpl in *;
      try discriminate; constructor; auto.
  - exists data. split; [reflexivity|].
    revert E. generalize (colors data). generalize (points data).
    induction l as [|p l IH]; intros [|c l'] E; simpl in *;
      try discriminate; auto.
Qed.


Lemma reshape_4_4_shape (l : list num) (M : matrix) :
  reshape_4_4 l = Ok M -> four_by_four M.
Proof.
  unfold reshape_4_4.
  destruct (Nat.eqb_spec (length l) 16) as [E|]; [|discriminate].
  intro H. inversion H; subst M. clear H.
  do 16 (destruct l as [|? l]; [discriminate|]).
  destruct l; [|discriminate]. simpl. unfold four_by_four.
  repeat eexists.
Qed.

Lemma read_axis_align_matrix_shape (meta_file : file (list string)) (M : matrix) :
  read_axis_align_matrix meta_file = Ok M -> four_by_four M.
Proof.
  unfold read_axis_align_matrix. intro H. bind_inv H. bind_inv H.
  destruct a0 as [l|]; [|discriminate]. now apply reshape_4_4_shape in H.
Qed.


Lemma transpose_four_by_four (M : matrix) :
  four_by_four M ->
  forall j, (j < 4)%nat -> column j (transpose M) = nth j M [].
Proof.
  intros (a0 & a1 & a2 & a3 & b0 & b1 & b2 & b3 & c0 & c1 & c2 & c3
          & d0 & d1 & d2 & d3 & ->) j Hj.
  do 4 (destruct j as [|j]; [reflexivity|]). lia.
Qed.

Lemma dot_transpose_row (M : matrix) (h : list num) :
  four_by_four M ->
  dot [h] (transpose M)
  = [[inner h (nth 0 M []); inner h (nth 1 M []);
      inner h (nth 2 M []); inner h (nth 3 M [])]].
Proof.
  intro HM. unfold dot.
  assert (Hc : ncols (transpose M) = 4%nat).
  { destruct HM as (a0 & a1 & a2 & a3 & b0 & b1 & b2 & b3 & c0 & c1 & c2 & c3
                    & d0 & d1 & d2 & d3 & ->). reflexivity. }
  rewrite Hc. simpl.
  now rewrite !(transpose_four_by_four HM) by lia.
Qed.

Lemma apply_alignment_rows (V M : matrix) :
  four_by_four M -> apply_alignment V M = map (aligned_row M) V.
Proof.
  intro HM. unfold apply_alignment, set_positions, homogeneous.
  assert (Hdot : forall A : matrix,
            dot A (transpose M)
            = map (fun h => [inner h (nth 0 M []); inner h (nth 1 M []);
                             inner h (nth 2 M []); inner h (nth 3 M [])]) A).
  { intro A. unfold dot. apply map_ext. intro h.
    pose proof (dot_transpose_row h HM) as Hd. unfold dot in Hd.
    now injection Hd. }
  rewrite Hdot, map_map, map2_map. apply map_ext. intro row. reflexivity.
Qed.
End Alignment.

(** ** [export], step by step *)

Section ExportSteps.
Context {NUM : Numeric}.

Variables (mesh : file point_cloud) (agg : file (list seg_group))
          (seg : file (list Z)) (meta : file (list string))
          (lm : file csv_records).

(** A successful [export] went through each of its steps. *)
Lemma export_steps (sc : scene) :
  export mesh agg seg meta lm = Ok sc ->
  exists V label_map M o2s l2s s2v n,
    read_mesh_vertices_rgb mesh = Ok V /\
    read_label_mapping lm "raw_category" "nyu40id" = Ok label_map /\
    read_axis_align_matrix meta = Ok M /\
    read_aggregation agg = Ok (o2s, l2s) /\
    read_segmentation seg = Ok (s2v, n) /\
    for_each (label_body label_map s2v) l2s (repeat 0 n) = Ok (label_ids sc) /\
    for_each (instance_body s2v (label_ids sc)) o2s (repeat 0 n, [])
      = Ok (instance_ids sc, object_id_to_label_id sc) /\
    for_each (bbox_body (apply_alignment V M) (instance_ids sc)
                (object_id_to_label_id sc))
      (keys o2s) (repeat zero_box (length (nodup Z.eq_dec (keys o2s))))
      = Ok (instance_bboxes sc) /\
    mesh_vertices sc = apply_alignment V M.
Proof.
  unfold export. intro H.
  bind_inv H. bind_inv H. bind_inv H. bind_inv H.
  destruct a2 as [o2s l2s]. bind_inv H. destruct a2 as [s2v n].
  bind_inv H. bind_inv H. destruct a3 as [ids o2l]. bind_inv H.
  inversion H; subst sc; simpl.
  exists a, a0, a1, o2s, l2s, s2v, n. repeat split; assumption.
Qed.

(** C9.  The axis alignment of [export] changes the position columns of
    the vertex array and nothing else: the first three columns of every
    row become the first three entries of the product of the homogeneous
    position (w = 1) with the transposed 4x4 matrix, that is its inner
    products with the first three rows of the matrix, as stored in the
    float32 array; the colour columns are those the mesh reader gave. *)
Theorem C9_alignment_frame (sc : scene) :
  export mesh agg seg meta lm = Ok sc ->
  exists V M,
    read_mesh_vertices_rgb mesh = Ok V /\
    read_axis_align_matrix meta = Ok M /\
    Forall2 (fun row row' =>
               let h := firstn 3 row ++ [n_one] in
               firstn 3 row'
               = map as_f32 (firstn 3 (hd [] (dot [h] (transpose M)))) /\
               firstn 3 row'
               = [as_f32 (inner h (nth 0 M [])); as_f32 (inner h (nth 1 M []));
                  as_f32 (inner h (nth 2 M []))] /\
               skipn 3 row' = skipn 3 row /\
               length row' = length row)
            V (mesh_vertices sc).
Proof.
  intro H. apply export_steps in H.
  destruct H as (V & label_map & M & o2s & l2s & s2v & n
                 & HV & _ & HM & _ & _ & _ & _ & _ & Hmesh).
  exists V, M. split; [assumption|]. split; [assumption|].
  pose proof (read_axis_align_matrix_shape _ HM) as H44.
  apply read_mesh_vertices_rgb_columns in HV. destruct HV as [Hcols _].
  rewrite Hmesh, (apply_alignment_rows V H44).
  clear Hmesh.
  induction Hcols as [|row V Hrow Hcols IH]; cbn [map]; constructor; auto.
  rewrite (dot_transpose_row _ H44). unfold aligned_row.
  do 6 (destruct row as [|? row]; [discriminate|]).
  destruct row; [|discriminate]. simpl. auto.
Qed.

(** [export] on metadata without the key: the name [axis_align_matrix] is
    never bound, and using it raises UnboundLocalError once the mesh and the
    label map have been read. *)
Lemma export_without_alignment (lines : list string) :
  meta = Some lines ->
  (forall line, In line lines -> PyStr.contains "axisAlignment" line = false) ->
  (exists e, export mesh agg seg meta lm = Raise e) /\
  (forall V label_map,
     read_mesh_vertices_rgb mesh = Ok V ->
     read_label_mapping lm "raw_category" "nyu40id" = Ok label_map ->
     export mesh agg seg meta lm = Raise UnboundLocalError).
Proof.
  intros -> Hno.
  assert (Hm : read_axis_align_matrix (Some lines) = Raise UnboundLocalError).
  { unfold read_axis_align_matrix. simpl.
    now rewrite (scan_lines_without_key lines Hno). }
  unfold export. split.
  - destruct (read_mesh_vertices_rgb mesh) as [V|e]; simpl; [|eauto].
    destruct (read_label_mapping lm "raw_category" "nyu40id") as [l|e];
      simpl; [|eauto].
    rewrite Hm. simpl. eauto.
  - intros V label_map -> ->. simpl. now rewrite Hm.
Qed.
End ExportSteps.

(** ** The sampler draws without replacement *)

Lemma split_at (j : nat) (pool : list nat) :
  (j < length pool)%nat ->
  pool = firstn j pool ++ nth j pool O :: skipn (S j) pool.
Proof.
  revert j. induction pool as [|x pool IH]; intros [|j] Hj; simpl in *; try lia.
  - reflexivity.
  - f_equal. apply IH. lia.
Qed.

Lemma draw_step (k : nat) (pool : list nat) (g : Z) :
  pool <> [] ->
  Sampler.draw (S k) pool g
  = (nth (Z.to_nat (Sampler.next g mod Z.of_nat (length pool))) pool O
       :: fst (Sampler.draw k
                 (Sampler.remove_at
                    (Z.to_nat (Sampler.next g mod Z.of_nat (length pool))) pool)
                 (Sampler.next g)),
     snd (Sampler.draw k
            (Sampler.remove_at
               (Z.to_nat (Sampler.next g mod Z.of_nat (length pool))) pool)
            (Sampler.next g))).
Proof.
  destruct pool as [|p pool']; [congruence|]. intros _.
  cbn [Sampler.draw].
  now destruct (Sampler.draw k _ (Sampler.next g)).
Qed.

Lemma draw_without_replacement (k : nat) :
  forall (pool : list nat) (g : Z),
    NoDup pool -> (k <= length pool)%nat ->
    length (fst (Sampler.draw k pool g)) = k /\
    NoDup (fst (Sampler.draw k pool g)) /\
    Forall (fun i => In i pool) (fst (Sampler.draw k pool g)).
Proof.
  induction k as [|k IH]; intros pool g Hnd Hk.
  - simpl. repeat split; constructor.
  - assert (Hne : pool <> []) by (intros ->; simpl in Hk; lia).
    rewrite (draw_step k g Hne).
    set (j := Z.to_nat (Sampler.next g mod Z.of_nat (length pool))).
    assert (Hj : (j < length pool)%nat).
    { unfold j.
      assert (H : 0 < Z.of_nat (length pool)) by lia.
      pose proof (Z.mod_pos_bound (Sampler.next g) (Z.of_nat (length pool)) H).
      lia. }
    pose proof (@split_at j pool Hj) as Hsplit.
    assert (Hrem : NoDup (Sampler.remove_at j pool) /\
                   ~ In (nth j pool O) (Sampler.remove_at j pool)).
    { unfold Sampler.remove_at. apply NoDup_remove. now rewrite <- Hsplit. }
    assert (Hlen : length (Sampler.remove_at j pool) = (length pool - 1)%nat).
    { unfold Sampler.remove_at.
      rewrite length_app, length_firstn, length_skipn. lia. }
    assert (Hincl : forall i, In i (Sampler.remove_at j pool) -> In i pool).
    { intros i Hi. rewrite Hsplit. unfold Sampler.remove_at in Hi.
      apply in_app_or in Hi. apply in_or_app.
      destruct Hi; [now left | right; now right]. }
    destruct Hrem as [Hnd' Hnot].
    destruct (IH (Sampler.remove_at j pool) (Sampler.next g) Hnd') as (Hl & Hn & Hf).
    { rewrite Hlen. lia. }
    cbn [fst]. split; [simpl; now f_equal|]. split.
    + constructor; [|assumption]. intro Hin. apply Hnot.
      rewrite Forall_forall in Hf. now apply Hf.
    + constructor.
      * apply nth_In. exact Hj.
      * eapply Forall_impl; [|exact Hf]. intros i Hi. now apply Hincl.
Qed.

Lemma lcg_without_replacement : without_replacement Sampler.lcg.
Proof.
  intros N k g Hk. simpl.
  destruct (@draw_without_replacement k (seq 0 N) g) as (Hl & Hn & Hf).
  - apply seq_NoDup.
  - now rewrite length_seq.
  - repeat split; auto.
    eapply Forall_impl; [|exact Hf]. intros i Hi. apply in_seq in Hi. lia.
Qed.

(** ** [process_scene] *)

Lemma append_inj_l (p a b : string) : (p ++ a)%string = (p ++ b)%string -> a = b.
Proof.
  induction p as [|c p IH]; simpl; intro H; [assumption|].
  inversion H. auto.
Qed.

Section Process.
Context {NUM : Numeric} {RND : Random}.

Lemma out_file_inj (self : ScannetProcess) (scan a b : string) :
  a <> b -> out_file self scan a <> out_file self scan b.
Proof.
  unfold out_file. intros Hne Heq. apply append_inj_l in Heq. contradiction.
Qed.

(** C7.  With a generator that draws without replacement, the subsampling
    of [process_scene] returns at most as many vertices as it is given and
    draws no index twice; it changes nothing, arrays and generator, when
    the vertex count is at most [max_num_point]; otherwise it keeps
    [max_num_point] rows, the same rows of each of the three arrays. *)
Theorem C7_subsampling (self : ScannetProcess) (V : matrix) (S I : list Z)
    (g : rng) :
  without_replacement RND ->
  length S = length V -> length I = length V ->
  exists V' S' I' choices g',
    subsample self (V, S, I) g = (Ok (V', S', I'), choices, g') /\
    (length V' <= length V)%nat /\
    NoDup choices /\
    ((length V <= max_num_point self)%nat ->
       V' = V /\ S' = S /\ I' = I /\ g' = g) /\
    ((max_num_point self < length V)%nat ->
       length V' = max_num_point self /\
       Forall2 (fun i row => nth_error V i = Some row) choices V' /\
       Forall2 (fun i l => nth_error S i = Some l) choices S' /\
       Forall2 (fun i l => nth_error I i = Some l) choices I').
Proof.
  intros Hrnd HS HI. unfold subsample.
  destruct (Nat.ltb_spec (max_num_point self) (length V)) as [Hlt|Hge].
  - destruct (Hrnd (length V) (max_num_point self) g) as (Hl & Hn & Hf); [lia|].
    destruct (choice (length V) (max_num_point self) g) as [choices g'] eqn:E.
    simpl in Hl, Hn, Hf.
    destruct (take_total V Hf) as (V' & HV').
    destruct (@take_total _ choices S) as (S' & HS'); [now rewrite HS|].
    destruct (@take_total _ choices I) as (I' & HI'); [now rewrite HI|].
    exists V', S', I', choices, g'. rewrite HV', HS', HI'. simpl.
    pose proof (take_length _ _ HV') as HlV.
    split; [reflexivity|]. split; [lia|]. split; [assumption|].
    split; [lia|]. intros _.
    split; [lia|]. repeat split; now apply take_Forall2.
  - exists V, S, I, [], g. split; [reflexivity|]. split; [lia|].
    split; [constructor|]. split; [auto|]. lia.
Qed.
End Process.

(** ** The inputs of [export] *)

Lemma keys_deref {K : Type} (h : list (list Z)) (d : dict K nat) :
  keys (deref h d) = keys d.
Proof. unfold keys, deref. rewrite map_map. now apply map_ext. Qed.

Lemma agg_step_keys (st : agg_state) (ig : nat * seg_group) :
  object_id_to_segs_ref (agg_step st ig)
  = dict_set (objectId (snd ig) + 1) (fst ig) (object_id_to_segs_ref st).
Proof.
  destruct ig as [i g]. unfold agg_step. simpl.
  now destruct (dict_get (label g) (label_to_segs_ref st)).
Qed.

Lemma agg_fold_keys (items : list (nat * seg_group)) :
  forall st,
    NoDup (keys (object_id_to_segs_ref st)) ->
    let st' := fold_left agg_step items st in
    NoDup (keys (object_id_to_segs_ref st')) /\
    (length (keys (object_id_to_segs_ref st'))
     <= length (keys (object_id_to_segs_ref st)) + length items)%nat /\
    forall k, In k (keys (object_id_to_segs_ref st')) <->
              In k (keys (object_id_to_segs_ref st)) \/
              exists ig, In ig items /\ k = objectId (snd ig) + 1.
Proof.
  induction items as [|ig items IH]; intros st Hnd; simpl.
  - split; [assumption|]. split; [lia|]. intro k. split; [now left|].
    intros [Hk|(ig & [] & _)]. assumption.
  - destruct (IH (agg_step st ig)) as (Hnd' & Hlen & Hin).
    { rewrite agg_step_keys. now apply NoDup_keys_dict_set. }
    split; [assumption|]. split.
    + rewrite agg_step_keys in Hlen.
      pose proof (length_keys_dict_set (objectId (snd ig) + 1) (fst ig)
                    (object_id_to_segs_ref st)). lia.
    + intro k. rewrite Hin, agg_step_keys, In_keys_dict_set. split.
      * intros [[->|Hk]|(ig' & Hig & ->)]; eauto.
      * intros [Hk|(ig' & [<-|Hig] & ->)]; eauto.
Qed.

(** What a successful [read_aggregation] says of the keys of the object
    map: they are the object ids of the groups, shifted by one, each once. *)
Lemma read_aggregation_keys (agg : file (list seg_group))
    (o2s : dict Z (list Z)) (l2s : dict string (list Z)) :
  read_aggregation agg = Ok (o2s, l2s) ->
  exists segGroups,
    agg = Some segGroups /\
    NoDup (keys o2s) /\
    (length (keys o2s) <= length segGroups)%nat /\
    forall k, In k (keys o2s) <-> exists g, In g segGroups /\ k = objectId g + 1.
Proof.
  unfold read_aggregation. intro H. bind_inv H.
  destruct agg as [segGroups|]; [|discriminate]. inversion Ha; subst a.
  inversion H; subst o2s l2s. clear H Ha.
  exists segGroups. split; [reflexivity|]. rewrite keys_deref.
  destruct (agg_fold_keys (combine (seq 0 (length segGroups)) segGroups)
              {| heap := map segments segGroups;
                 object_id_to_segs_ref := [];
                 label_to_segs_ref := [] |}) as (Hnd & Hlen & Hin);
    [constructor|].
  split; [assumption|]. split.
  - simpl in Hlen. rewrite length_combine, length_seq in Hlen. lia.
  - intro k. rewrite Hin. simpl. split.
    + intros [[]|([i g] & Hig & ->)]. exists g. split; [|reflexivity].
      now apply in_combine_r in Hig.
    + intros (g & Hg & ->). right.
      destruct (In_nth _ _ g Hg) as (i & Hi & Hnth).
      exists (i, g). split; [|reflexivity].
      assert (Hc : nth i (combine (seq 0 (length segGroups)) segGroups) (O, g)
                   = (nth i (seq 0 (length segGroups)) O, nth i segGroups g)).
      { apply combine_nth. now rewrite length_seq. }
      rewrite Hnth, seq_nth in Hc by assumption. simpl in Hc. rewrite <- Hc.
      apply nth_In. rewrite length_combine, length_seq. lia.
Qed.

Lemma read_segmentation_Ok (seg : file (list Z)) (s2v : dict Z (list nat)) (n : nat) :
  read_segmentation seg = Ok (s2v, n) ->
  exists segIndices, seg = Some segIndices /\ n = length segIndices.
Proof.
  unfold read_segmentation. intro H. bind_inv H.
  destruct seg as [segIndices|]; [|discriminate]. inversion Ha; subst a.
  inversion H. eauto.
Qed.

(** ** The loops of [export] *)

Section Loops.
Context {NUM : Numeric}.

Lemma label_loop_length (label_map : label_mapping) (s2v : dict Z (list nat))
    (l2s : dict string (list Z)) (ids ids' : list Z) :
  for_each (label_body label_map s2v) l2s ids = Ok ids' ->
  length ids' = length ids.
Proof.
  apply (for_each_invariant (fun a => length a = length ids)); [|reflexivity].
  intros s [label segs] s' _ Hs Hbody. unfold label_body in Hbody.
  bind_inv Hbody. rewrite <- Hs.
  revert Hbody. apply (for_each_invariant (fun a => length a = length s));
    [|reflexivity].
  intros s1 seg0 s2 _ Hs1 Hstep. bind_inv Hstep.
  apply put_all_length in Hstep. congruence.
Qed.

(** The instance loop keeps the length of the array, and every entry is
    0 or the (wrapped) object id of a key. *)
Lemma instance_loop_values (s2v : dict Z (list nat)) (lids : list Z)
    (o2s : dict Z (list Z)) (n : nat) (ids : list Z) (o2l : dict Z Z) :
  for_each (instance_body s2v lids) o2s (repeat 0 n, []) = Ok (ids, o2l) ->
  length ids = n /\
  Forall (fun v => v = 0 \/ exists k, In k (keys o2s) /\ v = wrap32 k) ids.
Proof.
  intro H.
  set (P := fun st : list Z * dict Z Z =>
              length (fst st) = n /\
              Forall (fun v => v = 0 \/ exists k, In k (keys o2s) /\ v = wrap32 k)
                     (fst st)).
  change (P (ids, o2l)).
  revert H. apply (for_each_invariant P).
  - intros st [object_id segs] st' Hin HP Hbody. unfold instance_body in Hbody.
    assert (Hkey : In object_id (keys o2s)).
    { change object_id with (fst (object_id, segs)). now apply in_map. }
    revert HP Hbody. apply (for_each_invariant P).
    intros [ids1 o2l1] seg0 st2 _ [Hlen Hall] Hstep. simpl in Hlen, Hall.
    bind_inv Hstep. bind_inv Hstep.
    assert (HP2 : P (a0, o2l1)).
    { split; simpl.
      - apply put_all_length in Ha0. congruence.
      - eapply put_all_Forall; [| exact Hall | exact Ha0]. right. eauto. }
    destruct (dict_mem object_id o2l1).
    + now inversion Hstep; subst.
    + bind_inv Hstep. bind_inv Hstep. now inversion Hstep; subst.
  - split; simpl; [apply repeat_length|].
    apply Forall_forall. intros v Hv. apply repeat_spec in Hv. now left.
Qed.
End Loops.

Section Boxes.
Context {NUM : Numeric}.

(** One turn of the box loop: the instance array is as long as the vertex
    array, and either no vertex carries the id and the boxes are left
    alone, or the box of its vertices is written at row [obj_id - 1]. *)
Lemma bbox_body_Ok (mesh : matrix) (ids : list Z) (o2l : dict Z Z)
    (boxes boxes' : list bbox) (k : Z) :
  bbox_body mesh ids o2l boxes k = Ok boxes' ->
  length ids = length mesh /\
  length boxes' = length boxes /\
  ((forall i, nth_error ids i <> Some k) /\ boxes' = boxes \/
   exists p rest lbl,
     dict_get k o2l = Some lbl /\
     compress (map (fun v => v =? k) ids) mesh = p :: rest /\
     set_row (k - 1) (box_of p rest lbl) boxes = Ok boxes').
Proof.
  unfold bbox_body. intro H. bind_inv H. bind_inv H.
  apply select_Ok in Ha0. destruct Ha0 as [Hlen ->].
  rewrite length_map in Hlen. split; [assumption|].
  destruct (compress (map (fun v => v =? k) ids) mesh) as [|p rest] eqn:E.
  - inversion H; subst boxes'. split; [reflexivity|]. left.
    split; [|reflexivity]. intros i Hi.
    destruct (nth_error mesh i) as [row|] eqn:Er.
    + assert (Hin : In row (compress (map (fun v => v =? k) ids) mesh)).
      { apply compress_In with (i := i); [|assumption].
        rewrite nth_error_map, Hi. simpl. now rewrite Z.eqb_refl. }
      rewrite E in Hin. contradiction.
    + apply nth_error_None in Er.
      assert (nth_error ids i <> None) by congruence.
      apply nth_error_Some in H0. lia.
  - split; [now apply set_row_Ok in H|]. right.
    exists p, rest, a. split; [|split; [reflexivity|assumption]].
    destruct (dict_get k o2l); [now inversion Ha | discriminate].
Qed.

Lemma bbox_loop_length (mesh : matrix) (ids : list Z) (o2l : dict Z Z)
    (ks : list Z) (boxes boxes' : list bbox) :
  for_each (bbox_body mesh ids o2l) ks boxes = Ok boxes' ->
  length boxes' = length boxes.
Proof.
  apply (for_each_invariant (fun b => length b = length boxes)); [|reflexivity].
  intros s k s' _ Hs Hbody. apply bbox_body_Ok in Hbody. lia.
Qed.

(** Every key of a box loop that ran to its end had its turn, on an array
    of the original length. *)
Lemma bbox_loop_turn (mesh : matrix) (ids : list Z) (o2l : dict Z Z)
    (ks : list Z) (boxes boxes' : list bbox) (k : Z) :
  for_each (bbox_body mesh ids o2l) ks boxes = Ok boxes' -> In k ks ->
  exists b1 b2,
    length b1 = length boxes /\ bbox_body mesh ids o2l b1 k = Ok b2.
Proof.
  intros Hrun Hin.
  apply (for_each_turn (fun b => length b = length boxes)
           (bbox_body mesh ids o2l) ks) with (s := boxes) (s' := boxes');
    auto.
  intros s x s' _ Hs Hbody. apply bbox_body_Ok in Hbody. lia.
Qed.
End Boxes.

(** ** Instance ids *)

Section InstanceIds.
Context {NUM : Numeric}.

(** C6.  When the object ids of the aggregation file are 0-indexed and
    fit the uint32 instance array, every value of the instance-id array
    [export] returns is 0 or lies in 1..K, K being the number of object
    groups: an id that reaches a vertex has its box written at row
    [id - 1] of an array of at most K rows, which numpy bounds-checks. *)
Theorem C6_instance_ids_range (mesh : file point_cloud)
    (segGroups : list seg_group) (seg : file (list Z))
    (meta : file (list string)) (lm : file csv_records) (sc : scene) :
  export mesh (Some segGroups) seg meta lm = Ok sc ->
  Forall (fun g => 0 <= objectId g < 2 ^ 32 - 1) segGroups ->
  Forall (fun v => v = 0 \/ 1 <= v <= Z.of_nat (length segGroups))
         (instance_ids sc).
Proof.
  intros H Hids. apply export_steps in H.
  destruct H as (V & label_map & M & o2s & l2s & s2v & n
                 & _ & _ & _ & Hagg & _ & _ & Hinst & Hbox & _).
  apply read_aggregation_keys in Hagg.
  destruct Hagg as (groups & Heq & Hnd & Hlen & Hkeys).
  inversion Heq; subst groups. clear Heq.
  apply instance_loop_values in Hinst. destruct Hinst as [_ Hvals].
  rewrite (nodup_fixed_point Z.eq_dec Hnd) in Hbox.
  rewrite Forall_forall in Hvals, Hids. apply Forall_forall. intros v Hv.
  destruct (Hvals v Hv) as [->|(k & Hk & ->)]; [now left|]. right.
  destruct (proj1 (Hkeys k) Hk) as (g & Hg & ->).
  pose proof (Hids g Hg) as Hrange.
  assert (Hw : wrap32 (objectId g + 1) = objectId g + 1).
  { unfold wrap32. apply Z.mod_small. lia. }
  rewrite Hw in *.
  destruct (bbox_loop_turn _ _ _ _ _ (objectId g + 1) Hbox Hk)
    as (b1 & b2 & Hb1 & Hturn).
  rewrite repeat_length in Hb1.
  apply bbox_body_Ok in Hturn.
  destruct Hturn as (_ & _ & [[Hnone _]|(p & rest & lbl & _ & _ & Hset)]).
  - exfalso. apply In_nth_error in Hv. destruct Hv as (i & Hi).
    now apply (Hnone i).
  - apply set_row_Ok in Hset. destruct Hset as (Hidx & _). lia.
Qed.
End InstanceIds.

(** ** Scenes, before and after [process_scene] *)

Section Scenes.
Context {NUM : Numeric} {RND : Random}.

Variables (self : ScannetProcess) (scan : string) (files : scan_files).

(** [export] on the files of the scan. *)
Local Notation "'exported'" :=
  (export (mesh_file files) (agg_file files) (seg_file files)
          (meta_file files) (label_map_file files)).

Lemma process_scene_not_cached (d : disk) (g : rng) :
  isfile d (out_file self scan "_vert.npy") = false ->
  process_scene self scan files d g
  = match filter_scene self files with
    | Raise e => (Raise e, d, g)
    | Ok (V, sem, ins, B) =>
        match subsample self (V, sem, ins) g with
        | (Raise e, _, g') => (Raise e, d, g')
        | (Ok (V', sem', ins'), _, g') =>
            (Ok tt,
             np_save (out_file self scan "_bbox.npy") (Boxes B)
               (np_save (out_file self scan "_ins_label.npy") (Labels ins')
                  (np_save (out_file self scan "_sem_label.npy") (Labels sem')
                     (np_save (out_file self scan "_vert.npy") (Vertices V') d))),
             g')
        end
    end.
Proof.
  intro Hmiss. unfold process_scene. rewrite Hmiss. simpl.
  destruct (filter_scene self files) as [[[[V sem] ins] B]|e]; [|reflexivity].
  destruct (subsample self (V, sem, ins) g) as [[[[[V' sem'] ins']|e] ch] g'];
    reflexivity.
Qed.

Lemma saved_arrays (d : disk) (V : matrix) (sem ins : list Z) (B : list bbox) :
  let d' := np_save (out_file self scan "_bbox.npy") (Boxes B)
              (np_save (out_file self scan "_ins_label.npy") (Labels ins)
                 (np_save (out_file self scan "_sem_label.npy") (Labels sem)
                    (np_save (out_file self scan "_vert.npy") (Vertices V) d))) in
  dict_get (out_file self scan "_vert.npy") d' = Some (Vertices V) /\
  dict_get (out_file self scan "_sem_label.npy") d' = Some (Labels sem) /\
  dict_get (out_file self scan "_ins_label.npy") d' = Some (Labels ins).
Proof.
  unfold np_save. cbv zeta.
  repeat split;
    repeat first
      [ apply dict_get_set_same
      | rewrite dict_get_set_other by (apply out_file_inj; discriminate) ].
Qed.

(** C1, as the code has it.  The semantic and the instance array [export]
    returns have one entry per entry of [segIndices], and its vertex array
    one row per vertex of the mesh; [export] compares the two counts only
    when the aggregation has an object group, and then the three arrays
    are equally long.  Whenever [process_scene] runs to its end, the three
    arrays were equally long as [export] returned them and the three
    arrays it saves, after filtering and subsampling, are equally long. *)
Theorem C1_lengths (d : disk) (g : rng) (sc : scene) :
  exported = Ok sc ->
  (exists data segIndices,
     mesh_file files = Some data /\ seg_file files = Some segIndices /\
     length (label_ids sc) = length segIndices /\
     length (instance_ids sc) = length segIndices /\
     length (mesh_vertices sc) = length (points data)) /\
  ((exists g0 groups, agg_file files = Some (g0 :: groups)) -> row_aligned sc) /\
  (forall d' g',
     isfile d (out_file self scan "_vert.npy") = false ->
     process_scene self scan files d g = (Ok tt, d', g') ->
     row_aligned sc /\
     exists V sem ins,
       dict_get (out_file self scan "_vert.npy") d' = Some (Vertices V) /\
       dict_get (out_file self scan "_sem_label.npy") d' = Some (Labels sem) /\
       dict_get (out_file self scan "_ins_label.npy") d' = Some (Labels ins) /\
       length sem = length ins /\ length ins = length V).
Proof.
  intro Hexp. pose proof Hexp as H. apply export_steps in H.
  destruct H as (V0 & label_map & M & o2s & l2s & s2v & n
                 & HV & _ & HM & Hagg & Hseg & Hlab & Hinst & Hbox & Hmesh).
  apply read_segmentation_Ok in Hseg. destruct Hseg as (segIndices & Hsf & ->).
  apply label_loop_length in Hlab. rewrite repeat_length in Hlab.
  apply instance_loop_values in Hinst. destruct Hinst as [Hinst _].
  pose proof (read_axis_align_matrix_shape _ HM) as H44.
  apply read_mesh_vertices_rgb_columns in HV.
  destruct HV as (_ & data & Hmf & HlenV).
  assert (Hlm : length (mesh_vertices sc) = length (points data)).
  { rewrite Hmesh, (apply_alignment_rows V0 H44), length_map. exact HlenV. }
  split; [|split].
  - exists data, segIndices. auto.
  - intros (g0 & groups & Hgroups).
    apply read_aggregation_keys in Hagg.
    destruct Hagg as (groups' & Heq & _ & _ & Hkeys).
    rewrite Hgroups in Heq. inversion Heq; subst groups'.
    assert (Hk : In (objectId g0 + 1) (keys o2s)).
    { apply Hkeys. exists g0. split; [now left | reflexivity]. }
    destruct (bbox_loop_turn _ _ _ _ _ _ Hbox Hk) as (b1 & b2 & _ & Hturn).
    apply bbox_body_Ok in Hturn. destruct Hturn as (Hlen & _).
    rewrite <- Hmesh in Hlen. split; congruence.
  - intros d' g' Hmiss Hrun.
    rewrite (process_scene_not_cached d g Hmiss) in Hrun.
    destruct (filter_scene self files) as [[[[V sem] ins] B]|e] eqn:Hf;
      [|discriminate].
    unfold filter_scene in Hf. rewrite Hexp in Hf. simpl in Hf.
    bind_inv Hf. bind_inv Hf. bind_inv Hf. bind_inv Hf.
    inversion Hf; subst a a0 a1 a2. clear Hf.
    apply select_Ok in Ha, Ha0, Ha1.
    destruct Ha as [Hl1 ->], Ha0 as [Hl2 ->], Ha1 as [Hl3 ->].
    unfold in1d in Hl1, Hl2, Hl3. rewrite !length_map in Hl1, Hl2, Hl3.
    split; [split; congruence|].
    set (mask := map negb (in1d (label_ids sc) (DONOTCARE_IDS self))) in *.
    assert (HSI : length (compress mask (label_ids sc))
                  = length (compress mask (instance_ids sc)))
      by (apply compress_length; congruence).
    assert (HIV : length (compress mask (instance_ids sc))
                  = length (compress mask (mesh_vertices sc)))
      by (apply compress_length; congruence).
    unfold subsample in Hrun.
    destruct (max_num_point self <? length (compress mask (mesh_vertices sc)))%nat.
    + destruct (choice (length (compress mask (mesh_vertices sc)))
                  (max_num_point self) g) as [choices g1].
      destruct (take choices (compress mask (mesh_vertices sc))) as [V'|e] eqn:EV;
        [|discriminate].
      destruct (take choices (compress mask (label_ids sc))) as [S'|e] eqn:ES;
        [|discriminate].
      destruct (take choices (compress mask (instance_ids sc))) as [I'|e] eqn:EI;
        [|discriminate].
      simpl in Hrun. inversion Hrun; subst d' g'. clear Hrun.
      exists V', S', I'.
      destruct (saved_arrays d V' S' I' B) as (H1 & H2 & H3).
      apply take_length in EV, ES, EI.
      repeat split; auto; congruence.
    + inversion Hrun; subst d' g'. clear Hrun.
      exists (compress mask (mesh_vertices sc)), (compress mask (label_ids sc)),
             (compress mask (instance_ids sc)).
      destruct (saved_arrays d (compress mask (mesh_vertices sc))
                  (compress mask (label_ids sc))
                  (compress mask (instance_ids sc)) B) as (H1 & H2 & H3).
      repeat split; auto.
Qed.

(** C3.  When no line of the metadata file contains the key
    [axisAlignment], the export of the scene fails, with the
    UnboundLocalError of the name that was never bound once the mesh and
    the label map have been read (the error the specification files under
    FormatError), and [process_scene] leaves the output directory as it
    was: no file of the scene is written. *)
Theorem C3_missing_alignment (lines : list string) (d : disk) (g : rng) :
  meta_file files = Some lines ->
  (forall line, In line lines -> PyStr.contains "axisAlignment" line = false) ->
  (exists e, exported = Raise e) /\
  (forall V label_map,
     read_mesh_vertices_rgb (mesh_file files) = Ok V ->
     read_label_mapping (label_map_file files) "raw_category" "nyu40id"
     = Ok label_map ->
     exported = Raise UnboundLocalError) /\
  (exists r, process_scene self scan files d g = (r, d, g)) /\
  (isfile d (out_file self scan "_vert.npy") = false ->
   exists e, process_scene self scan files d g = (Raise e, d, g)).
Proof.
  intros Hmeta Hno.
  destruct (export_without_alignment (mesh_file files) (agg_file files)
              (seg_file files) (label_map_file files) Hmeta Hno)
    as [[e He] Hunbound].
  split; [now exists e|]. split; [exact Hunbound|].
  assert (Hfilter : filter_scene self files = Raise e).
  { unfold filter_scene. now rewrite He. }
  split.
  - unfold process_scene.
    destruct (isfile d (out_file self scan "_vert.npy") && _ && _ && _);
      [eauto|]. rewrite Hfilter. eauto.
  - intro Hmiss. rewrite (process_scene_not_cached d g Hmiss), Hfilter. eauto.
Qed.
End Scenes.

(** ** Bounding boxes in exact arithmetic *)

Lemma reduce_Qmin_le_init (l : list Q) (x : Q) : (reduce Qmin x l <= x)%Q.
Proof.
  revert x. unfold reduce. induction l as [|a l IH]; intro x; simpl.
  - apply Qle_refl.
  - eapply Qle_trans; [apply IH|]. apply Q.le_min_l.
Qed.

Lemma reduce_Qmin_le (l : list Q) (x y : Q) :
  y = x \/ In y l -> (reduce Qmin x l <= y)%Q.
Proof.
  revert x. induction l as [|a l IH]; intros x [->|Hin].
  - apply Qle_refl.
  - contradiction.
  - apply reduce_Qmin_le_init.
  - unfold reduce in *. simpl. destruct Hin as [->|Hin].
    + eapply Qle_trans; [apply reduce_Qmin_le_init|]. apply Q.le_min_r.
    + apply IH. now right.
Qed.

Lemma reduce_Qmax_ge_init (l : list Q) (x : Q) : (x <= reduce Qmax x l)%Q.
Proof.
  revert x. unfold reduce. induction l as [|a l IH]; intro x; simpl.
  - apply Qle_refl.
  - eapply Qle_trans; [|apply IH]. apply Q.le_max_l.
Qed.

Lemma reduce_Qmax_ge (l : list Q) (x y : Q) :
  y = x \/ In y l -> (y <= reduce Qmax x l)%Q.
Proof.
  revert x. induction l as [|a l IH]; intros x [->|Hin].
  - apply Qle_refl.
  - contradiction.
  - apply reduce_Qmax_ge_init.
  - unfold reduce in *. simpl. destruct Hin as [->|Hin].
    + eapply Qle_trans; [|apply reduce_Qmax_ge_init]. apply Q.le_max_r.
    + apply IH. now right.
Qed.

Lemma centre_extent_interval (mn mx x : Q) :
  (mn <= x -> x <= mx ->
   (mn + mx) / 2 - (mx - mn) / 2 <= x /\
   x <= (mn + mx) / 2 + (mx - mn) / 2 /\
   0 <= mx - mn)%Q.
Proof.
  intros H1 H2.
  assert (E1 : ((mn + mx) / 2 - (mx - mn) / 2 == mn)%Q) by field.
  assert (E2 : ((mn + mx) / 2 + (mx - mn) / 2 == mx)%Q) by field.
  rewrite E1, E2. repeat split; try assumption. lra.
Qed.

(** The box of a point set holds each of its points. *)
Lemma box_of_within (p : list Q) (rest : list (list Q)) (lbl : Z) (row : list Q) :
  In row (p :: rest) ->
  @within Exact.numeric (fun x => x) (@box_of Exact.numeric p rest lbl) row /\
  @extent_nonneg Exact.numeric (fun x => x) (@box_of Exact.numeric p rest lbl).
Proof.
  intro Hin.
  assert (Hax : forall j,
            (reduce Qmin (@coord Exact.numeric j p)
                    (map (@coord Exact.numeric j) rest)
             <= @coord Exact.numeric j row)%Q /\
            (@coord Exact.numeric j row
             <= reduce Qmax (@coord Exact.numeric j p)
                       (map (@coord Exact.numeric j) rest))%Q).
  { intro j. split; [apply reduce_Qmin_le | apply reduce_Qmax_ge];
      (destruct Hin as [->|Hin]; [now left | right; now apply in_map]). }
  destruct (Hax 0%nat) as [Hx1 Hx2], (Hax 1%nat) as [Hy1 Hy2],
           (Hax 2%nat) as [Hz1 Hz2].
  destruct (centre_extent_interval Hx1 Hx2) as (X1 & X2 & X3).
  destruct (centre_extent_interval Hy1 Hy2) as (Y1 & Y2 & Y3).
  destruct (centre_extent_interval Hz1 Hz2) as (Z1 & Z2 & Z3).
  unfold within, extent_nonneg, box_of. simpl. tauto.
Qed.

(** ** The box of an object and its vertices *)

Section MemberBoxes.
Context {NUM : Numeric}.

(** A box written at a row stays there while the loop takes the turns of
    other, positive ids. *)
Lemma bbox_loop_keeps_row (mesh : matrix) (ids : list Z) (o2l : dict Z Z)
    (ks : list Z) (k : Z) (b : bbox) :
  1 <= k -> ~ In k ks -> Forall (fun k' => 1 <= k') ks ->
  forall boxes boxes',
    nth_error boxes (Z.to_nat (k - 1)) = Some b ->
    for_each (bbox_body mesh ids o2l) ks boxes = Ok boxes' ->
    nth_error boxes' (Z.to_nat (k - 1)) = Some b.
Proof.
  intros Hk Hnot Hpos boxes boxes' Hb.
  apply (for_each_invariant
           (fun bs => nth_error bs (Z.to_nat (k - 1)) = Some b)); [|assumption].
  intros s k' s' Hin Hs Hbody.
  rewrite Forall_forall in Hpos. pose proof (Hpos k' Hin) as Hk'.
  apply bbox_body_Ok in Hbody.
  destruct Hbody as (_ & _ & [[_ ->]|(p & rest & lbl & _ & _ & Hset)]);
    [assumption|].
  apply set_row_Ok in Hset. destruct Hset as (_ & _ & Hnth).
  rewrite Hnth by lia.
  destruct (Nat.eqb_spec (Z.to_nat (k - 1)) (Z.to_nat (k' - 1))) as [E|_];
    [|assumption].
  exfalso. apply Hnot. replace k with k' by lia. assumption.
Qed.

(** When the object ids of the file are 0-indexed, the row [objectId] of
    the box array holds the box of the vertices that carry the id of the
    group, whenever there is such a vertex. *)
Lemma export_member_box (mesh : file point_cloud)
    (segGroups : list seg_group) (seg : file (list Z))
    (meta : file (list string)) (lm : file csv_records) (sc : scene)
    (g : seg_group) (i : nat) (row : list num) :
  export mesh (Some segGroups) seg meta lm = Ok sc ->
  Forall (fun g => 0 <= objectId g) segGroups ->
  In g segGroups ->
  nth_error (instance_ids sc) i = Some (objectId g + 1) ->
  nth_error (mesh_vertices sc) i = Some row ->
  exists p rest lbl,
    compress (map (fun v => v =? objectId g + 1) (instance_ids sc))
             (mesh_vertices sc) = p :: rest /\
    In row (p :: rest) /\
    nth_error (instance_bboxes sc) (Z.to_nat (objectId g))
    = Some (box_of p rest lbl).
Proof.
  intros H Hids Hg Hi Hrow. apply export_steps in H.
  destruct H as (V & label_map & M & o2s & l2s & s2v & n
                 & _ & _ & _ & Hagg & _ & _ & _ & Hbox & Hmesh).
  apply read_aggregation_keys in Hagg.
  destruct Hagg as (groups & Heq & Hnd & _ & Hkeys).
  inversion Heq; subst groups. clear Heq.
  rewrite <- Hmesh in Hbox.
  set (k := objectId g + 1) in *.
  assert (Hk : In k (keys o2s)) by (apply Hkeys; eauto).
  assert (Hpos : Forall (fun k' => 1 <= k') (keys o2s)).
  { apply Forall_forall. intros k' Hk'. apply Hkeys in Hk'.
    destruct Hk' as (g' & Hg' & ->). rewrite Forall_forall in Hids.
    specialize (Hids g' Hg'). lia. }
  assert (Hk1 : 1 <= k) by (rewrite Forall_forall in Hpos; auto).
  destruct (in_split _ _ Hk) as (l1 & l2 & Hsplit).
  rewrite Hsplit in Hbox, Hnd, Hpos.
  rewrite for_each_app in Hbox. bind_inv Hbox. simpl in Hbox. bind_inv Hbox.
  apply NoDup_remove_2 in Hnd.
  apply Forall_app in Hpos. destruct Hpos as [_ Hpos].
  inversion Hpos as [|? ? _ Hpos2]; subst.
  apply bbox_body_Ok in Ha0.
  destruct Ha0 as (Hlen & _ & [[Hnone _]|(p & rest & lbl & _ & Hpc & Hset)]);
    [now elim (Hnone i)|].
  apply set_row_Ok in Hset. destruct Hset as (_ & _ & Hnth).
  specialize (Hnth (Z.to_nat (k - 1))). rewrite Nat.eqb_refl in Hnth.
  exists p, rest, lbl. split; [assumption|]. split.
  - rewrite <- Hpc. apply compress_In with (i := i); [|assumption].
    rewrite nth_error_map, Hi. simpl. unfold k. now rewrite Z.eqb_refl.
  - replace (Z.to_nat (objectId g)) with (Z.to_nat (k - 1)) by (unfold k; lia).
    apply (@bbox_loop_keeps_row (mesh_vertices sc) (instance_ids sc)
             (object_id_to_label_id sc) l2 k (box_of p rest lbl) Hk1)
      with (boxes := a0); auto.
    + intro Hin. apply Hnd. apply in_or_app. now right.
    + apply Hnth. lia.
Qed.
End MemberBoxes.

(** In exact arithmetic the box holds its vertices: every vertex that
    carries the instance id of a group lies, on each axis, within half the
    extent of the centre of the box of that group, and the extents are not
    negative. *)
Lemma exact_box_holds_members (mesh : file (@point_cloud Exact.numeric))
    (segGroups : list seg_group) (seg : file (list Z))
    (meta : file (list string)) (lm : file csv_records)
    (sc : @scene Exact.numeric) (g : seg_group) (i : nat) (row : list Q) :
  export mesh (Some segGroups) seg meta lm = Ok sc ->
  Forall (fun g => 0 <= objectId g) segGroups ->
  In g segGroups ->
  nth_error (instance_ids sc) i = Some (objectId g + 1) ->
  nth_error (mesh_vertices sc) i = Some row ->
  exists b,
    nth_error (instance_bboxes sc) (Z.to_nat (objectId g)) = Some b /\
    @within Exact.numeric (fun x => x) b row /\
    @extent_nonneg Exact.numeric (fun x => x) b.
Proof.
  intros H Hids Hg Hi Hrow.
  destruct (@export_member_box _ mesh segGroups seg meta lm sc g i row
              H Hids Hg Hi Hrow)
    as (p & rest & lbl & _ & Hin & Hb).
  exists (box_of p rest lbl). split; [assumption|].
  exact (box_of_within lbl Hin).
Qed.

(** ** The order of the floats *)











(** ** Subtraction of a smaller float *)










(** ** Bounding boxes in float32 *)


Section FloatBoxes.
Local Existing Instance IEEE.numeric.

End FloatBoxes.

(** ** The theorems at work on concrete scenes *)

Section Runs.
Import Scenario.

Local Notation "'export_of' f" :=
  (export (mesh_file f) (agg_file f) (seg_file f) (meta_file f)
          (label_map_file f)) (at level 10, f at level 9).

(** The scenario of the specification: segments [0,0,1,1,1], one chair of
    class 5 on segment 1.  The instance ids are [0,0,1,1,1], the semantic
    labels [0,0,5,5,5], and the one box covers vertices 2 to 4. *)
Example chair_scene_exported :
  exists sc,
    export_of files = Ok sc /\
    instance_ids sc = [0; 0; 1; 1; 1] /\
    label_ids sc = [0; 0; 5; 5; 5] /\
    map cls (instance_bboxes sc) = [5] /\
    map dx (instance_bboxes sc) = [2%Q] /\
    object_id_to_label_id sc = [(1, 5)].
Proof. eexists. repeat split; reflexivity. Qed.

(** The chair scene comes out of [export] with its three per-vertex
    arrays equally long. *)
Lemma C1_lengths_witness :
  exists sc, export_of files = Ok sc /\ row_aligned sc.
Proof.
  eexists. split; [reflexivity|].
  refine (proj1 (proj2 (@C1_lengths Exact.numeric Sampler.lcg converter
                          "scene0000_00" files [] 42 _ eq_refl)) _).
  exists chair, []. reflexivity.
Defined.

(** C1 as stated fails: with no object group in the aggregation file,
    [export] returns, for a mesh of two vertices and a segmentation of
    one, a vertex array of two rows and label arrays of one entry. *)
Lemma C1_counterexample :
  exists sc, export_of unannotated = Ok sc /\ ~ row_aligned sc.
Proof.
  eexists. split; [reflexivity|].
  unfold row_aligned. simpl. intros [_ H]. discriminate.
Qed.

(** The chair scene without its alignment line: [export] raises
    UnboundLocalError and nothing is written. *)
Lemma C3_missing_alignment_witness :
  meta_file files_without_alignment = Some metadata_without_alignment /\
  (forall line, In line metadata_without_alignment ->
     PyStr.contains "axisAlignment" line = false) /\
  export_of files_without_alignment = Raise UnboundLocalError /\
  exists e,
    @process_scene Exact.numeric Sampler.lcg converter "scene0000_00"
      files_without_alignment [] 42 = (Raise e, [], 42).
Proof.
  assert (Hno : forall line, In line metadata_without_alignment ->
                  PyStr.contains "axisAlignment" line = false).
  { intros line [<-|[<-|[]]]; reflexivity. }
  destruct (@C3_missing_alignment Exact.numeric Sampler.lcg converter
              "scene0000_00" files_without_alignment
              metadata_without_alignment [] 42 eq_refl Hno)
    as (_ & Hexp & _ & Hrun).
  split; [reflexivity|]. split; [exact Hno|]. split.
  - eapply Hexp; reflexivity.
  - apply Hrun. reflexivity.
Defined.



(** The instance ids of the chair scene are 0 and 1. *)
Lemma C6_instance_ids_range_witness :
  exists sc,
    export_of files = Ok sc /\
    Forall (fun g => 0 <= objectId g < 2 ^ 32 - 1) [chair] /\
    Forall (fun v => v = 0 \/ 1 <= v <= 1) (instance_ids sc).
Proof.
  assert (Hids : Forall (fun g => 0 <= objectId g < 2 ^ 32 - 1) [chair]).
  { repeat constructor; simpl; lia. }
  eexists. split; [reflexivity|]. split; [exact Hids|].
  exact (@C6_instance_ids_range Exact.numeric (Some mesh) [chair]
           (Some segIndices) (Some metadata) (Some label_table) _ eq_refl Hids).
Defined.

(** C6 as stated fails for object ids the aggregation file can hold: a
    group with objectId -2 is stored under the key -1, which the uint32
    instance array takes as 4294967295; no vertex then compares equal to
    -1, the box loop skips the object and [export] returns.  K is 1. *)
Lemma C6_counterexample :
  let stray := {| objectId := -2; label := "chair"; segments := [0] |} in
  exists sc,
    export (mesh_file neighbours) (Some [stray]) (seg_file neighbours)
           (meta_file neighbours) (label_map_file neighbours) = Ok sc /\
    instance_ids sc = [4294967295; 4294967295] /\
    ~ Forall (fun v => v = 0 \/ 1 <= v <= Z.of_nat (length [stray]))
             (instance_ids sc).
Proof.
  intro stray. eexists. split; [reflexivity|]. split; [reflexivity|].
  intro H. apply Forall_forall with (x := 4294967295) in H.
  - simpl in H. lia.
  - simpl. tauto.
Qed.

(** Five vertices subsampled to three with the sampler of the file. *)
Lemma C7_subsampling_witness :
  let V := [[0]; [1]; [2]; [3]; [4]]%Q in
  let sem := [0; 0; 5; 5; 5] in
  let ins := [0; 0; 1; 1; 1] in
  without_replacement Sampler.lcg /\
  length sem = length V /\ length ins = length V /\
  exists V' sem' ins' choices g',
    @subsample Exact.numeric Sampler.lcg converter (V, sem, ins) 42
    = (Ok (V', sem', ins'), choices, g') /\
    length V' = 3%nat /\ NoDup choices.
Proof.
  intros V sem ins.
  split; [exact lcg_without_replacement|].
  split; [reflexivity|]. split; [reflexivity|].
  destruct (@C7_subsampling Exact.numeric Sampler.lcg converter V sem ins 42
              lcg_without_replacement eq_refl eq_refl)
    as (V' & sem' & ins' & choices & g' & Hrun & _ & Hnd & _ & Hsel).
  exists V', sem', ins', choices, g'. split; [exact Hrun|].
  split; [|exact Hnd]. apply Hsel. simpl. lia.
Defined.

(** The alignment of the chair scene moves the positions and keeps the
    colours. *)
Lemma C9_alignment_frame_witness :
  exists sc V M,
    export_of files = Ok sc /\
    read_mesh_vertices_rgb (mesh_file files) = Ok V /\
    read_axis_align_matrix (meta_file files) = Ok M /\
    Forall2 (fun row row' =>
               let h := firstn 3 row ++ [n_one] in
               firstn 3 row'
               = map as_f32 (firstn 3 (hd [] (dot [h] (transpose M)))) /\
               firstn 3 row'
               = [as_f32 (inner h (nth 0 M [])); as_f32 (inner h (nth 1 M []));
                  as_f32 (inner h (nth 2 M []))] /\
               skipn 3 row' = skipn 3 row /\
               length row' = length row)
            V (mesh_vertices sc).
Proof.
  destruct (@C9_alignment_frame Exact.numeric (Some mesh) (Some [chair])
              (Some segIndices) (Some metadata) (Some label_table) _ eq_refl)
    as (V & M & HV & HM & Hrows).
  eexists. exists V, M. split; [reflexivity|]. auto.
Defined.
End Runs.

(* ===================================================================== *)
(** * Part III: further properties of the program *)
(* ===================================================================== *)

(** ** [read_aggregation], with its shared lists *)

Lemma extend_length (r : nat) (other : list Z) (h : list (list Z)) :
  length (extend r other h) = length h.
Proof.
  unfold extend. destruct (nth_error h r) as [l|] eqn:E; [|reflexivity].
  assert (Hr : (r < length h)%nat) by (apply nth_error_Some; congruence).
  rewrite length_app, length_firstn. cbn [Datatypes.length].
  rewrite length_skipn. lia.
Qed.

Lemma extend_nth (r j : nat) (other : list Z) (h : list (list Z)) :
  (r < length h)%nat ->
  nth j (extend r other h) []
  = if Nat.eqb j r then nth r h [] ++ other else nth j h [].
Proof.
  intro Hr. unfold extend.
  destruct (nth_error h r) as [l|] eqn:E;
    [|apply nth_error_None in E; lia].
  assert (Hl : nth r h [] = l) by (now apply nth_error_nth).
  assert (Hf : length (firstn r h) = r) by (rewrite length_firstn; lia).
  destruct (Nat.eqb_spec j r) as [->|Hne].
  - rewrite app_nth2 by lia. rewrite Hf, Nat.sub_diag. simpl. now rewrite Hl.
  - destruct (Nat.lt_ge_cases j r) as [Hlt|Hge].
    + rewrite app_nth1 by lia.
      rewrite <- (firstn_skipn r h) at 2. now rewrite app_nth1 by lia.
    + rewrite app_nth2 by lia. rewrite Hf.
      destruct (j - r)%nat as [|m] eqn:Em; [lia|]. simpl.
      rewrite <- (firstn_skipn (S r) h) at 2.
      rewrite app_nth2 by (rewrite length_firstn; lia).
      rewrite length_firstn. f_equal. lia.
Qed.

Lemma firstn_succ {A : Type} (l : list A) (k : nat) (x : A) :
  nth_error l k = Some x -> firstn (S k) l = firstn k l ++ [x].
Proof.
  revert k. induction l as [|a l IH]; intros [|k] H; simpl in *; try discriminate.
  - now inversion H.
  - f_equal. auto.
Qed.

Lemma In_firstn {A : Type} (l : list A) (k : nat) (x : A) :
  In x (firstn k l) -> exists j, (j < k)%nat /\ nth_error l j = Some x.
Proof.
  revert k. induction l as [|a l IH]; intros [|k] H; simpl in *; try contradiction.
  destruct H as [->|H].
  - exists O. split; [lia | reflexivity].
  - destruct (IH _ H) as (j & Hj & Hn). exists (S j). split; [lia | assumption].
Qed.

Lemma label_segments_app (l1 l2 : list seg_group) (l : string) :
  label_segments (l1 ++ l2) l = label_segments l1 l ++ label_segments l2 l.
Proof. unfold label_segments. now rewrite filter_app, map_app, concat_app. Qed.

Lemma label_segments_one (g : seg_group) (l : string) :
  label_segments [g] l = if String.eqb (label g) l then segments g else [].
Proof.
  unfold label_segments. simpl. destruct (String.eqb (label g) l); simpl;
    [apply app_nil_r | reflexivity].
Qed.

Lemma label_segments_none (groups : list seg_group) (l : string) :
  (forall g, In g groups -> label g <> l) -> label_segments groups l = [].
Proof.
  intro H. unfold label_segments.
  induction groups as [|g groups IH]; simpl; [reflexivity|].
  destruct (String.eqb_spec (label g) l) as [E|_].
  - exfalso. apply (H g); [now left | assumption].
  - apply IH. intros g' Hg'. apply H. now right.
Qed.

Lemma agg_step_heap (st : agg_state) (k : nat) (g : seg_group) :
  heap (agg_step st (k, g))
  = match dict_get (label g) (label_to_segs_ref st) with
    | Some r => extend r (nth k (heap st) []) (heap st)
    | None => heap st
    end.
Proof. unfold agg_step. now destruct (dict_get (label g) _). Qed.

Lemma agg_step_labels (st : agg_state) (k : nat) (g : seg_group) :
  label_to_segs_ref (agg_step st (k, g))
  = match dict_get (label g) (label_to_segs_ref st) with
    | Some r => label_to_segs_ref st
    | None => dict_set (label g) k (label_to_segs_ref st)
    end.
Proof. unfold agg_step. now destruct (dict_get (label g) _). Qed.

Lemma aggregated_step (G : list seg_group) (k : nat) (st : agg_state)
    (g : seg_group) :
  aggregated G k st -> nth_error G k = Some g ->
  aggregated G (S k) (agg_step st (k, g)).
Proof.
  intros (H1 & H2 & H3 & H4 & H5 & H6 & H7) Hg.
  assert (Hk : (k < length G)%nat) by (apply nth_error_Some; congruence).
  assert (Hls : forall l, label_segments (firstn (S k) G) l
                          = label_segments (firstn k G) l
                            ++ (if String.eqb (label g) l then segments g else [])).
  { intro l. rewrite (firstn_succ _ _ Hg), label_segments_app.
    now rewrite label_segments_one. }
  assert (Hheapk : nth k (heap st) [] = segments g) by (apply H2 with (j := k); auto).
  unfold aggregated.
  rewrite agg_step_heap, agg_step_labels, (agg_step_keys st (k, g)). simpl fst; simpl snd.
  rewrite Hheapk.
  assert (Hobj :
    (forall oid i,
       dict_get oid (dict_set (objectId g + 1) k (object_id_to_segs_ref st)) = Some i ->
       (i < S k)%nat /\
       (exists g0, nth_error G i = Some g0 /\ objectId g0 + 1 = oid) /\
       forall j g0, (i < j < S k)%nat -> nth_error G j = Some g0 ->
                    objectId g0 + 1 <> oid) /\
    (forall j g0, (j < S k)%nat -> nth_error G j = Some g0 ->
       dict_get (objectId g0 + 1)
         (dict_set (objectId g + 1) k (object_id_to_segs_ref st)) <> None)).
  { split.
    - intros oid i Hget. destruct (Z.eq_dec oid (objectId g + 1)) as [->|Hne].
      + rewrite dict_get_set_same in Hget. inversion Hget; subst i.
        split; [lia|]. split; [eauto|]. intros j g0 Hj. lia.
      + rewrite dict_get_set_other in Hget by assumption.
        destruct (H6 _ _ Hget) as (Hi & Hex & Hlast).
        split; [lia|]. split; [assumption|]. intros j g0 Hj Hg0.
        destruct (Nat.eq_dec j k) as [->|Hjk].
        * rewrite Hg in Hg0. inversion Hg0; subst g0. congruence.
        * apply (Hlast j g0); [lia | assumption].
    - intros j g0 Hj Hg0.
      destruct (Z.eq_dec (objectId g0 + 1) (objectId g + 1)) as [->|Hne].
      + rewrite dict_get_set_same. discriminate.
      + rewrite dict_get_set_other by assumption.
        apply (H7 j g0); [|assumption].
        destruct (Nat.eq_dec j k) as [->|Hjk]; [|lia].
        rewrite Hg in Hg0. inversion Hg0; subst g0. congruence. }
  destruct Hobj as [Hobj1 Hobj2].
  destruct (dict_get (label g) (label_to_segs_ref st)) as [r|] eqn:E.
  - destruct (H3 _ _ E) as (Hr & (gr & Hgr & Hlr) & Hhr & Hfr).
    assert (Hrl : (r < length (heap st))%nat) by lia.
    split; [now rewrite extend_length|]. split; [|split; [|split; [|split]]].
    + intros j g0 Hj Hg0. rewrite (extend_nth _ _ _ Hrl).
      destruct (Nat.eqb_spec j r); [lia|]. apply H2; [lia | assumption].
    + intros l r' Hget. destruct (H3 _ _ Hget) as (Hr' & (g' & Hg' & Hl') & Hh' & Hf').
      split; [lia|]. split; [eauto|]. split; [|assumption].
      rewrite (extend_nth _ _ _ Hrl), Hls.
      destruct (Nat.eqb_spec r' r) as [->|Hne].
      * rewrite Hgr in Hg'. inversion Hg'; subst g'.
        rewrite <- Hl', Hlr, String.eqb_refl. now rewrite Hhr.
      * rewrite Hh'. destruct (String.eqb_spec (label g) l) as [El|_];
          [|now rewrite app_nil_r].
        assert (Some r = Some r') by congruence. congruence.
    + intros l Hnone j g0 Hj Hg0. destruct (Nat.eq_dec j k) as [->|Hjk].
      * rewrite Hg in Hg0. inversion Hg0; subst g0. intros <-. congruence.
      * apply (H4 l Hnone j g0); [lia | assumption].
    + intros j g0 Hj Hg0 Hnot. rewrite (extend_nth _ _ _ Hrl).
      destruct (Nat.eqb_spec j r) as [->|Hne].
      * exfalso. apply Hnot. rewrite Hgr in Hg0. inversion Hg0; subst g0.
        now rewrite Hlr.
      * destruct (Nat.eq_dec j k) as [->|Hjk];
          [rewrite Hg in Hg0; inversion Hg0; subst g0; assumption|].
        apply H5; [lia | assumption | assumption].
    + split; assumption.
  - split; [assumption|]. split; [|split; [|split; [|split]]].
    + intros j g0 Hj Hg0. apply H2; [lia | assumption].
    + intros l r' Hget. destruct (String.eqb_spec (label g) l) as [<-|Hne].
      * rewrite dict_get_set_same in Hget. inversion Hget; subst r'.
        split; [lia|]. split; [eauto|]. split.
        -- rewrite Hls, String.eqb_refl, Hheapk.
           rewrite label_segments_none; [reflexivity|].
           intros g0 Hin. apply In_firstn in Hin. destruct Hin as (j & Hj & Hg0).
           now apply (H4 _ E j g0).
        -- intros j g0 Hj Hg0. now apply (H4 _ E j g0).
      * rewrite dict_get_set_other in Hget by congruence.
        destruct (H3 _ _ Hget) as (Hr' & Hex & Hh' & Hf').
        split; [lia|]. split; [assumption|]. split; [|assumption].
        rewrite Hls, Hh'. destruct (String.eqb_spec (label g) l); [contradiction|].
        now rewrite app_nil_r.
    + intros l Hnone j g0 Hj Hg0.
      destruct (String.eqb_spec (label g) l) as [<-|Hne].
      * rewrite dict_get_set_same in Hnone. discriminate.
      * rewrite dict_get_set_other in Hnone by congruence.
        destruct (Nat.eq_dec j k) as [->|Hjk].
        -- rewrite Hg in Hg0. inversion Hg0; subst g0. assumption.
        -- apply (H4 l Hnone j g0); [lia | assumption].
    + intros j g0 Hj Hg0 Hnot. destruct (Nat.eq_dec j k) as [->|Hjk].
      * exfalso. apply Hnot. rewrite Hg in Hg0. inversion Hg0; subst g0.
        apply dict_get_set_same.
      * assert (Hlab : label g0 <> label g)
          by (apply (H4 _ E j g0); [lia | assumption]).
        rewrite dict_get_set_other in Hnot by assumption.
        apply H5; [lia | assumption | assumption].
    + split; assumption.
Qed.

Lemma aggregated_fold (l2 l1 : list seg_group) (st : agg_state) :
  aggregated (l1 ++ l2) (length l1) st ->
  aggregated (l1 ++ l2) (length (l1 ++ l2))
    (fold_left agg_step (combine (seq (length l1) (length l2)) l2) st).
Proof.
  revert l1 st. induction l2 as [|g l2 IH]; intros l1 st Hinv; simpl.
  - now rewrite app_nil_r in *.
  - apply aggregated_step with (g := g) in Hinv.
    + replace (l1 ++ g :: l2) with ((l1 ++ [g]) ++ l2) in *
        by (now rewrite <- app_assoc).
      replace (S (length l1)) with (length (l1 ++ [g])) in *
        by (rewrite length_app; simpl; lia).
      now apply IH.
    + rewrite nth_error_app2 by lia. now rewrite Nat.sub_diag.
Qed.

Lemma aggregated_all (G : list seg_group) :
  aggregated G (length G)
    (fold_left agg_step (combine (seq 0 (length G)) G)
       {| heap := map segments G;
          object_id_to_segs_ref := [];
          label_to_segs_ref := [] |}).
Proof.
  apply (@aggregated_fold G [] _). simpl.
  split; [apply length_map|]. split; [|split; [|split; [|split; [|split]]]];
    simpl; try discriminate; try (intros; lia).
  intros j g _ Hg.
  apply nth_error_nth with (d := []). now rewrite nth_error_map, Hg.
Qed.

Lemma dict_get_deref {K : Type} `{Key K} (h : list (list Z)) (d : dict K nat) (k : K) :
  dict_get k (deref h d) = option_map (fun r => nth r h []) (dict_get k d).
Proof.
  induction d as [|[k' r] d IH]; simpl; [reflexivity|].
  destruct (keqb k k'); [reflexivity | assumption].
Qed.

(** X1.  The label map of [read_aggregation] holds, under every label of
    the file, the segments of all the groups with that label, in file
    order, and holds no other label. *)
Theorem X1_label_map_collects_segments (G : list seg_group) (l : string) :
  exists o2s l2s,
    read_aggregation (Some G) = Ok (o2s, l2s) /\
    dict_get l l2s
    = if existsb (fun g => String.eqb (label g) l) G
      then Some (label_segments G l) else None.
Proof.
  eexists. eexists. split; [reflexivity|].
  rewrite dict_get_deref.
  destruct (aggregated_all G) as (_ & _ & H3 & H4 & _).
  rewrite firstn_all in H3.
  destruct (dict_get l _) as [r|] eqn:E; simpl.
  - destruct (H3 _ _ E) as (_ & (g & Hg & Hl) & Hh & _).
    rewrite Hh.
    replace (existsb (fun g0 => String.eqb (label g0) l) G) with true;
      [reflexivity|].
    symmetry. apply existsb_exists. exists g. split.
    + eapply nth_error_In; eauto.
    + now apply String.eqb_eq.
  - destruct (existsb (fun g => String.eqb (label g) l) G) eqn:Ex; [|reflexivity].
    apply existsb_exists in Ex. destruct Ex as (g & Hin & Hl).
    apply String.eqb_eq in Hl. apply In_nth_error in Hin.
    destruct Hin as (j & Hj). exfalso.
    apply (H4 _ E j g); [|assumption|assumption].
    apply nth_error_Some. congruence.
Qed.

(** X2.  The object map of [read_aggregation] and the lists it shares with
    the label map.  Take a group after which no group of the file repeats
    its object id.  If an earlier group has its label, the object map holds
    the group's own segment list under its id plus one; if the group is the
    first of its label, the object map holds under that key the segments of
    all the groups with the label. *)
Theorem X2_object_map_shares_label_list (G : list seg_group) (i : nat)
    (g : seg_group) :
  nth_error G i = Some g ->
  (forall j g', (i < j)%nat -> nth_error G j = Some g' ->
     objectId g' <> objectId g) ->
  exists o2s l2s,
    read_aggregation (Some G) = Ok (o2s, l2s) /\
    dict_get (objectId g + 1) o2s
    = Some (if existsb (fun g' => String.eqb (label g') (label g)) (firstn i G)
            then segments g else label_segments G (label g)).
Proof.
  intros Hg Hlast. eexists. eexists. split; [reflexivity|].
  rewrite dict_get_deref.
  destruct (aggregated_all G) as (_ & _ & H3 & H4 & H5 & H6 & H7).
  rewrite firstn_all in H3.
  assert (Hi : (i < length G)%nat) by (apply nth_error_Some; congruence).
  destruct (dict_get (objectId g + 1) _) as [i'|] eqn:E;
    [|now elim (H7 i g Hi Hg)].
  destruct (H6 _ _ E) as (Hi' & (g' & Hg' & Hid) & Hnone).
  assert (i' = i).
  { destruct (Nat.lt_trichotomy i' i) as [Hlt|[Heq|Hgt]]; [|assumption|].
    - exfalso. apply (Hnone i g); [lia | assumption | reflexivity].
    - exfalso. apply (Hlast i' g' Hgt Hg'). lia. }
  subst i'. simpl. f_equal.
  destruct (dict_get (label g) (label_to_segs_ref
              (fold_left agg_step (combine (seq 0 (length G)) G)
                 {| heap := map segments G;
                    object_id_to_segs_ref := [];
                    label_to_segs_ref := [] |}))) as [r|] eqn:El.
  - destruct (H3 _ _ El) as (Hr & (gr & Hgr & Hlr) & Hh & Hfirst).
    destruct (Nat.eq_dec r i) as [->|Hne].
    + rewrite Hh.
      replace (existsb (fun g0 => String.eqb (label g0) (label g)) (firstn i G))
        with false; [reflexivity|].
      symmetry. apply not_true_is_false. intro Ex.
      apply existsb_exists in Ex. destruct Ex as (g0 & Hin & Hl0).
      apply String.eqb_eq in Hl0. apply In_firstn in Hin.
      destruct Hin as (j & Hj & Hg0). now apply (Hfirst j g0).
    + rewrite (H5 i g Hi Hg) by congruence.
      replace (existsb (fun g0 => String.eqb (label g0) (label g)) (firstn i G))
        with true; [reflexivity|].
      symmetry. apply existsb_exists. exists gr. split.
      * assert (Hri : (r < i)%nat).
        { destruct (Nat.lt_ge_cases r i) as [|Hge]; [assumption|].
          exfalso. apply (Hfirst i g); [lia | assumption | reflexivity]. }
        rewrite <- (firstn_skipn i G) in Hgr.
        rewrite nth_error_app1 in Hgr by (rewrite length_firstn; lia).
        eapply nth_error_In; eauto.
      * now apply String.eqb_eq.
  - exfalso. now apply (H4 _ El i g).
Qed.

(** Two chairs: the first object comes back with the segments of both. *)
Lemma X2_object_map_shares_label_list_witness :
  let g1 := {| objectId := 0; label := "chair"; segments := [1] |} in
  let g2 := {| objectId := 1; label := "chair"; segments := [2] |} in
  nth_error [g1; g2] 0 = Some g1 /\
  (forall j g', (0 < j)%nat -> nth_error [g1; g2] j = Some g' ->
     objectId g' <> objectId g1) /\
  exists o2s l2s,
    read_aggregation (Some [g1; g2]) = Ok (o2s, l2s) /\
    dict_get 1 o2s = Some [1; 2].
Proof.
  intros g1 g2.
  assert (Hlast : forall j g', (0 < j)%nat -> nth_error [g1; g2] j = Some g' ->
                    objectId g' <> objectId g1).
  { intros [|[|[|j]]] g' Hj Hg'; simpl in Hg'; try lia; try discriminate.
    inversion Hg'. discriminate. }
  split; [reflexivity|]. split; [exact Hlast|].
  exact (@X2_object_map_shares_label_list [g1; g2] 0%nat g1 eq_refl Hlast).
Defined.

Lemma dict_set_fresh {K V : Type} `{Key K} (k : K) (v : V) (d : dict K V) :
  ~ In k (keys d) -> dict_set k v d = d ++ [(k, v)].
Proof.
  induction d as [|[k' v'] d IH]; simpl; intro Hnot; [reflexivity|].
  destruct (keqb k k') eqn:E.
  - apply keqb_eq in E. subst. exfalso. apply Hnot. now left.
  - f_equal. apply IH. intro Hin. apply Hnot. now right.
Qed.

Lemma refs_app {K : Type} (key : seg_group -> K) (off : nat)
    (l1 l2 : list seg_group) :
  refs key off (l1 ++ l2) = refs key off l1 ++ refs key (off + length l1) l2.
Proof.
  revert off. induction l1 as [|g l1 IH]; intro off; simpl.
  - now rewrite Nat.add_0_r.
  - rewrite IH. do 3 f_equal. lia.
Qed.

Lemma keys_refs {K : Type} (key : seg_group -> K) (off : nat)
    (l : list seg_group) :
  keys (refs key off l) = map key l.
Proof. revert off. induction l; intro off; simpl; [reflexivity|]. f_equal. apply IHl. Qed.

Lemma deref_refs {K : Type} (key : seg_group -> K) (l pre : list seg_group)
    (post : list seg_group) :
  deref (map segments (pre ++ l ++ post)) (refs key (length pre) l)
  = map (fun g => (key g, segments g)) l.
Proof.
  revert pre. induction l as [|g l IH]; intro pre; simpl; [reflexivity|].
  f_equal.
  - f_equal. rewrite map_app, app_nth2 by (rewrite length_map; lia).
    now rewrite length_map, Nat.sub_diag.
  - specialize (IH (pre ++ [g])). rewrite length_app in IH. simpl in IH.
    rewrite Nat.add_1_r, <- app_assoc in IH. exact IH.
Qed.

Lemma fresh_fold (l2 l1 : list seg_group) (h : list (list Z)) :
  NoDup (map objectId (l1 ++ l2)) -> NoDup (map label (l1 ++ l2)) ->
  fold_left agg_step (combine (seq (length l1) (length l2)) l2)
    {| heap := h;
       object_id_to_segs_ref := refs (fun g => objectId g + 1) 0 l1;
       label_to_segs_ref := refs label 0 l1 |}
  = {| heap := h;
       object_id_to_segs_ref := refs (fun g => objectId g + 1) 0 (l1 ++ l2);
       label_to_segs_ref := refs label 0 (l1 ++ l2) |}.
Proof.
  revert l1. induction l2 as [|g l2 IH]; intros l1 Hid Hlab.
  - simpl. now rewrite app_nil_r.
  - cbn [Datatypes.length seq combine fold_left].
    assert (Hnl : ~ In (label g) (map label l1)).
    { rewrite map_app in Hlab. simpl in Hlab.
      apply NoDup_remove_2 in Hlab. intro Hin. apply Hlab.
      apply in_or_app. now left. }
    assert (Hni : ~ In (objectId g + 1) (map (fun g => objectId g + 1) l1)).
    { rewrite map_app in Hid. simpl in Hid.
      apply NoDup_remove_2 in Hid. intro Hin. apply Hid.
      apply in_or_app. left. apply in_map_iff in Hin.
      destruct Hin as (g' & Heq & Hin). apply in_map_iff.
      exists g'. split; [lia | assumption]. }
    assert (Hstep :
      agg_step {| heap := h;
                  object_id_to_segs_ref := refs (fun g => objectId g + 1) 0 l1;
                  label_to_segs_ref := refs label 0 l1 |} (length l1, g)
      = {| heap := h;
           object_id_to_segs_ref := refs (fun g => objectId g + 1) 0 (l1 ++ [g]);
           label_to_segs_ref := refs label 0 (l1 ++ [g]) |}).
    { unfold agg_step. simpl.
      assert (E : dict_get (label g) (refs label 0 l1) = None).
      { apply dict_get_None. now rewrite keys_refs. }
      rewrite E. rewrite !refs_app. simpl.
      rewrite !dict_set_fresh by (now rewrite keys_refs). reflexivity. }
    rewrite Hstep.
    replace (l1 ++ g :: l2) with ((l1 ++ [g]) ++ l2) in *
      by (now rewrite <- app_assoc).
    replace (S (length l1)) with (length (l1 ++ [g]))
      by (rewrite length_app; simpl; lia).
    now apply IH.
Qed.

(** X3.  When no two groups of the aggregation file share an object id or
    a label, [read_aggregation] returns, in file order, each group's own
    segment list under its object id plus one and under its label. *)
Theorem X3_distinct_groups_keep_their_segments (G : list seg_group) :
  NoDup (map objectId G) -> NoDup (map label G) ->
  read_aggregation (Some G)
  = Ok (map (fun g => (objectId g + 1, segments g)) G,
        map (fun g => (label g, segments g)) G).
Proof.
  intros Hid Hlab. unfold read_aggregation. simpl.
  pose proof (@fresh_fold G [] (map segments G) Hid Hlab) as Hf.
  simpl in Hf. rewrite Hf. simpl.
  pose proof (deref_refs (fun g => objectId g + 1) G [] []) as H1.
  pose proof (deref_refs label G [] []) as H2.
  simpl in H1, H2. rewrite app_nil_r in H1, H2. now rewrite H1, H2.
Qed.

(** A chair and a table. *)
Lemma X3_distinct_groups_keep_their_segments_witness :
  let G := [ {| objectId := 0; label := "chair"; segments := [1; 4] |};
             {| objectId := 1; label := "table"; segments := [2] |} ] in
  NoDup (map objectId G) /\ NoDup (map label G) /\
  read_aggregation (Some G)
  = Ok ([(1, [1; 4]); (2, [2])],
        [("chair"%string, [1; 4]); ("table"%string, [2])]).
Proof.
  intro G.
  assert (Hid : NoDup (map objectId G)).
  { repeat constructor; simpl; intuition discriminate. }
  assert (Hlab : NoDup (map label G)).
  { repeat constructor; simpl; intuition discriminate. }
  split; [exact Hid|]. split; [exact Hlab|].
  exact (@X3_distinct_groups_keep_their_segments G Hid Hlab).
Defined.

Unset Implicit Arguments.

(** ** The projection loops of [export] *)

Lemma put_all_nth_error {A : Type} (idx : list nat) (v : A) (arr arr' : list A) :
  put_all idx v arr = Ok arr' ->
  forall j, nth_error arr' j
            = if existsb (Nat.eqb j) idx then Some v else nth_error arr j.
Proof.
  unfold put_all. revert arr.
  induction idx as [|i idx IH]; intros arr H j; simpl in H |- *.
  - now inversion H.
  - bind_inv H. rewrite (IH _ H j), (@put_nth_error _ i j v arr a Ha).
    destruct (Nat.eqb j i); simpl; [|reflexivity].
    now destruct (existsb (Nat.eqb j) idx).
Qed.

Lemma put_total {A : Type} (i : nat) (v : A) (arr : list A) :
  (i < length arr)%nat -> exists arr', put i v arr = Ok arr'.
Proof.
  revert i. induction arr as [|x arr IH]; intros [|i] Hi; simpl in *; try lia.
  - eauto.
  - destruct (IH i) as (arr' & ->); [lia|]. simpl. eauto.
Qed.

Lemma put_all_total {A : Type} (idx : list nat) (v : A) (arr : list A) :
  Forall (fun i => (i < length arr)%nat) idx ->
  exists arr', put_all idx v arr = Ok arr'.
Proof.
  unfold put_all. revert arr.
  induction idx as [|i idx IH]; intros arr Hall; simpl; [eauto|].
  inversion Hall as [|? ? Hi Hrest]; subst.
  destruct (put_total i v arr Hi) as (arr1 & Hput). rewrite Hput. simpl.
  apply IH. apply put_length in Hput. now rewrite Hput.
Qed.

(** The vertex list of a segment, as [read_segmentation] builds it. *)
Lemma seg_to_verts_member (segIndices : list Z) (seg : Z) (verts : list nat)
    (j : nat) (s : Z) :
  dict_get seg (fold_left seg_step
                  (combine (seq 0 (length segIndices)) segIndices) [])
  = Some verts ->
  nth_error segIndices j = Some s ->
  existsb (Nat.eqb j) verts = (s =? seg).
Proof.
  intros Hget Hj.
  destruct (inverts_all segIndices) as (_ & Hent & _).
  destruct (Hent _ _ Hget) as [_ Hin].
  assert (Hlt : (j < length segIndices)%nat) by (apply nth_error_Some; congruence).
  destruct (Z.eqb_spec s seg) as [->|Hne].
  - apply existsb_exists. exists j. split; [|apply Nat.eqb_refl].
    apply Hin. now split.
  - apply not_true_is_false. intro Hex. apply existsb_exists in Hex.
    destruct Hex as (j' & Hj' & Heq). apply Nat.eqb_eq in Heq. subst j'.
    apply Hin in Hj'. destruct Hj' as [_ Hs]. congruence.
Qed.

Lemma seg_to_verts_in_range (segIndices : list Z) (seg : Z) (verts : list nat) :
  dict_get seg (fold_left seg_step
                  (combine (seq 0 (length segIndices)) segIndices) [])
  = Some verts ->
  Forall (fun i => (i < length segIndices)%nat) verts.
Proof.
  intro Hget.
  destruct (inverts_all segIndices) as (_ & Hent & _).
  destruct (Hent _ _ Hget) as [_ Hin].
  apply Forall_forall. intros i Hi. now apply Hin in Hi.
Qed.

Lemma seg_to_verts_present (segIndices : list Z) (seg : Z) :
  dict_get seg (fold_left seg_step
                  (combine (seq 0 (length segIndices)) segIndices) [])
  <> None <-> In seg segIndices.
Proof.
  split.
  - intro Hsome.
    destruct (dict_get seg _) as [verts|] eqn:E; [|congruence]. clear Hsome.
    destruct (inverts_all segIndices) as (_ & Hent & _).
    destruct (Hent _ _ E) as [_ Hin].
    destruct (In_dec Z.eq_dec seg segIndices) as [|Hnot]; [assumption|].
    exfalso.
    assert (Hv : verts = []).
    { destruct verts as [|i verts]; [reflexivity|]. exfalso.
      destruct (proj1 (Hin i) (or_introl eq_refl)) as [_ Hs].
      apply Hnot. eapply nth_error_In; eauto. }
    subst verts. clear Hent Hin.
    (* a key of the map was set with a vertex: no list is empty *)
    revert E. generalize (seq 0 (length segIndices)).
    assert (Hgen : forall (items : list (nat * Z)) (m : dict Z (list nat)),
              (forall s, dict_get s m <> Some []) ->
              forall s, dict_get s (fold_left seg_step items m) <> Some []).
    { induction items as [|[i x] items IH]; intros m Hm s; simpl; [apply Hm|].
      apply IH. intros s'. unfold seg_step.
      destruct (dict_get x m) as [vs|] eqn:Ex;
        (destruct (Z.eq_dec s' x) as [->|Hne];
         [rewrite dict_get_set_same | rewrite dict_get_set_other by assumption;
                                      apply Hm]).
      - destruct vs; discriminate.
      - discriminate. }
    intros l E. apply (Hgen (combine l segIndices) [] (fun s => ltac:(discriminate)) seg E).
  - intros Hin. apply In_nth_error in Hin. destruct Hin as (i & Hi).
    destruct (inverts_all segIndices) as (_ & _ & Hex).
    apply (Hex i seg); [|assumption]. apply nth_error_Some. congruence.
Qed.

(** One item of a projection loop writes its value at the vertices of its
    segments and nowhere else. *)
Lemma paint_segments (segIndices : list Z) (v : Z) (segs : list Z) :
  forall (a a' : list Z),
    for_each (fun ids seg =>
                verts <- subscript
                           (dict_get seg
                              (fold_left seg_step
                                 (combine (seq 0 (length segIndices)) segIndices) [])) ;;
                put_all verts v ids) segs a = Ok a' ->
    forall j s, nth_error segIndices j = Some s ->
      nth_error a' j = if existsb (Z.eqb s) segs then Some v else nth_error a j.
Proof.
  induction segs as [|seg segs IH]; intros a a' H j s Hj; simpl in H |- *.
  - now inversion H.
  - bind_inv H. bind_inv Ha.
    destruct (dict_get seg _) as [verts|] eqn:E; [|discriminate].
    inversion Ha0; subst a1. clear Ha0.
    rewrite (IH _ _ H j s Hj), (put_all_nth_error _ _ _ _ Ha j).
    rewrite (seg_to_verts_member _ _ _ j s E Hj).
    destruct (s =? seg); simpl; [|reflexivity].
    now destruct (existsb (Z.eqb s) segs).
Qed.

Lemma label_loop_projects (label_map : label_mapping) (segIndices : list Z)
    (l2s : dict string (list Z)) :
  forall (a a' : list Z),
    for_each (label_body label_map
                (fold_left seg_step
                   (combine (seq 0 (length segIndices)) segIndices) []))
      l2s a = Ok a' ->
    forall j s acc, nth_error segIndices j = Some s ->
      nth_error a j = Some acc ->
      nth_error a' j
      = Some (fold_left
                (fun acc item =>
                   if existsb (Z.eqb s) (snd item)
                   then label_value label_map (fst item) else acc)
                l2s acc).
Proof.
  induction l2s as [|[l segs] l2s IH]; intros a a' H j s acc Hj Hacc;
    simpl in H |- *.
  - inversion H; subst. assumption.
  - bind_inv H. unfold label_body in Ha. bind_inv Ha.
    apply (IH _ _ H j s _ Hj).
    rewrite (paint_segments _ _ _ _ _ Ha j s Hj).
    unfold label_value. rewrite Ha0.
    now destruct (existsb (Z.eqb s) segs).
Qed.

Lemma instance_item_paints (segIndices : list Z) (lids : list Z) (oid : Z)
    (segs : list Z) :
  forall (st st' : list Z * dict Z Z),
    for_each (fun (st : list Z * dict Z Z) seg =>
                let (instance_ids, object_id_to_label_id) := st in
                verts <- subscript
                           (dict_get seg
                              (fold_left seg_step
                                 (combine (seq 0 (length segIndices)) segIndices) [])) ;;
                instance_ids <- put_all verts (wrap32 oid) instance_ids ;;
                if dict_mem oid object_id_to_label_id
                then Ok (instance_ids, object_id_to_label_id)
                else
                  picked <- take verts lids ;;
                  label_id <- first picked ;;
                  Ok (instance_ids, dict_set oid label_id object_id_to_label_id))
             segs st = Ok st' ->
    forall j s, nth_error segIndices j = Some s ->
      nth_error (fst st') j
      = if existsb (Z.eqb s) segs then Some (wrap32 oid) else nth_error (fst st) j.
Proof.
  induction segs as [|seg segs IH]; intros [ids o2l] st' H j s Hj; simpl in H |- *.
  - now inversion H.
  - bind_inv H. bind_inv Ha. bind_inv Ha.
    destruct (dict_get seg _) as [verts|] eqn:E; [|discriminate].
    inversion Ha0; subst a0. clear Ha0.
    assert (Hfst : fst a = a1).
    { destruct (dict_mem oid o2l).
      - now inversion Ha.
      - bind_inv Ha. bind_inv Ha. now inversion Ha. }
    rewrite (IH _ _ H j s Hj), Hfst, (put_all_nth_error _ _ _ _ Ha1 j).
    rewrite (seg_to_verts_member _ _ _ j s E Hj).
    destruct (s =? seg); simpl; [|reflexivity].
    now destruct (existsb (Z.eqb s) segs).
Qed.

Lemma instance_loop_projects (segIndices : list Z) (lids : list Z)
    (o2s : dict Z (list Z)) :
  forall (st st' : list Z * dict Z Z),
    for_each (instance_body
                (fold_left seg_step
                   (combine (seq 0 (length segIndices)) segIndices) []) lids)
      o2s st = Ok st' ->
    forall j s acc, nth_error segIndices j = Some s ->
      nth_error (fst st) j = Some acc ->
      nth_error (fst st') j
      = Some (fold_left
                (fun acc item =>
                   if existsb (Z.eqb s) (snd item) then wrap32 (fst item) else acc)
                o2s acc).
Proof.
  induction o2s as [|[oid segs] o2s IH]; intros st st' H j s acc Hj Hacc;
    simpl in H |- *.
  - inversion H; subst. assumption.
  - bind_inv H. unfold instance_body in Ha.
    apply (IH _ _ H j s _ Hj).
    rewrite (instance_item_paints _ _ _ _ _ _ Ha j s Hj).
    now destruct (existsb (Z.eqb s) segs).
Qed.

Lemma nth_error_repeat_zero (n j : nat) :
  (j < n)%nat -> nth_error (repeat 0 n) j = Some 0.
Proof.
  intro Hj. rewrite nth_error_repeat by assumption. reflexivity.
Qed.

Section Projection.
Context {NUM : Numeric}.

Variables (mesh : file point_cloud) (G : list seg_group) (segIndices : list Z)
          (meta : file (list string)) (lm : file csv_records).

(** What [export] leaves in its two label arrays. *)
Lemma export_projects (sc : scene) :
  export mesh (Some G) (Some segIndices) meta lm = Ok sc ->
  exists label_map o2s l2s,
    read_label_mapping lm "raw_category" "nyu40id" = Ok label_map /\
    read_aggregation (Some G) = Ok (o2s, l2s) /\
    forall i seg, nth_error segIndices i = Some seg ->
      nth_error (label_ids sc) i
      = Some (last_write (label_value label_map) l2s seg) /\
      nth_error (instance_ids sc) i = Some (last_write wrap32 o2s seg).
Proof.
  intro H. apply export_steps in H.
  destruct H as (V & label_map & M & o2s & l2s & s2v & n
                 & _ & Hlm & _ & Hagg & Hseg & Hlab & Hinst & _ & _).
  exists label_map, o2s, l2s. split; [assumption|]. split; [assumption|].
  unfold read_segmentation in Hseg. simpl in Hseg. inversion Hseg; subst s2v n.
  intros i seg Hi.
  assert (Hlt : (i < length segIndices)%nat) by (apply nth_error_Some; congruence).
  split.
  - apply (label_loop_projects _ _ _ _ _ Hlab i seg 0 Hi).
    now apply nth_error_repeat_zero.
  - apply (instance_loop_projects _ _ _ _ _ Hinst i seg 0 Hi). simpl.
    now apply nth_error_repeat_zero.
Qed.

(** X4.  The instance id [export] gives a vertex is the object id (plus
    one, as stored in the uint32 array) of the last entry of the object map
    whose segment list holds the vertex's segment, and 0 when no entry
    does: a later object overwrites an earlier one. *)
Theorem X4_instance_ids_last_write (sc : scene) :
  export mesh (Some G) (Some segIndices) meta lm = Ok sc ->
  exists o2s l2s,
    read_aggregation (Some G) = Ok (o2s, l2s) /\
    forall i seg, nth_error segIndices i = Some seg ->
      nth_error (instance_ids sc) i = Some (last_write wrap32 o2s seg).
Proof.
  intro H. destruct (export_projects sc H) as (label_map & o2s & l2s & _ & Hagg & Hall).
  exists o2s, l2s. split; [assumption|]. intros i seg Hi. now apply Hall.
Qed.

(** X5.  The semantic label [export] gives a vertex is the class id the
    label map holds for the last label of the label map of the aggregation
    whose segment list holds the vertex's segment, and 0 when no label
    does. *)
Theorem X5_semantic_labels_last_write (sc : scene) :
  export mesh (Some G) (Some segIndices) meta lm = Ok sc ->
  exists label_map o2s l2s,
    read_label_mapping lm "raw_category" "nyu40id" = Ok label_map /\
    read_aggregation (Some G) = Ok (o2s, l2s) /\
    forall i seg, nth_error segIndices i = Some seg ->
      nth_error (label_ids sc) i
      = Some (last_write (label_value label_map) l2s seg).
Proof.
  intro H. destruct (export_projects sc H) as (label_map & o2s & l2s & Hlm & Hagg & Hall).
  exists label_map, o2s, l2s. split; [assumption|]. split; [assumption|].
  intros i seg Hi. now apply Hall.
Qed.
End Projection.

Lemma last_write_last {K : Type} (value : K -> Z) (pre post : list (K * list Z))
    (k : K) (segs : list Z) (seg : Z) :
  In seg segs ->
  (forall item, In item post -> ~ In seg (snd item)) ->
  last_write value (pre ++ (k, segs) :: post) seg = value k.
Proof.
  intros Hin Hpost. unfold last_write. rewrite fold_left_app. simpl.
  assert (E : existsb (Z.eqb seg) segs = true).
  { apply existsb_exists. exists seg. split; [assumption | apply Z.eqb_refl]. }
  rewrite E. clear E. generalize (value k) as acc.
  induction post as [|item post IH]; intro acc; simpl; [reflexivity|].
  assert (E : existsb (Z.eqb seg) (snd item) = false).
  { apply not_true_is_false. intro Hex. apply existsb_exists in Hex.
    destruct Hex as (x & Hx & Heq). apply Z.eqb_eq in Heq. subst x.
    apply (Hpost item); [now left | assumption]. }
  rewrite E. apply IH. intros it Hit. apply Hpost. now right.
Qed.

(** The object and label maps of a file whose groups share no id and no
    label. *)
Lemma read_aggregation_distinct (G : list seg_group) :
  NoDup (map objectId G) -> NoDup (map label G) ->
  read_aggregation (Some G)
  = Ok (map (fun g => (objectId g + 1, segments g)) G,
        map (fun g => (label g, segments g)) G).
Proof.
  intros Hid Hlab. unfold read_aggregation. simpl.
  pose proof (@fresh_fold G [] (map segments G) Hid Hlab) as Hf.
  simpl in Hf. rewrite Hf. simpl.
  pose proof (@deref_refs _ (fun g => objectId g + 1) G [] []) as H1.
  pose proof (@deref_refs _ label G [] []) as H2.
  simpl in H1, H2. rewrite app_nil_r in H1, H2. now rewrite H1, H2.
Qed.

(** A label loop that ran to its end knew every label and found every
    segment. *)
Lemma label_loop_known (label_map : label_mapping) (s2v : dict Z (list nat))
    (l2s : dict string (list Z)) (a a' : list Z) :
  for_each (label_body label_map s2v) l2s a = Ok a' ->
  forall l segs, In (l, segs) l2s ->
    (exists z, label_map_get label_map l = Ok z) /\
    forall s, In s segs -> dict_get s s2v <> None.
Proof.
  intros Hrun l segs Hin.
  destruct (@for_each_turn _ _ (fun _ => True) (label_body label_map s2v) l2s
              (fun _ _ _ _ _ _ => I) a a' (l, segs) I Hrun Hin)
    as (s1 & s2 & _ & Hbody).
  unfold label_body in Hbody. bind_inv Hbody. split; [eauto|].
  intros s Hs.
  destruct (@for_each_turn _ _ (fun _ => True)
              (fun ids seg =>
                 verts <- subscript (dict_get seg s2v) ;;
                 put_all verts (wrap32 a0) ids)
              segs (fun _ _ _ _ _ _ => I) s1 s2 s I Hbody Hs)
    as (t1 & t2 & _ & Hstep).
  bind_inv Hstep. destruct (dict_get s s2v); [discriminate | discriminate].
Qed.

(** A loop raises only what its body raises. *)
Lemma for_each_raises {A S : Type} (P : S -> Prop) (Q : exn -> Prop)
    (body : S -> A -> result S) (items : list A) :
  (forall s x s', P s -> body s x = Ok s' -> P s') ->
  (forall s x e, P s -> body s x = Raise e -> Q e) ->
  forall s e, P s -> for_each body items s = Raise e -> Q e.
Proof.
  intros Hkeep Hraise.
  induction items as [|x items IH]; intros s e Hs Hrun; simpl in Hrun;
    [discriminate|].
  destruct (body s x) as [s'|e'] eqn:E; simpl in Hrun.
  - apply (IH s' e); [|assumption]. now apply (Hkeep s x).
  - inversion Hrun; subst. now apply (Hraise s x).
Qed.

(** The label loop raises nothing but KeyError: the vertices of a segment
    are within the label array. *)
Lemma label_loop_raises (label_map : label_mapping) (segIndices : list Z)
    (l2s : dict string (list Z)) (a : list Z) (e : exn) :
  length a = length segIndices ->
  for_each (label_body label_map
              (fold_left seg_step
                 (combine (seq 0 (length segIndices)) segIndices) []))
    l2s a = Raise e ->
  e = KeyError.
Proof.
  set (s2v := fold_left seg_step _ _).
  intro Hlen.
  apply (for_each_raises (fun ids => length ids = length segIndices)
           (fun e => e = KeyError)); [| |assumption].
  - intros s [l segs] s' Hs Hbody.
    assert (Hone : for_each (label_body label_map s2v) [(l, segs)] s = Ok s')
      by (cbn [for_each]; rewrite Hbody; reflexivity).
    apply label_loop_length in Hone. congruence.
  - intros s [l segs] e' Hs Hbody. unfold label_body in Hbody.
    destruct (label_map_get label_map l) as [z|e0] eqn:El; simpl in Hbody.
    + revert Hbody.
      apply (for_each_raises (fun ids => length ids = length segIndices)
               (fun e => e = KeyError)); [| |assumption].
      * intros ids seg ids' Hids Hstep. bind_inv Hstep.
        apply put_all_length in Hstep. congruence.
      * intros ids seg e1 Hids Hstep.
        destruct (dict_get seg s2v) as [verts|] eqn:E; simpl in Hstep.
        -- exfalso.
           destruct (put_all_total verts (wrap32 z) ids) as (ids' & Hok).
           { rewrite Hids. now apply (seg_to_verts_in_range segIndices seg). }
           congruence.
        -- now inversion Hstep.
    + inversion Hbody; subst e'.
      unfold label_map_get in El. destruct label_map as [m|m].
      * destruct (dict_get (Some l) m); [discriminate | now inversion El].
      * now inversion El.
Qed.

(** Every group of the file is found in the label map: its label is a key
    and its segments are in the list under it. *)
Lemma group_in_label_map (G : list seg_group) (g : seg_group)
    (o2s : dict Z (list Z)) (l2s : dict string (list Z)) :
  read_aggregation (Some G) = Ok (o2s, l2s) -> In g G ->
  exists segs, In (label g, segs) l2s /\ forall s, In s (segments g) -> In s segs.
Proof.
  intros Hagg Hg. unfold read_aggregation in Hagg. simpl in Hagg.
  inversion Hagg; subst o2s l2s. clear Hagg.
  destruct (aggregated_all G) as (_ & _ & H3 & H4 & _).
  rewrite firstn_all in H3.
  destruct (In_nth_error _ _ Hg) as (j & Hj).
  assert (Hlt : (j < length G)%nat) by (apply nth_error_Some; congruence).
  exists (label_segments G (label g)). split.
  - apply dict_get_In. rewrite dict_get_deref.
    destruct (dict_get (label g) _) as [r|] eqn:E.
    + simpl. f_equal. now destruct (H3 _ _ E) as (_ & _ & Hh & _).
    + exfalso. now apply (H4 _ E j g).
  - intros s Hs. unfold label_segments. apply in_concat.
    exists (segments g). split; [|assumption].
    apply in_map. apply filter_In. split; [assumption | apply String.eqb_refl].
Qed.

(** The instance loop records a label only for an object with a segment. *)
Lemma instance_loop_keys (s2v : dict Z (list nat)) (lids : list Z)
    (o2s : dict Z (list Z)) (ids0 ids : list Z) (o2l : dict Z Z) :
  for_each (instance_body s2v lids) o2s (ids0, []) = Ok (ids, o2l) ->
  forall k, In k (keys o2l) ->
    exists segs, In (k, segs) o2s /\ segs <> [].
Proof.
  intro H.
  set (P := fun st : list Z * dict Z Z =>
              forall k, In k (keys (snd st)) ->
                exists segs, In (k, segs) o2s /\ segs <> []).
  change (P (ids, o2l)). revert H.
  apply (for_each_invariant P); [|intros k []].
  intros st [oid segs] st' Hin HP Hbody. unfold instance_body in Hbody.
  revert HP Hbody. apply (for_each_invariant P).
  intros [ids1 o2l1] seg st2 Hseg HP1 Hstep.
  bind_inv Hstep. bind_inv Hstep.
  destruct (dict_mem oid o2l1).
  - inversion Hstep; subst st2. exact HP1.
  - bind_inv Hstep. bind_inv Hstep. inversion Hstep; subst st2.
    intros k Hk. simpl in Hk. apply In_keys_dict_set in Hk.
    destruct Hk as [->|Hk]; [|now apply HP1].
    exists segs. split; [assumption|]. intros ->. contradiction.
Qed.

Section ExportFailures.
Context {NUM : Numeric}.

Variables (mesh : file point_cloud) (G : list seg_group)
          (meta : file (list string)) (lm : file csv_records).

(** X6.  When the mesh, the label table and the alignment have been read,
    a group of the aggregation file that names a segment id absent from
    the segmentation, or has a label the label map does not hold, makes
    [export] raise KeyError. *)
Theorem X6_dangling_reference_raises_KeyError (segIndices : list Z)
    (V M : matrix) (label_map : label_mapping) (g : seg_group) :
  read_mesh_vertices_rgb mesh = Ok V ->
  read_label_mapping lm "raw_category" "nyu40id" = Ok label_map ->
  read_axis_align_matrix meta = Ok M ->
  In g G ->
  (exists s, In s (segments g) /\ ~ In s segIndices) \/
  (forall z, label_map_get label_map (label g) <> Ok z) ->
  export mesh (Some G) (Some segIndices) meta lm = Raise KeyError.
Proof.
  intros HV Hlm HM Hg Hbad. unfold export.
  rewrite HV. cbn [bind]. rewrite Hlm. cbn [bind]. rewrite HM. cbn [bind].
  destruct (read_aggregation (Some G)) as [[o2s l2s]|e] eqn:Hagg;
    [|discriminate].
  cbn [bind].
  change (read_segmentation (Some segIndices))
    with (Ok (fold_left seg_step
                (combine (seq 0 (length segIndices)) segIndices) [],
              length segIndices)).
  cbn [bind].
  destruct (for_each _ l2s (repeat 0 (length segIndices))) as [lids|e] eqn:Hlab.
  - exfalso.
    destruct (group_in_label_map G g o2s l2s Hagg Hg) as (segs & Hin & Hsegs).
    destruct (label_loop_known _ _ _ _ _ Hlab _ _ Hin) as [(z & Hz) Hfound].
    destruct Hbad as [(s & Hs & Hnot)|Hunknown].
    + apply Hnot. apply seg_to_verts_present. apply Hfound. now apply Hsegs.
    + now apply (Hunknown z).
  - cbn [bind]. f_equal.
    apply (label_loop_raises _ _ _ _ _ (repeat_length _ _) Hlab).
Qed.

(** X7.  An object whose segment list in the object map of
    [read_aggregation] is empty makes [export] fail: no label is recorded
    for it, and the box loop looks its label up. *)
Theorem X7_empty_segment_list_fails (seg : file (list Z))
    (o2s : dict Z (list Z)) (l2s : dict string (list Z)) (oid : Z) :
  read_aggregation (Some G) = Ok (o2s, l2s) ->
  In (oid, []) o2s ->
  exists e, export mesh (Some G) seg meta lm = Raise e.
Proof.
  intros Hagg Hempty.
  destruct (export mesh (Some G) seg meta lm) as [sc|e] eqn:Hexp; [|eauto].
  exfalso. apply export_steps in Hexp.
  destruct Hexp as (V & label_map & M & o2s' & l2s' & s2v & n
                    & _ & _ & _ & Hagg' & _ & _ & Hinst & Hbox & _).
  rewrite Hagg in Hagg'. inversion Hagg'; subst o2s' l2s'. clear Hagg'.
  pose proof Hagg as Hkeys. apply read_aggregation_keys in Hkeys.
  destruct Hkeys as (G' & _ & Hnd & _ & _).
  assert (Hk : In oid (keys o2s)).
  { change oid with (fst (oid, @nil Z)). now apply in_map. }
  destruct (bbox_loop_turn _ _ _ _ _ oid Hbox Hk) as (b1 & b2 & _ & Hturn).
  unfold bbox_body in Hturn. bind_inv Hturn.
  destruct (dict_get oid (object_id_to_label_id sc)) as [lbl|] eqn:E;
    [|discriminate].
  apply dict_get_In in E.
  assert (Hkey : In oid (keys (object_id_to_label_id sc))).
  { change oid with (fst (oid, lbl)). now apply in_map. }
  destruct (instance_loop_keys _ _ _ _ _ _ Hinst oid Hkey) as (segs & Hin & Hne).
  apply In_dict_get in Hin; [|assumption].
  apply In_dict_get in Hempty; [|assumption].
  congruence.
Qed.
End ExportFailures.

Section Chain.
Context {NUM : Numeric}.

(** X8.  The chain segment, object, label for a file whose groups share no
    object id and no label: a vertex whose segment is listed by a group,
    and by no group after it in the file, gets that group's object id plus
    one as instance id and the class id of that group's label as semantic
    label. *)
Theorem X8_vertex_takes_last_group (mesh : file point_cloud)
    (pre post : list seg_group) (g : seg_group) (segIndices : list Z)
    (meta : file (list string)) (lm : file csv_records) (sc : scene)
    (i : nat) (s : Z) :
  export mesh (Some (pre ++ g :: post)) (Some segIndices) meta lm = Ok sc ->
  NoDup (map objectId (pre ++ g :: post)) ->
  NoDup (map label (pre ++ g :: post)) ->
  nth_error segIndices i = Some s ->
  In s (segments g) ->
  (forall g', In g' post -> ~ In s (segments g')) ->
  nth_error (instance_ids sc) i = Some (wrap32 (objectId g + 1)) /\
  exists label_map z,
    read_label_mapping lm "raw_category" "nyu40id" = Ok label_map /\
    label_map_get label_map (label g) = Ok z /\
    nth_error (label_ids sc) i = Some (wrap32 z).
Proof.
  intros Hexp Hid Hlab Hi Hs Hpost.
  destruct (export_projects _ _ _ _ _ sc Hexp)
    as (label_map & o2s & l2s & Hlm & Hagg & Hall).
  rewrite (read_aggregation_distinct (pre ++ g :: post) Hid Hlab) in Hagg.
  inversion Hagg; subst o2s l2s. clear Hagg.
  destruct (Hall i s Hi) as [Hsem Hins].
  rewrite map_app in Hsem, Hins. simpl in Hsem, Hins.
  assert (Hafter : forall (K : Type) (key : seg_group -> K) item,
            In item (map (fun g0 => (key g0, segments g0)) post) ->
            ~ In s (snd item)).
  { intros K key item Hin. apply in_map_iff in Hin.
    destruct Hin as (g' & <- & Hg'). simpl. now apply Hpost. }
  rewrite (last_write_last _ _ _ _ _ _ Hs (Hafter _ _)) in Hsem.
  rewrite (last_write_last _ _ _ _ _ _ Hs (Hafter _ _)) in Hins.
  split; [assumption|].
  apply export_steps in Hexp.
  destruct Hexp as (V & label_map' & M & o2s & l2s & s2v & n
                    & _ & Hlm' & _ & Hagg & _ & Hloop & _).
  rewrite Hlm in Hlm'. inversion Hlm'; subst label_map'. clear Hlm'.
  rewrite (read_aggregation_distinct (pre ++ g :: post) Hid Hlab) in Hagg.
  inversion Hagg; subst o2s l2s. clear Hagg.
  assert (Hin : In (label g, segments g)
                   (map (fun g0 => (label g0, segments g0)) (pre ++ g :: post))).
  { apply in_map_iff. exists g. split; [reflexivity|].
    apply in_or_app. right. now left. }
  destruct (label_loop_known _ _ _ _ _ Hloop _ _ Hin) as [(z & Hz) _].
  exists label_map, z. split; [assumption|]. split; [assumption|].
  unfold label_value in Hsem. now rewrite Hz in Hsem.
Qed.

(** A row of the box array stays as it is while the loop takes the turns
    of other, positive ids. *)
Lemma bbox_loop_other_turns (mesh : matrix) (ids : list Z) (o2l : dict Z Z)
    (ks : list Z) (k : Z) :
  1 <= k -> ~ In k ks -> Forall (fun k' => 1 <= k') ks ->
  forall boxes boxes',
    for_each (bbox_body mesh ids o2l) ks boxes = Ok boxes' ->
    nth_error boxes' (Z.to_nat (k - 1)) = nth_error boxes (Z.to_nat (k - 1)).
Proof.
  intros Hk Hnot Hpos boxes boxes'.
  apply (for_each_invariant
           (fun bs => nth_error bs (Z.to_nat (k - 1))
                      = nth_error boxes (Z.to_nat (k - 1)))); [|reflexivity].
  intros s k' s' Hin Hs Hbody.
  rewrite Forall_forall in Hpos. pose proof (Hpos k' Hin) as Hk'.
  apply bbox_body_Ok in Hbody.
  destruct Hbody as (_ & _ & [[_ ->]|(p & rest & lbl & _ & _ & Hset)]);
    [assumption|].
  apply set_row_Ok in Hset. destruct Hset as (_ & _ & Hnth).
  rewrite Hnth by lia.
  destruct (Nat.eqb_spec (Z.to_nat (k - 1)) (Z.to_nat (k' - 1))) as [E|_];
    [|assumption].
  exfalso. apply Hnot. replace k with k' by lia. assumption.
Qed.

(** X9.  The box array of [export], when the object ids of the file are
    0-indexed.  It has one row per distinct object id.  The row of an
    object (row [objectId]) that no vertex carries in the end is left at
    its zeros, class 0 included; the row of an object with vertices is the
    box of exactly the vertices that carry its id, with the class recorded
    for the object in [object_id_to_label_id]. *)
Theorem X9_box_rows (mesh : file point_cloud) (G : list seg_group)
    (seg : file (list Z)) (meta : file (list string)) (lm : file csv_records)
    (sc : scene) (g : seg_group) :
  export mesh (Some G) seg meta lm = Ok sc ->
  Forall (fun g => 0 <= objectId g) G ->
  In g G ->
  length (instance_bboxes sc)
  = length (nodup Z.eq_dec (map (fun g => objectId g + 1) G)) /\
  ((forall i, nth_error (instance_ids sc) i <> Some (objectId g + 1)) ->
   forall b, nth_error (instance_bboxes sc) (Z.to_nat (objectId g)) = Some b ->
             b = zero_box) /\
  ((exists i, nth_error (instance_ids sc) i = Some (objectId g + 1)) ->
   exists p rest lbl,
     compress (map (fun v => v =? objectId g + 1) (instance_ids sc))
              (mesh_vertices sc) = p :: rest /\
     dict_get (objectId g + 1) (object_id_to_label_id sc) = Some lbl /\
     nth_error (instance_bboxes sc) (Z.to_nat (objectId g))
     = Some (box_of p rest lbl)).
Proof.
  intros H Hids Hg. apply export_steps in H.
  destruct H as (V & label_map & M & o2s & l2s & s2v & n
                 & _ & _ & _ & Hagg & _ & _ & _ & Hbox & Hmesh).
  apply read_aggregation_keys in Hagg.
  destruct Hagg as (groups & Heq & Hnd & _ & Hkeys).
  inversion Heq; subst groups. clear Heq.
  rewrite <- Hmesh in Hbox.
  rewrite (nodup_fixed_point Z.eq_dec Hnd) in Hbox.
  set (k := objectId g + 1) in *.
  assert (Hk : In k (keys o2s)) by (apply Hkeys; eauto).
  assert (Hpos : Forall (fun k' => 1 <= k') (keys o2s)).
  { apply Forall_forall. intros k' Hk'. apply Hkeys in Hk'.
    destruct Hk' as (g' & Hg' & ->). rewrite Forall_forall in Hids.
    specialize (Hids g' Hg'). lia. }
  assert (Hk1 : 1 <= k) by (rewrite Forall_forall in Hpos; auto).
  assert (Hrow : Z.to_nat (objectId g) = Z.to_nat (k - 1)) by (unfold k; lia).
  split; [|split].
  - pose proof Hbox as Hlen. apply bbox_loop_length in Hlen.
    rewrite Hlen, repeat_length.
    apply Nat.le_antisymm; apply NoDup_incl_length;
      try assumption; try apply NoDup_nodup.
    + intros x Hx. apply nodup_In. apply Hkeys in Hx.
      destruct Hx as (g' & Hg' & ->). now apply (in_map (fun g => objectId g + 1)).
    + intros x Hx. apply nodup_In in Hx. apply in_map_iff in Hx.
      destruct Hx as (g' & <- & Hg'). apply Hkeys. eauto.
  - intros Hnone b Hb. rewrite Hrow in Hb.
    destruct (in_split _ _ Hk) as (l1 & l2 & Hsplit).
    rewrite Hsplit in Hbox, Hnd, Hpos.
    rewrite for_each_app in Hbox. bind_inv Hbox. simpl in Hbox. bind_inv Hbox.
    pose proof (NoDup_remove_2 _ _ _ Hnd) as Hnot.
    apply Forall_app in Hpos. destruct Hpos as [Hpos1 Hpos2].
    inversion Hpos2 as [|? ? _ Hpos3]; subst.
    rewrite (bbox_loop_other_turns _ _ _ l2 k Hk1
               (fun Hin => Hnot (in_or_app _ _ _ (or_intror Hin))) Hpos3 _ _ Hbox)
      in Hb.
    apply bbox_body_Ok in Ha0.
    destruct Ha0 as (_ & _ & [[_ ->]|(p & rest & lbl & _ & Hpc & _)]).
    + rewrite (bbox_loop_other_turns _ _ _ l1 k Hk1
                 (fun Hin => Hnot (in_or_app _ _ _ (or_introl Hin))) Hpos1 _ _ Ha)
        in Hb.
      apply nth_error_In in Hb. now apply repeat_spec in Hb.
    + exfalso.
      assert (Hin : In p (compress (map (fun v => v =? k) (instance_ids sc))
                                   (mesh_vertices sc)))
        by (rewrite Hpc; now left).
      apply In_compress in Hin. destruct Hin as (i & Hm & _).
      rewrite nth_error_map in Hm.
      destruct (nth_error (instance_ids sc) i) as [v|] eqn:Ev; [|discriminate].
      simpl in Hm. inversion Hm as [Hv]. apply Z.eqb_eq in Hv. subst v.
      now apply (Hnone i).
  - intros (i & Hi).
    destruct (in_split _ _ Hk) as (l1 & l2 & Hsplit).
    rewrite Hsplit in Hbox, Hnd, Hpos.
    rewrite for_each_app in Hbox. bind_inv Hbox. simpl in Hbox. bind_inv Hbox.
    pose proof (NoDup_remove_2 _ _ _ Hnd) as Hnot.
    apply Forall_app in Hpos. destruct Hpos as [_ Hpos2].
    inversion Hpos2 as [|? ? _ Hpos3]; subst.
    apply bbox_body_Ok in Ha0.
    destruct Ha0 as (_ & _ & [[Hnone _]|(p & rest & lbl & Hl & Hpc & Hset)]);
      [now elim (Hnone i)|].
    exists p, rest, lbl. split; [assumption|]. split; [assumption|].
    rewrite Hrow.
    rewrite (bbox_loop_other_turns _ _ _ l2 k Hk1
               (fun Hin => Hnot (in_or_app _ _ _ (or_intror Hin))) Hpos3 _ _ Hbox).
    apply set_row_Ok in Hset. destruct Hset as (_ & _ & Hnth).
    rewrite Hnth by lia. now rewrite Nat.eqb_refl.
Qed.
End Chain.

(** ** Filtering and saving in [process_scene] *)

Lemma compress_map_filter {A : Type} (f : A -> bool) (l : list A) :
  compress (map f l) l = filter f l.
Proof.
  induction l as [|x l IH]; simpl; [reflexivity|].
  destruct (f x); now rewrite IH.
Qed.

Lemma compress_all {A B : Type} (l : list B) (arr : list A) :
  length l = length arr -> compress (map (fun _ => true) l) arr = arr.
Proof.
  revert arr. induction l as [|x l IH]; intros [|y arr] H; simpl in *;
    try discriminate; try reflexivity.
  f_equal. apply IH. lia.
Qed.

Lemma select_boxes {A : Type} (f : A -> bool) (l : list A) :
  select (map f l) l = Ok (filter f l).
Proof.
  unfold select. rewrite length_map, Nat.eqb_refl. now rewrite compress_map_filter.
Qed.

Lemma dict_mem_set {K V : Type} `{Key K} (k k' : K) (v : V) (d : dict K V) :
  dict_mem k d = true -> dict_mem k (dict_set k' v d) = true.
Proof.
  unfold dict_mem. intro Hm.
  destruct (keqb k k') eqn:E.
  - apply keqb_eq in E. subst. now rewrite dict_get_set_same.
  - rewrite dict_get_set_other; [assumption|].
    intros ->. now rewrite keqb_refl in E.
Qed.

Lemma dict_mem_set_same {K V : Type} `{Key K} (k : K) (v : V) (d : dict K V) :
  dict_mem k (dict_set k v d) = true.
Proof. unfold dict_mem. now rewrite dict_get_set_same. Qed.

Lemma take_In {A : Type} (idx : list nat) (arr l : list A) (x : A) :
  take idx arr = Ok l -> In x l -> In x arr.
Proof.
  intros H. apply take_Forall2 in H.
  induction H as [|i y idx l Hi _ IH]; intros Hin; [contradiction|].
  destruct Hin as [<-|Hin]; [|auto]. eapply nth_error_In; eauto.
Qed.

Section Saving.
Context {NUM : Numeric} {RND : Random}.

Variables (self : ScannetProcess) (scan : string).

(** The four file names of the scan. *)
Local Notation "'vert'" := (out_file self scan "_vert.npy").
Local Notation "'sem_label'" := (out_file self scan "_sem_label.npy").
Local Notation "'ins_label'" := (out_file self scan "_ins_label.npy").
Local Notation "'bbox_file'" := (out_file self scan "_bbox.npy").

(** The class filter of [filter_scene] on the boxes of [export]. *)
Lemma filter_scene_boxes (files : scan_files) (sc : scene) (V : matrix)
    (sem ins : list Z) (B : list bbox) :
  export (mesh_file files) (agg_file files) (seg_file files) (meta_file files)
         (label_map_file files) = Ok sc ->
  filter_scene self files = Ok (V, sem, ins, B) ->
  V = compress (map negb (in1d (label_ids sc) (DONOTCARE_IDS self)))
               (mesh_vertices sc) /\
  sem = compress (map negb (in1d (label_ids sc) (DONOTCARE_IDS self)))
                 (label_ids sc) /\
  ins = compress (map negb (in1d (label_ids sc) (DONOTCARE_IDS self)))
                 (instance_ids sc) /\
  B = filter (fun b => existsb (Z.eqb (cls b)) (OBJ_CLASS_IDS self))
             (instance_bboxes sc).
Proof.
  intros Hexp Hf. unfold filter_scene in Hf. rewrite Hexp in Hf.
  cbn [bind] in Hf. bind_inv Hf. bind_inv Hf. bind_inv Hf.
  unfold in1d in Hf at 1. rewrite map_map in Hf.
  rewrite (select_boxes (fun b => existsb (Z.eqb (cls b)) (OBJ_CLASS_IDS self)))
    in Hf.
  cbn [bind] in Hf. inversion Hf; subst.
  apply select_Ok in Ha, Ha0, Ha1.
  destruct Ha as [_ ->], Ha0 as [_ ->], Ha1 as [_ ->]. auto.
Qed.

(** X10.  [process_scene] saves the boxes of [export] whose class is one of
    [OBJ_CLASS_IDS], in their order, and no other box; with the classes the
    constructor sets, a row left at zero (class 0) is never saved. *)
Theorem X10_saved_boxes_are_the_object_classes (files : scan_files) (d d' : disk)
    (g g' : rng) (sc : scene) :
  export (mesh_file files) (agg_file files) (seg_file files) (meta_file files)
         (label_map_file files) = Ok sc ->
  isfile d vert = false ->
  process_scene self scan files d g = (Ok tt, d', g') ->
  dict_get bbox_file d'
  = Some (Boxes (filter (fun b => existsb (Z.eqb (cls b)) (OBJ_CLASS_IDS self))
                        (instance_bboxes sc))) /\
  (OBJ_CLASS_IDS self = OBJ_CLASS_IDS (init "" "" 0) ->
   forall B, dict_get bbox_file d' = Some (Boxes B) -> ~ In zero_box B).
Proof.
  intros Hexp Hmiss Hrun.
  rewrite (process_scene_not_cached self scan files d g Hmiss) in Hrun.
  destruct (filter_scene self files) as [[[[V sem] ins] B]|e] eqn:Hf;
    [|discriminate].
  destruct (filter_scene_boxes files sc V sem ins B Hexp Hf) as (_ & _ & _ & HB).
  destruct (subsample self (V, sem, ins) g) as [[[[[V' sem'] ins']|e] ch] g1];
    [|discriminate].
  inversion Hrun; subst d' g'. clear Hrun.
  assert (Hget : dict_get bbox_file
                   (np_save bbox_file (Boxes B)
                      (np_save ins_label (Labels ins')
                         (np_save sem_label (Labels sem')
                            (np_save vert (Vertices V') d))))
                 = Some (Boxes B)) by apply dict_get_set_same.
  split; [now rewrite Hget, HB|].
  intros Hcls B' HB'. rewrite Hget in HB'. inversion HB'; subst B'.
  rewrite HB. intro Hin. apply filter_In in Hin. destruct Hin as [_ Hin].
  rewrite Hcls in Hin. discriminate.
Qed.

(** X11.  With the empty [DONOTCARE_IDS] the constructor sets, and no more
    vertices than [max_num_point], [process_scene] saves the vertex, label
    and instance arrays exactly as [export] returned them; it raises
    IndexError, and writes nothing, when the mesh does not have as many
    vertices as the segmentation. *)
Theorem X11_default_run_saves_export (files : scan_files) (d : disk) (g : rng)
    (sc : scene) :
  export (mesh_file files) (agg_file files) (seg_file files) (meta_file files)
         (label_map_file files) = Ok sc ->
  DONOTCARE_IDS self = [] ->
  isfile d vert = false ->
  (length (label_ids sc) = length (mesh_vertices sc) ->
   (length (mesh_vertices sc) <= max_num_point self)%nat ->
   exists d',
     process_scene self scan files d g = (Ok tt, d', g) /\
     dict_get vert d' = Some (Vertices (mesh_vertices sc)) /\
     dict_get sem_label d' = Some (Labels (label_ids sc)) /\
     dict_get ins_label d' = Some (Labels (instance_ids sc))) /\
  (length (label_ids sc) <> length (mesh_vertices sc) ->
   process_scene self scan files d g = (Raise IndexError, d, g)).
Proof.
  intros Hexp Hdc Hmiss.
  pose proof Hexp as Hsteps. apply export_steps in Hsteps.
  destruct Hsteps as (V0 & label_map & M & o2s & l2s & s2v & n
                      & _ & _ & _ & _ & _ & Hlab & Hinst & _ & _).
  apply label_loop_length in Hlab. rewrite repeat_length in Hlab.
  apply instance_loop_values in Hinst. destruct Hinst as [Hinst _].
  assert (Hmask : map negb (in1d (label_ids sc) (DONOTCARE_IDS self))
                  = map (fun _ => true) (label_ids sc)).
  { rewrite Hdc. unfold in1d. rewrite map_map. reflexivity. }
  rewrite (process_scene_not_cached self scan files d g Hmiss).
  unfold filter_scene. rewrite Hexp. cbn [bind]. rewrite Hmask.
  split.
  - intros Hlen Hmax.
    unfold select at 1. rewrite length_map, Hlen, Nat.eqb_refl. cbn [bind].
    rewrite (compress_all _ _ Hlen).
    unfold select at 1. rewrite length_map, Nat.eqb_refl. cbn [bind].
    rewrite (compress_all _ _ eq_refl).
    unfold select at 1. rewrite length_map.
    assert (Hli : length (label_ids sc) = length (instance_ids sc)) by congruence.
    rewrite Hli, Nat.eqb_refl. cbn [bind].
    rewrite (compress_all _ _ Hli).
    unfold in1d. rewrite map_map, select_boxes. cbn [bind].
    unfold subsample.
    destruct (Nat.ltb_spec (max_num_point self) (length (mesh_vertices sc)));
      [lia|].
    eexists. split; [reflexivity|].
    apply (saved_arrays self scan d).
  - intro Hne.
    unfold select at 1. rewrite length_map.
    destruct (Nat.eqb_spec (length (label_ids sc)) (length (mesh_vertices sc)));
      [contradiction | reflexivity].
Qed.

(** The four files of a scan are on the disk after a run that ended well. *)
Lemma process_scene_Ok_files (files : scan_files) (d d' : disk) (g g' : rng) :
  process_scene self scan files d g = (Ok tt, d', g') ->
  isfile d' vert = true /\ isfile d' sem_label = true /\
  isfile d' ins_label = true /\ isfile d' bbox_file = true.
Proof.
  unfold process_scene. intro H.
  destruct (isfile d vert && isfile d sem_label && isfile d ins_label
            && isfile d bbox_file) eqn:C.
  - inversion H; subst d' g'.
    apply andb_true_iff in C. destruct C as [C C4].
    apply andb_true_iff in C. destruct C as [C C3].
    apply andb_true_iff in C. destruct C as [C1 C2]. auto.
  - destruct (filter_scene self files) as [[[[V sem] ins] B]|e]; [|discriminate].
    destruct (subsample self (V, sem, ins) g) as [[[[[V' sem'] ins']|e] ch] g1];
      [|discriminate].
    inversion H; subst d' g'. unfold isfile, np_save.
    repeat split;
      repeat first [ apply dict_mem_set_same | apply dict_mem_set ].
Qed.

(** [process_scene] touches no file but the four of its scan, and removes
    none. *)
Lemma process_scene_frame (files : scan_files) (d d' : disk) (g g' : rng)
    (r : result unit) :
  process_scene self scan files d g = (r, d', g') ->
  forall name,
    (name <> vert -> name <> sem_label -> name <> ins_label ->
     name <> bbox_file -> dict_get name d' = dict_get name d) /\
    (isfile d name = true -> isfile d' name = true).
Proof.
  unfold process_scene. intros H name.
  destruct (isfile d vert && isfile d sem_label && isfile d ins_label
            && isfile d bbox_file).
  - inversion H; subst. auto.
  - destruct (filter_scene self files) as [[[[V sem] ins] B]|e];
      [|inversion H; subst; auto].
    destruct (subsample self (V, sem, ins) g) as [[[[[V' sem'] ins']|e] ch] g1];
      [|inversion H; subst; auto].
    inversion H; subst d' g'. unfold isfile, np_save. split.
    + intros N1 N2 N3 N4. now rewrite !dict_get_set_other by assumption.
    + intro Hm. now repeat apply dict_mem_set.
Qed.

(** X12.  After a run of [process_scene] that ended without error, a second
    run for the same scan finds the four files and does nothing: it returns
    without error, whatever the input files have become, and leaves the
    output directory and the generator as they are. *)
Theorem X12_second_run_does_nothing (files files' : scan_files) (d d' : disk)
    (g g' g2 : rng) :
  process_scene self scan files d g = (Ok tt, d', g') ->
  process_scene self scan files' d' g2 = (Ok tt, d', g2).
Proof.
  intro H. apply process_scene_Ok_files in H.
  destruct H as (H1 & H2 & H3 & H4).
  unfold process_scene. now rewrite H1, H2, H3, H4.
Qed.

(** X13.  Whatever its outcome, [process_scene] leaves every file of the
    output directory other than the four of its scan as it was, and removes
    no file. *)
Theorem X13_other_files_untouched (files : scan_files) (d d' : disk) (g g' : rng)
    (r : result unit) (name : string) :
  process_scene self scan files d g = (r, d', g') ->
  (name <> vert -> name <> sem_label -> name <> ins_label ->
   name <> bbox_file -> dict_get name d' = dict_get name d) /\
  (isfile d name = true -> isfile d' name = true).
Proof. intro H. exact (process_scene_frame files d d' g g' r H name). Qed.

(** X14.  No semantic label that [process_scene] saves is one of
    [DONOTCARE_IDS], with or without subsampling. *)
Theorem X14_no_dont_care_label_saved (files : scan_files) (d d' : disk)
    (g g' : rng) :
  isfile d vert = false ->
  process_scene self scan files d g = (Ok tt, d', g') ->
  exists sem,
    dict_get sem_label d' = Some (Labels sem) /\
    Forall (fun l => ~ In l (DONOTCARE_IDS self)) sem.
Proof.
  intros Hmiss Hrun.
  rewrite (process_scene_not_cached self scan files d g Hmiss) in Hrun.
  destruct (filter_scene self files) as [[[[V sem] ins] B]|e] eqn:Hf;
    [|discriminate].
  assert (Hsem : Forall (fun l => ~ In l (DONOTCARE_IDS self)) sem).
  { unfold filter_scene in Hf. bind_inv Hf. bind_inv Hf. bind_inv Hf.
    bind_inv Hf. bind_inv Hf. inversion Hf; subst. clear Hf.
    apply select_Ok in Ha1. destruct Ha1 as [_ ->].
    apply Forall_forall. intros l Hl. apply In_compress in Hl.
    destruct Hl as (i & Hm & Hi).
    unfold in1d in Hm. rewrite !nth_error_map, Hi in Hm. simpl in Hm.
    inversion Hm as [Hneg]. apply negb_true_iff in Hneg.
    intro Hin. apply not_true_iff_false in Hneg. apply Hneg.
    apply existsb_exists. exists l. split; [assumption | apply Z.eqb_refl]. }
  unfold subsample in Hrun.
  destruct (max_num_point self <? length V)%nat.
  - destruct (choice (length V) (max_num_point self) g) as [choices g1].
    destruct (take choices V) as [V'|e]; [|discriminate].
    destruct (take choices sem) as [sem'|e] eqn:Es; [|discriminate].
    destruct (take choices ins) as [ins'|e]; [|discriminate].
    cbn [bind] in Hrun. inversion Hrun; subst d' g'. clear Hrun.
    exists sem'. split; [apply (saved_arrays self scan d)|].
    rewrite Forall_forall in Hsem.
    apply Forall_forall. intros l Hl.
    apply Hsem. exact (take_In choices sem sem' l Es Hl).
  - inversion Hrun; subst d' g'. clear Hrun.
    exists sem. split; [apply (saved_arrays self scan d)|assumption].
Qed.
End Saving.

(** ** [convert] *)

Section Converted.
Context {NUM : Numeric} {RND : Random}.

Variables (format_exc : exn -> string) (self : ScannetProcess)
          (dataset : string -> scan_files).

(** The four files of a scan are in the output directory. *)
Local Notation "'saved' d scan" :=
  (isfile d (out_file self scan "_vert.npy") = true /\
   isfile d (out_file self scan "_sem_label.npy") = true /\
   isfile d (out_file self scan "_ins_label.npy") = true /\
   isfile d (out_file self scan "_bbox.npy") = true)
  (at level 10, d at level 9, scan at level 9).

(** The line [convert] records for a scan that failed. *)
Local Notation "'failure' scan e" :=
  ((scan ++ ": " ++ format_exc e)%string)
  (at level 10, scan at level 9, e at level 9).

(** A name that is none of the four file names of the scans. *)
Local Notation "'foreign' scans name" :=
  (forall scan, In scan scans ->
     name <> out_file self scan "_vert.npy" /\
     name <> out_file self scan "_sem_label.npy" /\
     name <> out_file self scan "_ins_label.npy" /\
     name <> out_file self scan "_bbox.npy")
  (at level 10, scans at level 9, name at level 9).

(** A run of [process_scene] that raises has written nothing. *)
Lemma process_scene_raises_clean (scan : string) (files : scan_files)
    (d d' : disk) (g g' : rng) (e : exn) :
  process_scene self scan files d g = (Raise e, d', g') -> d' = d.
Proof.
  unfold process_scene. intro H.
  destruct (isfile d (out_file self scan "_vert.npy")
            && isfile d (out_file self scan "_sem_label.npy")
            && isfile d (out_file self scan "_ins_label.npy")
            && isfile d (out_file self scan "_bbox.npy")); [discriminate|].
  destruct (filter_scene self files) as [[[[V sem] ins] B]|e0];
    [|now inversion H].
  destruct (subsample self (V, sem, ins) g) as [[[[[V' sem'] ins']|e1] ch] g1];
    [discriminate | now inversion H].
Qed.

(** The loop of [convert], from any state. *)
Lemma convert_loop (scans : list string) :
  forall (errors errors' : list string) (d d' : disk) (g g' : rng),
    fold_left (convert_scan format_exc self dataset) scans (errors, d, g)
    = (errors', d', g') ->
    exists new,
      errors' = errors ++ new /\
      (forall name, isfile d name = true -> isfile d' name = true) /\
      (forall scan, In scan scans ->
         saved d' scan \/ exists e, In (failure scan e) new) /\
      (forall line, In line new ->
         exists scan e, In scan scans /\ line = failure scan e) /\
      (forall name, foreign scans name -> dict_get name d' = dict_get name d).
Proof.
  induction scans as [|scan scans IH]; intros errors errors' d d' g g' H.
  - simpl in H. inversion H; subst. exists []. rewrite app_nil_r.
    repeat split; auto; try contradiction.
  - cbn [fold_left] in H. unfold convert_scan at 2 in H.
    destruct (process_scene self scan (dataset scan) d g) as [[r d1] g1] eqn:Hrun.
    pose proof (process_scene_frame self scan (dataset scan) d d1 g g1 r Hrun)
      as Hframe.
    destruct r as [u|e].
    + destruct u. apply process_scene_Ok_files in Hrun.
      apply IH in H. destruct H as (new & -> & Hkeep & Hall & Hlines & Hother).
      exists new. split; [reflexivity|]. split; [|split; [|split]].
      * intros name Hn. apply Hkeep. now apply (proj2 (Hframe name)).
      * intros s [<-|Hs]; [|now apply Hall].
        left. destruct Hrun as (H1 & H2 & H3 & H4). repeat split; now apply Hkeep.
      * intros line Hl. destruct (Hlines line Hl) as (s & e & Hs & ->).
        exists s, e. split; [now right | reflexivity].
      * intros name Hf. rewrite Hother by (intros s Hs; apply Hf; now right).
        destruct (Hf scan (or_introl eq_refl)) as (N1 & N2 & N3 & N4).
        now apply (proj1 (Hframe name)).
    + apply process_scene_raises_clean in Hrun. subst d1.
      apply IH in H. destruct H as (new & -> & Hkeep & Hall & Hlines & Hother).
      exists (failure scan e :: new). split; [now rewrite <- app_assoc|].
      split; [assumption|]. split; [|split].
      * intros s [<-|Hs].
        -- right. exists e. now left.
        -- destruct (Hall s Hs) as [Hsaved|(e' & He')]; [now left|].
           right. exists e'. now right.
      * intros line [<-|Hl].
        -- exists scan, e. split; [now left | reflexivity].
        -- destruct (Hlines line Hl) as (s & e' & Hs & ->).
           exists s, e'. split; [now right | reflexivity].
      * intros name Hf. apply Hother. intros s Hs. apply Hf. now right.
Qed.

(** X15.  [convert] over scans that all have their four files in the output
    directory (a finished dataset, or no scan at all) raises
    UnboundLocalError: no scan fails, so [errmsg] is never bound.  The array
    files and the generator are as before, and [errors.txt] is left
    empty. *)
Theorem X15_convert_without_failure_raises (scans : list string) (d : disk)
    (g : rng) :
  (forall scan, In scan scans -> saved d scan) ->
  convert format_exc self scans dataset d g
  = (Raise UnboundLocalError, d, EmptyString, g).
Proof.
  intro Hall. unfold convert.
  assert (Hfold : fold_left (convert_scan format_exc self dataset) scans ([], d, g)
                  = ([], d, g)).
  { induction scans as [|scan scans IH]; [reflexivity|].
    cbn [fold_left]. unfold convert_scan at 2. unfold process_scene.
    destruct (Hall scan (or_introl eq_refl)) as (H1 & H2 & H3 & H4).
    rewrite H1, H2, H3, H4. cbn [andb].
    apply IH. intros s Hs. apply Hall. now right. }
  now rewrite Hfold.
Qed.

(** [convert] in terms of its loop. *)
Lemma convert_fold (scans : list string) (d : disk) (g : rng) :
  convert format_exc self scans dataset d g
  = (let '(errors, d1, g1) :=
       fold_left (convert_scan format_exc self dataset) scans ([], d, g) in
     (match errors with [] => Raise UnboundLocalError | _ :: _ => Ok tt end,
      d1,
      match errors with
      | [] => EmptyString
      | _ :: _ => ("Processing failed:" ++ line_feed
                   ++ String.concat line_feed errors)%string
      end,
      g1)).
Proof.
  unfold convert.
  destruct (fold_left (convert_scan format_exc self dataset) scans ([], d, g))
    as [[errors d1] g1].
  now destruct errors.
Qed.

(** The errors the loop has collected: one line for each scan whose run,
    in the state the scans before it left, raised. *)
Lemma convert_loop_errors (d : disk) (g : rng) (scans : list string) :
  let loop := fun pre =>
    fold_left (convert_scan format_exc self dataset) pre ([], d, g) in
  fst (fst (loop scans))
  = flat_map
      (fun i =>
         match nth_error scans i with
         | Some scan =>
             match fst (fst (process_scene self scan (dataset scan)
                               (snd (fst (loop (firstn i scans))))
                               (snd (loop (firstn i scans))))) with
             | Raise e => [failure scan e]
             | Ok _ => []
             end
         | None => []
         end)
      (seq 0 (length scans)).
Proof.
  intro loop. induction scans as [|scan scans IH] using rev_ind;
    [reflexivity|].
  rewrite length_app, Nat.add_comm. cbn [length Nat.add].
  rewrite seq_S, flat_map_app. cbn [Nat.add flat_map].
  rewrite nth_error_app2, Nat.sub_diag by lia. cbn [nth_error].
  rewrite firstn_app, Nat.sub_diag, firstn_all. cbn [firstn].
  rewrite !app_nil_r.
  unfold loop at 1. rewrite fold_left_app. cbn [fold_left].
  fold (loop scans). unfold convert_scan at 1.
  destruct (loop scans) as [[errors d1] g1] eqn:Hl. cbn [fst snd] in *.
  destruct (process_scene self scan (dataset scan) d1 g1) as [[[u|e] d2] g2];
    cbn [fst snd]; rewrite IH.
  - rewrite app_nil_r. rewrite !flat_map_concat_map. f_equal.
    apply map_ext_in. intros i Hi. apply in_seq in Hi.
    rewrite nth_error_app1 by lia.
    rewrite firstn_app. replace (i - length scans)%nat with O by lia.
    cbn [firstn]. now rewrite app_nil_r.
  - f_equal. rewrite !flat_map_concat_map. f_equal.
    apply map_ext_in. intros i Hi. apply in_seq in Hi.
    rewrite nth_error_app1 by lia.
    rewrite firstn_app. replace (i - length scans)%nat with O by lia.
    cbn [firstn]. now rewrite app_nil_r.
Qed.

(** X16.  What [convert] does.  It runs [process_scene] on the scans in
    turn, each in the output directory and with the generator the scans
    before it left (an exception never stops the loop), and the list of
    errors holds, in that order, one line for each scan whose run raised,
    and nothing else.  [convert] returns without error exactly when the
    list is not empty, and [errors.txt] then holds the heading and the
    lines; otherwise it raises UnboundLocalError and [errors.txt] is empty.
    In the end every scan has its four files in the output directory or a
    line in the list. *)
Theorem X16_convert_outcome (scans : list string) (d : disk) (g : rng) :
  let reached := fun pre : list string =>
    let '(_, d1, _, g1) := convert format_exc self pre dataset d g in
    (d1, g1) in
  let run := fun (i : nat) (scan : string) =>
    process_scene self scan (dataset scan)
      (fst (reached (firstn i scans))) (snd (reached (firstn i scans))) in
  let errors :=
    flat_map
      (fun i =>
         match nth_error scans i with
         | Some scan =>
             match fst (fst (run i scan)) with
             | Raise e => [failure scan e]
             | Ok _ => []
             end
         | None => []
         end)
      (seq 0 (length scans)) in
  reached [] = (d, g) /\
  (forall i scan, nth_error scans i = Some scan ->
     reached (firstn (S i) scans)
     = (snd (fst (run i scan)), snd (run i scan))) /\
  convert format_exc self scans dataset d g
  = (match errors with [] => Raise UnboundLocalError | _ :: _ => Ok tt end,
     fst (reached scans),
     match errors with
     | [] => EmptyString
     | _ :: _ => ("Processing failed:" ++ line_feed
                  ++ String.concat line_feed errors)%string
     end,
     snd (reached scans)) /\
  (forall scan, In scan scans ->
     saved (fst (reached scans)) scan \/
     exists e, In (failure scan e) errors).
Proof.
  intros reached run errors.
  pose (loop := fun pre =>
          fold_left (convert_scan format_exc self dataset) pre ([], d, g)).
  assert (Hreached : forall pre,
            reached pre = (snd (fst (loop pre)), snd (loop pre))).
  { intro pre. unfold reached, loop. rewrite convert_fold.
    now destruct (fold_left (convert_scan format_exc self dataset) pre
                    ([], d, g)) as [[errs d1] g1]. }
  assert (Herrors : errors = fst (fst (loop scans))).
  { pose proof (convert_loop_errors d g scans) as He.
    cbv beta zeta in He. unfold loop at 1. rewrite He.
    unfold errors, run.
    rewrite !flat_map_concat_map. f_equal. apply map_ext. intro i.
    destruct (nth_error scans i) as [scan|]; [|reflexivity].
    now rewrite Hreached. }
  split; [reflexivity|]. split; [|split].
  - intros i scan Hi. unfold run. rewrite !Hreached. cbn [fst snd].
    assert (Hsplit : firstn (S i) scans = firstn i scans ++ [scan]).
    { clear - Hi. revert i Hi.
      induction scans as [|x l IH]; intros [|i] Hi; simpl in *;
        try discriminate.
      - now inversion Hi.
      - now rewrite (IH i Hi). }
    rewrite Hsplit. unfold loop. rewrite fold_left_app.
    cbn [fold_left]. unfold convert_scan at 1 3.
    destruct (fold_left (convert_scan format_exc self dataset)
                (firstn i scans) ([], d, g)) as [[errs d1] g1].
    cbn [fst snd].
    now destruct (process_scene self scan (dataset scan) d1 g1)
      as [[[u|e] d2] g2].
  - rewrite convert_fold, Herrors, Hreached. unfold loop.
    now destruct (fold_left (convert_scan format_exc self dataset) scans
                    ([], d, g)) as [[errs d1] g1].
  - intros scan Hin. rewrite Herrors, Hreached. unfold loop. cbn [fst].
    destruct (fold_left (convert_scan format_exc self dataset) scans
                ([], d, g)) as [[errs d1] g1] eqn:Hl.
    cbn [fst snd].
    apply convert_loop in Hl.
    destruct Hl as (new & Herr & _ & Hall & _). simpl in Herr. subst new.
    now apply Hall.
Qed.

(** X17.  [convert] removes no file of the output directory, and changes
    none but the four array files of its scans and [errors.txt], which it
    writes on every run. *)
Theorem X17_convert_touches_only_scan_files (scans : list string) (d d' : disk)
    (g g' : rng) (r : result unit) (txt name : string) :
  convert format_exc self scans dataset d g = (r, d', txt, g') ->
  (isfile d name = true -> isfile d' name = true) /\
  (foreign scans name -> name <> path_join (out_path self) "errors.txt" ->
   dict_get name d' = dict_get name d).
Proof.
  unfold convert. intro H.
  destruct (fold_left (convert_scan format_exc self dataset) scans ([], d, g))
    as [[errors d1] g1] eqn:Hfold.
  apply convert_loop in Hfold.
  destruct Hfold as (new & _ & Hkeep & _ & _ & Hother).
  assert (d' = d1) by (destruct errors; now inversion H). subst d1.
  split; [apply Hkeep | intros Hf _; now apply Hother].
Qed.
End Converted.

(** ** The table of [read_label_mapping] *)

(** The mapping after a run of the loop over the rows: a key holds the
    value of the last row that has it, or what it held before. *)
Lemma build_mapping_rows (label_from label_to : string)
    (rows : list (dict string (option string))) :
  forall m0 m,
    for_each (mapping_row label_from label_to) rows m0 = Ok m ->
    forall k z,
      dict_get k m = Some z <->
      (exists pre row post cell,
         rows = pre ++ row :: post /\
         dict_get label_from row = Some k /\
         dict_get label_to row = Some cell /\ int_of cell = Ok z /\
         forall row', In row' post -> dict_get label_from row' <> Some k) \/
      (dict_get k m0 = Some z /\
       forall row, In row rows -> dict_get label_from row <> Some k).
Proof.
  induction rows as [|row0 rows IH]; intros m0 m Hrun k z.
  - simpl in Hrun. inversion Hrun; subst m. split.
    + intro Hk. right. split; [assumption | intros ? []].
    + intros [(pre & row & post & cell & Heq & _)|[Hk _]]; [|assumption].
      now destruct pre.
  - cbn [for_each] in Hrun. bind_inv Hrun.
    unfold mapping_row in Ha. bind_inv Ha. bind_inv Ha. bind_inv Ha.
    inversion Ha; subst a. clear Ha.
    destruct (dict_get label_to row0) as [cell0|] eqn:Eto; [|discriminate].
    destruct (dict_get label_from row0) as [k0|] eqn:Efrom; [|discriminate].
    simpl in Ha0, Ha2. inversion Ha0; subst a0. inversion Ha2; subst a2.
    clear Ha0 Ha2.
    rewrite (IH _ _ Hrun k z). split.
    + intros [(pre & row & post & cell & Heq & Hk & Hc & Hz & Hpost)|[Hk Hnone]].
      * left. exists (row0 :: pre), row, post, cell. subst rows. auto.
      * destruct (keqb k k0) eqn:E.
        -- apply keqb_eq in E. subst k0. rewrite dict_get_set_same in Hk.
           inversion Hk; subst a1. left.
           exists [], row0, rows, cell0. auto.
        -- assert (Hne : k <> k0) by (intros ->; now rewrite keqb_refl in E).
           rewrite dict_get_set_other in Hk by assumption.
           right. split; [assumption|].
           intros row [<-|Hin]; [congruence | now apply Hnone].
    + intros [(pre & row & post & cell & Heq & Hk & Hc & Hz & Hpost)|[Hk Hnone]].
      * destruct pre as [|p pre]; simpl in Heq; inversion Heq; subst.
        -- right. rewrite Efrom in Hk. inversion Hk; subst k0.
           rewrite Eto in Hc. inversion Hc; subst cell0.
           rewrite Hz in Ha1. inversion Ha1; subst a1.
           split; [apply dict_get_set_same | assumption].
        -- left. exists pre, row, post, cell. auto.
      * right. assert (Hne : k <> k0).
        { intros ->. now apply (Hnone row0 (or_introl eq_refl)). }
        rewrite dict_get_set_other by assumption.
        split; [assumption|]. intros row Hin. apply Hnone. now right.
Qed.

(** X18.  A label of a string-keyed label map stands for the class id of
    the last row of the table that has the label in the [label_from]
    column, the [label_to] cell of that row read by [int]; a label no row
    has is not in the map. *)
Theorem X18_label_table_last_row_wins (recs : csv_records)
    (label_from label_to : string) (m : dict (option string) Z) (l : string)
    (z : Z) :
  read_label_mapping (Some recs) label_from label_to = Ok (StrKeyed m) ->
  (label_map_get (StrKeyed m) l = Ok z <->
   exists pre row post cell,
     dict_reader recs = pre ++ row :: post /\
     dict_get label_from row = Some (Some l) /\
     dict_get label_to row = Some cell /\ int_of cell = Ok z /\
     forall row', In row' post -> dict_get label_from row' <> Some (Some l)).
Proof.
  unfold read_label_mapping. cbn [asserted bind]. intro H.
  destruct (build_mapping recs label_from label_to) as [mapping|e] eqn:Hb;
    [|discriminate].
  cbn [bind] in H.
  destruct (keys mapping) as [|k0 ks]; [discriminate|].
  destruct (represents_int k0) as [[|]|e]; cbn [bind] in H; try discriminate.
  { destruct (rekey mapping); discriminate. }
  inversion H; subst mapping. clear H.
  unfold build_mapping in Hb.
  pose proof (build_mapping_rows label_from label_to (dict_reader recs) [] m Hb
                (Some l) z) as Hrows.
  unfold label_map_get.
  destruct (dict_get (Some l) m) as [v|] eqn:E; simpl.
  - split.
    + intro Hv. inversion Hv; subst v.
      destruct (proj1 Hrows eq_refl) as [Hlast|[Hnil _]];
        [assumption | discriminate].
    + intro Hlast. f_equal.
      assert (Hv : Some v = Some z) by (apply Hrows; now left).
      now inversion Hv.
  - split; [discriminate|].
    intro Hlast.
    assert (Hv : @None Z = Some z) by (apply Hrows; now left).
    discriminate.
Qed.

Lemma dict_get_dict_row (f : string) (fieldnames row : list string) :
  forall d, ~ In f fieldnames ->
            dict_get f (dict_row fieldnames row d) = dict_get f d.
Proof.
  revert row. induction fieldnames as [|f0 fs IH]; intros row d Hnot;
    [now destruct row|].
  assert (Hne : f <> f0) by (intros ->; apply Hnot; now left).
  assert (Hfs : ~ In f fs) by (intro Hin; apply Hnot; now right).
  destruct row as [|x xs]; simpl; rewrite (IH _ _ Hfs);
    now apply dict_get_set_other.
Qed.

(** X19.  A table whose header has no [label_to] column makes
    [read_label_mapping] raise KeyError as soon as it has one record that
    is not empty, whatever the records hold. *)
Theorem X19_missing_column_raises_KeyError (header : list string)
    (rest : csv_records) (label_from label_to : string) :
  ~ In label_to header ->
  (exists row, In row rest /\ row <> []) ->
  read_label_mapping (Some (header :: rest)) label_from label_to
  = Raise KeyError.
Proof.
  intros Hnot (row & Hin & Hne).
  unfold read_label_mapping, build_mapping, dict_reader. cbn [asserted bind].
  assert (Hrows : exists r rs,
            filter (fun row => match row with [] => false | _ => true end) rest
            = r :: rs).
  { destruct (filter _ rest) as [|r rs] eqn:E; [|eauto].
    exfalso. assert (Hf : In row (filter
               (fun row => match row with [] => false | _ => true end) rest)).
    { apply filter_In. split; [assumption|]. now destruct row. }
    rewrite E in Hf. contradiction. }
  destruct Hrows as (r & rs & ->). cbn [map for_each].
  unfold mapping_row at 1.
  rewrite (dict_get_dict_row label_to header r [] Hnot). reflexivity.
Qed.

(** ** The alignment line *)

Section Alignment.
Context {NUM : Numeric}.

(** X20.  [export] reads the alignment from the first line of the metadata
    file that contains axisAlignment and parses no line after it: the
    outcome, matrix or exception, is that of the file with this line
    alone. *)
Theorem X20_first_alignment_line_decides (pre post : list string) (line : string) :
  (forall l, In l pre -> PyStr.contains "axisAlignment" l = false) ->
  PyStr.contains "axisAlignment" line = true ->
  read_axis_align_matrix (Some (pre ++ line :: post))
  = read_axis_align_matrix (Some [line]).
Proof.
  intros Hpre Hline. unfold read_axis_align_matrix. cbn [opened bind].
  assert (Hscan : scan_lines (pre ++ line :: post) = scan_lines [line]).
  { induction pre as [|l pre IH]; cbn [app scan_lines].
    - now rewrite Hline.
    - rewrite (Hpre l (or_introl eq_refl)).
      apply IH. intros l' Hl'. apply Hpre. now right. }
  now rewrite Hscan.
Qed.

(** X21.  A label table whose first category reads as an integer gives an
    integer-keyed label map, which holds no label of an aggregation file:
    once the mesh and the alignment have been read, [export] raises
    KeyError on every scene with at least one object group. *)
Theorem X21_integer_keyed_table_fails_export (mesh : file point_cloud)
    (G : list seg_group) (segIndices : list Z) (meta : file (list string))
    (lm : file csv_records) (V M : matrix) (m : dict Z Z) :
  read_mesh_vertices_rgb mesh = Ok V ->
  read_label_mapping lm "raw_category" "nyu40id" = Ok (IntKeyed m) ->
  read_axis_align_matrix meta = Ok M ->
  G <> [] ->
  export mesh (Some G) (Some segIndices) meta lm = Raise KeyError.
Proof.
  intros HV Hlm HM HG. unfold export.
  rewrite HV. cbn [bind]. rewrite Hlm. cbn [bind]. rewrite HM. cbn [bind].
  destruct (read_aggregation (Some G)) as [[o2s l2s]|e] eqn:Hagg;
    [|discriminate].
  cbn [bind].
  change (read_segmentation (Some segIndices))
    with (Ok (fold_left seg_step
                (combine (seq 0 (length segIndices)) segIndices) [],
              length segIndices)).
  cbn [bind].
  destruct G as [|g G']; [contradiction|].
  destruct (group_in_label_map (g :: G') g o2s l2s Hagg (or_introl eq_refl))
    as (segs & Hin & _).
  destruct l2s as [|[l0 segs0] l2s]; [contradiction|].
  reflexivity.
Qed.
End Alignment.

(** ** The further properties at work on concrete scenes *)

Section FurtherRuns.
Import Scenario.

Local Notation "'export_of' f" :=
  (export (mesh_file f) (agg_file f) (seg_file f) (meta_file f)
          (label_map_file f)) (at level 10, f at level 9).

(** A group that names segment 9, which the segmentation does not have. *)
Local Notation "'dangling'" :=
  {| objectId := 0; label := "chair"; segments := [9] |}.

(** A group with no segment. *)
Local Notation "'hollow'" :=
  {| objectId := 0; label := "chair"; segments := [] |}.

(** A converter that keeps five vertices, and one that drops label 0. *)
Local Notation "'roomy'" := (init "scans" "out" 5).
Local Notation "'picky'" :=
  {| out_path := "out"; dataset_path := "scans"; max_num_point := 3;
     DONOTCARE_IDS := [0]; OBJ_CLASS_IDS := [5] |}.

(** A dataset of two scans, the second without its alignment line. *)
Local Notation "'two_scans'" :=
  (fun scan : string =>
     if String.eqb scan "scene0000_00" then files else files_without_alignment).

Local Notation "'traceback'" := (fun _ : exn => "Traceback"%string).

(** The instance ids of the chair scene. *)
Lemma X4_instance_ids_last_write_witness :
  exists sc,
    export_of files = Ok sc /\
    exists o2s l2s,
      read_aggregation (Some [chair]) = Ok (o2s, l2s) /\
      forall i seg, nth_error segIndices i = Some seg ->
        nth_error (instance_ids sc) i = Some (last_write wrap32 o2s seg).
Proof.
  eexists. split; [reflexivity|].
  exact (@X4_instance_ids_last_write Exact.numeric (Some mesh) [chair]
           segIndices (Some metadata) (Some label_table) _ eq_refl).
Defined.

(** The semantic labels of the chair scene. *)
Lemma X5_semantic_labels_last_write_witness :
  exists sc,
    export_of files = Ok sc /\
    exists label_map o2s l2s,
      read_label_mapping (Some label_table) "raw_category" "nyu40id"
      = Ok label_map /\
      read_aggregation (Some [chair]) = Ok (o2s, l2s) /\
      forall i seg, nth_error segIndices i = Some seg ->
        nth_error (label_ids sc) i
        = Some (last_write (label_value label_map) l2s seg).
Proof.
  eexists. split; [reflexivity|].
  exact (@X5_semantic_labels_last_write Exact.numeric (Some mesh) [chair]
           segIndices (Some metadata) (Some label_table) _ eq_refl).
Defined.

(** A chair on a segment the segmentation does not have. *)
Lemma X6_dangling_reference_raises_KeyError_witness :
  In dangling [dangling] /\
  (exists s, In s (segments dangling) /\ ~ In s segIndices) /\
  @export Exact.numeric (Some mesh) (Some [dangling]) (Some segIndices)
    (Some metadata) (Some label_table) = Raise KeyError.
Proof.
  assert (Hbad : exists s, In s (segments dangling) /\ ~ In s segIndices).
  { exists 9. split; [now left|]. simpl. lia. }
  split; [now left|]. split; [exact Hbad|].
  exact (@X6_dangling_reference_raises_KeyError Exact.numeric (Some mesh)
           [dangling] (Some metadata) (Some label_table) segIndices _ _ _
           dangling eq_refl eq_refl eq_refl (or_introl eq_refl)
           (or_introl Hbad)).
Defined.

(** A chair with no segment. *)
Lemma X7_empty_segment_list_fails_witness :
  read_aggregation (Some [hollow]) = Ok ([(1, [])], [("chair"%string, [])]) /\
  exists e,
    @export Exact.numeric (Some mesh) (Some [hollow]) (Some segIndices)
      (Some metadata) (Some label_table) = Raise e.
Proof.
  split; [reflexivity|].
  exact (@X7_empty_segment_list_fails Exact.numeric (Some mesh) [hollow]
           (Some metadata) (Some label_table) (Some segIndices)
           [(1, [])] [("chair"%string, [])] 1 eq_refl (or_introl eq_refl)).
Defined.

(** Vertex 2 of the chair scene lies on segment 1, the chair's. *)
Lemma X8_vertex_takes_last_group_witness :
  exists sc,
    export_of files = Ok sc /\
    nth_error (instance_ids sc) 2 = Some (wrap32 (objectId chair + 1)) /\
    exists label_map z,
      read_label_mapping (Some label_table) "raw_category" "nyu40id"
      = Ok label_map /\
      label_map_get label_map (label chair) = Ok z /\
      nth_error (label_ids sc) 2 = Some (wrap32 z).
Proof.
  eexists. split; [reflexivity|].
  assert (Hid : NoDup (map objectId ([] ++ [chair]))).
  { repeat constructor; simpl; tauto. }
  assert (Hlab : NoDup (map label ([] ++ [chair]))).
  { repeat constructor; simpl; tauto. }
  exact (@X8_vertex_takes_last_group Exact.numeric (Some mesh) [] [] chair
           segIndices (Some metadata) (Some label_table) _ 2%nat 1
           eq_refl Hid Hlab eq_refl (or_introl eq_refl)
           (fun g' (H : In g' []) => False_ind _ H)).
Defined.

(** The one box of the chair scene. *)
Lemma X9_box_rows_witness :
  exists sc,
    export_of files = Ok sc /\
    length (instance_bboxes sc) = 1%nat /\
    ((exists i, nth_error (instance_ids sc) i = Some (objectId chair + 1)) ->
     exists p rest lbl,
       compress (map (fun v => v =? objectId chair + 1) (instance_ids sc))
                (mesh_vertices sc) = p :: rest /\
       dict_get (objectId chair + 1) (object_id_to_label_id sc) = Some lbl /\
       nth_error (instance_bboxes sc) (Z.to_nat (objectId chair))
       = Some (box_of p rest lbl)).
Proof.
  assert (Hexp : exists sc, export_of files = Ok sc) by (eexists; reflexivity).
  destruct Hexp as (sc & Hexp). exists sc. split; [exact Hexp|].
  assert (Hids : Forall (fun g => 0 <= objectId g) [chair]).
  { repeat constructor; simpl; lia. }
  destruct (@X9_box_rows Exact.numeric (Some mesh) [chair] (Some segIndices)
              (Some metadata) (Some label_table) sc chair Hexp Hids
              (or_introl eq_refl)) as (Hlen & _ & Hbox).
  split; [exact Hlen | exact Hbox].
Defined.

(** The chair, of class 5, is saved with its box. *)
Lemma X10_saved_boxes_are_the_object_classes_witness :
  exists sc d' g',
    export_of files = Ok sc /\
    @process_scene Exact.numeric Sampler.lcg roomy "scene0000_00" files [] 42
    = (Ok tt, d', g') /\
    dict_get (out_file roomy "scene0000_00" "_bbox.npy") d'
    = Some (Boxes (filter (fun b => existsb (Z.eqb (cls b)) (OBJ_CLASS_IDS roomy))
                          (instance_bboxes sc))).
Proof.
  assert (Hexp : exists sc, export_of files = Ok sc) by (eexists; reflexivity).
  destruct Hexp as (sc & Hexp).
  assert (Hrun : exists d' g',
            @process_scene Exact.numeric Sampler.lcg roomy "scene0000_00"
              files [] 42 = (Ok tt, d', g'))
    by (eexists; eexists; reflexivity).
  destruct Hrun as (d' & g' & Hrun).
  exists sc, d', g'. split; [exact Hexp|]. split; [exact Hrun|].
  exact (proj1 (@X10_saved_boxes_are_the_object_classes Exact.numeric
                  Sampler.lcg roomy "scene0000_00" files [] d' 42 g' sc
                  Hexp eq_refl Hrun)).
Defined.

(** With room for its five vertices the chair scene is saved as exported. *)
Lemma X11_default_run_saves_export_witness :
  exists sc d',
    export_of files = Ok sc /\
    @process_scene Exact.numeric Sampler.lcg roomy "scene0000_00" files [] 42
    = (Ok tt, d', 42) /\
    dict_get (out_file roomy "scene0000_00" "_vert.npy") d'
    = Some (Vertices (mesh_vertices sc)) /\
    dict_get (out_file roomy "scene0000_00" "_sem_label.npy") d'
    = Some (Labels (label_ids sc)) /\
    dict_get (out_file roomy "scene0000_00" "_ins_label.npy") d'
    = Some (Labels (instance_ids sc)).
Proof.
  assert (Hexp : exists sc,
            export_of files = Ok sc /\
            length (label_ids sc) = length (mesh_vertices sc) /\
            (length (mesh_vertices sc) <= 5)%nat).
  { eexists. split; [reflexivity|]. split; [reflexivity | apply le_n]. }
  destruct Hexp as (sc & Hexp & Hlen & Hmax).
  destruct (proj1 (@X11_default_run_saves_export Exact.numeric Sampler.lcg
                     roomy "scene0000_00" files [] 42 sc Hexp eq_refl eq_refl)
                  Hlen Hmax) as (d' & Hrun & Hfiles).
  exists sc, d'. split; [exact Hexp|]. split; [exact Hrun | exact Hfiles].
Defined.

(** Once the chair scene is saved, a run over input files that have lost
    their alignment line does nothing. *)
Lemma X12_second_run_does_nothing_witness :
  exists d' g',
    @process_scene Exact.numeric Sampler.lcg roomy "scene0000_00" files [] 42
    = (Ok tt, d', g') /\
    @process_scene Exact.numeric Sampler.lcg roomy "scene0000_00"
      files_without_alignment d' 7
    = (Ok tt, d', 7).
Proof.
  assert (Hrun : exists d' g',
            @process_scene Exact.numeric Sampler.lcg roomy "scene0000_00"
              files [] 42 = (Ok tt, d', g'))
    by (eexists; eexists; reflexivity).
  destruct Hrun as (d' & g' & Hrun).
  exists d', g'. split; [exact Hrun|].
  exact (@X12_second_run_does_nothing Exact.numeric Sampler.lcg roomy
           "scene0000_00" files files_without_alignment [] d' 42 g' 7 Hrun).
Defined.

(** A file of another scan stays as it is. *)
Lemma X13_other_files_untouched_witness :
  let d := [("out/scene0001_00_vert.npy"%string, @Labels Exact.numeric [1])] in
  exists r d' g',
    @process_scene Exact.numeric Sampler.lcg converter "scene0000_00" files d 42
    = (r, d', g') /\
    dict_get "out/scene0001_00_vert.npy"%string d' = Some (Labels [1]) /\
    isfile d' "out/scene0001_00_vert.npy" = true.
Proof.
  intro d.
  destruct (@process_scene Exact.numeric Sampler.lcg converter "scene0000_00"
              files d 42) as [[r d'] g'] eqn:Hrun.
  exists r, d', g'. split; [reflexivity|].
  destruct (@X13_other_files_untouched Exact.numeric Sampler.lcg converter
              "scene0000_00" files d d' 42 g' r
              "out/scene0001_00_vert.npy" Hrun) as [Hget Hkeep].
  split; [|exact (Hkeep eq_refl)].
  rewrite Hget; [reflexivity | vm_compute; discriminate ..].
Defined.

(** The two unannotated vertices of the chair scene are not saved by a
    converter that does not care for label 0. *)
Lemma X14_no_dont_care_label_saved_witness :
  exists d' g',
    @process_scene Exact.numeric Sampler.lcg picky "scene0000_00" files [] 42
    = (Ok tt, d', g') /\
    exists sem,
      dict_get (out_file picky "scene0000_00" "_sem_label.npy") d'
      = Some (Labels sem) /\
      Forall (fun l => ~ In l [0]) sem.
Proof.
  assert (Hrun : exists d' g',
            @process_scene Exact.numeric Sampler.lcg picky "scene0000_00"
              files [] 42 = (Ok tt, d', g'))
    by (eexists; eexists; reflexivity).
  destruct Hrun as (d' & g' & Hrun).
  exists d', g'. split; [exact Hrun|].
  exact (@X14_no_dont_care_label_saved Exact.numeric Sampler.lcg picky
           "scene0000_00" files [] d' 42 g' eq_refl Hrun).
Defined.

(** [convert] over a scan whose four files are there raises. *)
Lemma X15_convert_without_failure_raises_witness :
  let d := [("out/scene0000_00_vert.npy"%string, @Labels Exact.numeric []);
            ("out/scene0000_00_sem_label.npy"%string, Labels []);
            ("out/scene0000_00_ins_label.npy"%string, Labels []);
            ("out/scene0000_00_bbox.npy"%string, Labels [])] in
  @convert Exact.numeric Sampler.lcg traceback converter ["scene0000_00"%string]
    two_scans d 7
  = (Raise UnboundLocalError, d, EmptyString, 7).
Proof.
  intro d.
  apply (@X15_convert_without_failure_raises Exact.numeric Sampler.lcg).
  intros scan [<-|[]]. repeat split; reflexivity.
Defined.

(** Two scans, the second of which has no alignment line: [convert]
    returns, and [errors.txt] names the second scan. *)
Lemma X16_convert_outcome_witness :
  exists d' g',
    @convert Exact.numeric Sampler.lcg traceback roomy
      ["scene0000_00"; "scene0001_00"]%string two_scans [] 42
    = (Ok tt, d',
       ("Processing failed:" ++ line_feed ++ "scene0001_00: Traceback")%string,
       g').
Proof.
  destruct (@X16_convert_outcome Exact.numeric Sampler.lcg traceback roomy
              two_scans ["scene0000_00"; "scene0001_00"]%string [] 42)
    as (_ & _ & Hrun & _).
  rewrite Hrun. eexists. eexists. reflexivity.
Defined.

(** [convert] over the chair scene leaves a file of another scan alone. *)
Lemma X17_convert_touches_only_scan_files_witness :
  let d := [("out/scene0001_00_vert.npy"%string, @Labels Exact.numeric [1])] in
  exists r d' txt g',
    @convert Exact.numeric Sampler.lcg traceback converter ["scene0000_00"%string]
      two_scans d 42
    = (r, d', txt, g') /\
    isfile d' "out/scene0001_00_vert.npy" = true /\
    dict_get "out/scene0001_00_vert.npy"%string d' = Some (Labels [1]).
Proof.
  intro d.
  destruct (@convert Exact.numeric Sampler.lcg traceback converter
              ["scene0000_00"%string] two_scans d 42)
    as [[[r d'] txt] g'] eqn:Hrun.
  exists r, d', txt, g'. split; [reflexivity|].
  destruct (@X17_convert_touches_only_scan_files Exact.numeric Sampler.lcg
              traceback converter two_scans ["scene0000_00"%string] d d' 42 g'
              r txt "out/scene0001_00_vert.npy" Hrun) as [Hkeep Hget].
  split; [exact (Hkeep eq_refl)|].
  rewrite Hget; [reflexivity | | vm_compute; discriminate].
  intros scan [<-|[]]. repeat split; vm_compute; discriminate.
Defined.

(** A table with two rows for chair: the second, class 7, is the one that
    counts. *)
Lemma X18_label_table_last_row_wins_witness :
  let recs := [["raw_category"; "nyu40id"]; ["chair"; "5"]; ["table"; "6"];
               ["chair"; "7"]]%string in
  read_label_mapping (Some recs) "raw_category" "nyu40id"
  = Ok (StrKeyed [(Some "chair"%string, 7); (Some "table"%string, 6)]) /\
  (label_map_get (StrKeyed [(Some "chair"%string, 7); (Some "table"%string, 6)])
     "chair" = Ok 7 <->
   exists pre row post cell,
     dict_reader recs = pre ++ row :: post /\
     dict_get "raw_category"%string row = Some (Some "chair"%string) /\
     dict_get "nyu40id"%string row = Some cell /\ int_of cell = Ok 7 /\
     forall row', In row' post ->
       dict_get "raw_category"%string row' <> Some (Some "chair"%string)).
Proof.
  intro recs. split; [reflexivity|].
  exact (@X18_label_table_last_row_wins recs "raw_category" "nyu40id"
           [(Some "chair"%string, 7); (Some "table"%string, 6)] "chair" 7
           eq_refl).
Defined.

(** A table with the category column only. *)
Lemma X19_missing_column_raises_KeyError_witness :
  ~ In "nyu40id"%string ["raw_category"%string] /\
  (exists row, In row [["chair"%string]] /\ row <> []) /\
  read_label_mapping (Some [["raw_category"]; ["chair"]]%string)
    "raw_category" "nyu40id" = Raise KeyError.
Proof.
  assert (Hnot : ~ In "nyu40id"%string ["raw_category"%string]).
  { intros [H|[]]. discriminate. }
  assert (Hrow : exists row, In row [["chair"%string]] /\ row <> []).
  { exists ["chair"%string]. split; [now left | discriminate]. }
  split; [exact Hnot|]. split; [exact Hrow|].
  exact (@X19_missing_column_raises_KeyError ["raw_category"%string]
           [["chair"%string]] "raw_category" "nyu40id" Hnot Hrow).
Defined.

(** A second alignment line, which no [float] would read, is never looked
    at. *)
Lemma X20_first_alignment_line_decides_witness :
  let pre := [("colorHeight = 968" ++ newline)%string] in
  let line := ("axisAlignment = 1 0 0 2 0 1 0 3 0 0 1 4 0 0 0 1 " ++ newline)%string in
  let post := ["axisAlignment = none"%string] in
  (forall l, In l pre -> PyStr.contains "axisAlignment" l = false) /\
  PyStr.contains "axisAlignment" line = true /\
  @read_axis_align_matrix Exact.numeric (Some (pre ++ line :: post))
  = @read_axis_align_matrix Exact.numeric (Some [line]).
Proof.
  intros pre line post.
  assert (Hpre : forall l, In l pre -> PyStr.contains "axisAlignment" l = false).
  { intros l [<-|[]]. reflexivity. }
  split; [exact Hpre|]. split; [reflexivity|].
  exact (@X20_first_alignment_line_decides Exact.numeric pre post line Hpre
           eq_refl).
Defined.

(** A table whose category is the number 7. *)
Lemma X21_integer_keyed_table_fails_export_witness :
  let table := [["raw_category"; "nyu40id"]; ["7"; "5"]]%string in
  read_label_mapping (Some table) "raw_category" "nyu40id"
  = Ok (IntKeyed [(7, 5)]) /\
  @export Exact.numeric (Some mesh) (Some [chair]) (Some segIndices)
    (Some metadata) (Some table) = Raise KeyError.
Proof.
  intro table. split; [reflexivity|].
  assert (HG : [chair] <> []) by discriminate.
  exact (@X21_integer_keyed_table_fails_export Exact.numeric (Some mesh) [chair]
           segIndices (Some metadata) (Some table) _ _ [(7, 5)]
           eq_refl eq_refl eq_refl HG).
Defined.
End FurtherRuns.
